(** * Seeded splitting, majority vote, confusion matrix and cross-validation

    A shallow embedding of the evaluation core of the multimodal recommender:
    [test-utils.js] (DataSplitter, CrossValidator), [utils.js] (majorityVote),
    [predictor.js] (predictFromId), [evaluator.js] (createConfusionMatrix,
    computeClassificationMetrics) and [eval-config.js] (validateConfig).

    Numbers.  A JavaScript number is an IEEE-754 double.  Every integer the
    code computes is modelled in [Z], and the one place where a double cannot
    hold the exact integer (the product in the generator's step) is rounded
    explicitly by [fl].  Quotients (the generator's output, ratios, means) are
    kept as exact rationals in [Q]. *)

From Stdlib Require Import ZArith QArith Qround Qminmax Lia Bool.
From stdpp Require Import base list strings gmap.

Local Open Scope Z_scope.

(** ** JavaScript helpers *)

Module JS.

(** A call either returns a value or throws an [Error] with a message. *)
Inductive outcome (A : Type) : Type :=
| Return (a : A)
| Throw (message : string).
Arguments Return {A} a.
Arguments Throw {A} message.

Definition is_throw {A} (o : outcome A) : bool :=
  match o with Throw _ => true | Return _ => false end.

(** [Array.prototype.slice(start, end)]: a negative index counts from the
    end, every index is clamped to the array. *)
Definition rel_index (len i : Z) : Z :=
  if i <? 0 then Z.max (len + i) 0 else Z.min i len.

Definition slice {A} (l : list A) (start : Z) (stop : option Z) : list A :=
  let len := Z.of_nat (length l) in
  let from := rel_index len start in
  let to := match stop with Some e => rel_index len e | None => len end in
  take (Z.to_nat (to - from)) (drop (Z.to_nat from) l).

(** Rounding of an integer to the nearest double (53-bit significand, ties
    to even); [None] is an infinity. *)
Definition fl (x : Z) : option Z :=
  let m := Z.abs x in
  if m <? 2 ^ 53 then Some x
  else
    let e := Z.log2 m - 52 in
    let q := m / 2 ^ e in
    let r := m mod 2 ^ e in
    let h := 2 ^ (e - 1) in
    let q' := if r <? h then q
              else if h <? r then q + 1
              else if Z.even q then q else q + 1 in
    let v := q' * 2 ^ e in
    if 2 ^ 1024 <=? v then None else Some (Z.sgn x * v).

(** [ToInt32] of an integer-valued double. *)
Definition ToInt32 (x : Z) : Z := (x + 2 ^ 31) mod 2 ^ 32 - 2 ^ 31.

End JS.

(** ** The seeded generator: [createSeededRandom] *)

Module Rng.
Import JS.

Definition modulus : Z := 0x7fffffff.

(** [state = (state * 1103515245 + 12345) & 0x7fffffff]: the product and the
    sum are doubles, [&] converts with [ToInt32] (an infinity becomes 0). *)
Definition next_state (state : Z) : Z :=
  match fl (state * 1103515245) with
  | None => 0
  | Some p =>
      match fl (p + 12345) with
      | None => 0
      | Some q => Z.land (ToInt32 q) 0x7fffffff
      end
  end.

(** One call of the closure: the new state and [state / 0x7fffffff]. *)
Definition rng (state : Z) : Q * Z :=
  let state' := next_state state in
  (inject_Z state' / inject_Z modulus, state')%Q.

(** The state after [n] calls, and the [n]-th number of the stream
    (numbered from 0) of a generator created with [seed]. *)
Fixpoint state_after (seed : Z) (n : nat) : Z :=
  match n with
  | O => seed
  | S n' => next_state (state_after seed n')
  end.

Definition stream (seed : Z) (n : nat) : Q := fst (rng (state_after seed n)).

End Rng.

(** ** Records and datasets *)

Module Data.

(** One row of [embeddings.json].  The metadata is a row of the CSV file:
    every value is a string; a missing key reads as [undefined] ([None]). *)
Record record : Type := mkRecord {
  rec_id : string;
  embedding : list Q;
  metadata : gmap string string
}.

(** [extractFieldValue(item, field)] on a row, which always has a metadata
    object: [item.metadata[field]]. *)
Definition extractFieldValue (item : record) (field : string) : option string :=
  metadata item !! field.

(** Truthiness of a string or [undefined]. *)
Definition truthy (v : option string) : bool :=
  match v with
  | Some s => negb (String.eqb s "")
  | None => false
  end.

End Data.

(** ** DataSplitter *)

Module DataSplitter.
Import JS Rng Data.

Section Shuffle.
Context {A : Type}.

(** [[array[i], array[j]] = [array[j], array[i]]].  Both indices are inside
    the array whenever [shuffleArray] swaps (see [shuffle_index_range]). *)
Definition swap (array : list A) (i j : nat) : list A :=
  match array !! i, array !! j with
  | Some x, Some y => <[j:=x]> (<[i:=y]> array)
  | _, _ => array
  end.

(** [j = Math.floor(this.rng() * (i + 1))]. *)
Definition pick (u : Q) (bound : Z) : Z := Qfloor (u * inject_Z bound).

(** The loop [for (i = n; i > 0; i--)] of [shuffleArray]. *)
Fixpoint shuffle_from (i : nat) (array : list A) (state : Z) : list A * Z :=
  match i with
  | O => (array, state)
  | S i' =>
      let (u, state') := rng state in
      let j := pick u (Z.of_nat i + 1) in
      shuffle_from i' (swap array i (Z.to_nat j)) state'
  end.

Definition shuffleArray (array : list A) (state : Z) : list A * Z :=
  shuffle_from (length array - 1) array state.

(** The body of the loop [for (i = 0; i < k; i++)] of both k-fold
    methods, for an array [items] whose length the method read as [n]:
    [start = i * foldSize], [end = i === k - 1 ? n : start + foldSize];
    the pair is (train part, test part). *)
Definition fold_slices (items : list A) (n k i : Z) : list A * list A :=
  let foldSize := n / k in
  let start := i * foldSize in
  let stop := if i =? k - 1 then n else start + foldSize in
  (slice items 0 (Some start) ++ slice items stop None,
   slice items start (Some stop)).

End Shuffle.

Record split_info : Type := {
  total_samples : Z;
  train_samples : Z;
  test_samples : Z
}.

Record split : Type := {
  train : list record;
  test : list record;
  info : split_info
}.

(** [trainTestSplit(data, testSize, shuffle)]. *)
Definition trainTestSplit (data : list record) (testSize : Q) (shuffle : bool)
    (state : Z) : outcome split * Z :=
  let (dataCopy, state') := if shuffle then shuffleArray data state else (data, state) in
  let testCount := Qfloor (inject_Z (Z.of_nat (length data)) * testSize) in
  (Return {| train := slice dataCopy testCount None;
             test := slice dataCopy 0 (Some testCount);
             info := {| total_samples := Z.of_nat (length data);
                        train_samples := Z.of_nat (length dataCopy) - testCount;
                        test_samples := testCount |} |},
   state').

(** The [Map] from category to its items, in insertion order. *)
Definition groups_t : Type := list (option string * list record).

Fixpoint group_push (category : option string) (item : record) (groups : groups_t)
    : groups_t :=
  match groups with
  | [] => [(category, [item])]
  | (c, items) :: rest =>
      if decide (c = category) then (c, items ++ [item]) :: rest
      else (c, items) :: group_push category item rest
  end.

Definition group_by (field : string) (data : list record) : groups_t :=
  fold_left (fun groups item => group_push (extractFieldValue item field) item groups)
            data [].

Record category_stat : Type := {
  cat_total : Z;
  cat_train : Z;
  cat_test : Z;
  kept_in_train : bool
}.

Record stratified : Type := {
  s_train : list record;
  s_test : list record;
  category_stats : list (option string * category_stat)
}.

(** The loop over the groups of [stratifiedSplit]. *)
Fixpoint stratify_groups (groups : groups_t) (testSize : Q) (minSamples : Z)
    (acc : stratified) (state : Z) : stratified * Z :=
  match groups with
  | [] => (acc, state)
  | (category, items) :: rest =>
      let n := Z.of_nat (length items) in
      if n <? minSamples then
        stratify_groups rest testSize minSamples
          {| s_train := s_train acc ++ items;
             s_test := s_test acc;
             category_stats := category_stats acc ++
               [(category, {| cat_total := n; cat_train := n; cat_test := 0;
                              kept_in_train := true |})] |}
          state
      else
        let (shuffled, state') := shuffleArray items state in
        let testCount := Z.max 1 (Qfloor (inject_Z n * testSize)) in
        let testItems := slice shuffled 0 (Some testCount) in
        let trainItems := slice shuffled testCount None in
        stratify_groups rest testSize minSamples
          {| s_train := s_train acc ++ trainItems;
             s_test := s_test acc ++ testItems;
             category_stats := category_stats acc ++
               [(category, {| cat_total := n;
                              cat_train := Z.of_nat (length trainItems);
                              cat_test := Z.of_nat (length testItems);
                              kept_in_train := false |})] |}
          state'
  end.

(** [stratifiedSplit(data, testSize, stratifyField, minSamplesPerCategory)]. *)
Definition stratifiedSplit (data : list record) (testSize : Q) (stratifyField : string)
    (minSamplesPerCategory : Z) (state : Z) : outcome stratified * Z :=
  let (r, state') :=
    stratify_groups (group_by stratifyField data) testSize minSamplesPerCategory
      {| s_train := []; s_test := []; category_stats := [] |} state in
  (Return r, state').

Record fold : Type := {
  fold_no : Z;
  f_train : list record;
  f_test : list record;
  train_size : Z;
  test_size : Z
}.

Record fold_info : Type := {
  fi_k : Z;
  fi_stratified : bool;
  fi_total_samples : Z;
  avg_train_size : Z;
  avg_test_size : Z
}.

Record kfold : Type := {
  folds : list fold;
  cv_info : fold_info
}.

(** [Math.round] of a rational. *)
Definition round (q : Q) : Z := Qfloor (q + (1 # 2)).

Definition sum_sizes (size : fold -> Z) (fs : list fold) : Z :=
  fold_left (fun sum f => sum + size f) fs 0.

Definition make_info (k : Z) (strat : bool) (n : Z) (fs : list fold) : fold_info :=
  {| fi_k := k;
     fi_stratified := strat;
     fi_total_samples := n;
     avg_train_size := round (inject_Z (sum_sizes train_size fs) / inject_Z k);
     avg_test_size := round (inject_Z (sum_sizes test_size fs) / inject_Z k) |}.

Definition make_fold (i : Z) (parts : list record * list record) : fold :=
  {| fold_no := i + 1;
     f_train := fst parts;
     f_test := snd parts;
     train_size := Z.of_nat (length (fst parts));
     test_size := Z.of_nat (length (snd parts)) |}.

(** The loop over the groups of [stratifiedKFoldSplit]: every group is
    shuffled and its [i]-th slice pushed onto fold [i]. *)
Fixpoint distribute (groups : groups_t) (k : Z)
    (acc : list (list record * list record)) (state : Z)
    : list (list record * list record) * Z :=
  match groups with
  | [] => (acc, state)
  | (_, items) :: rest =>
      let (shuffled, state') := shuffleArray items state in
      let acc' :=
        zip_with (fun f i => let s := fold_slices shuffled (Z.of_nat (length items)) k i in
                             (fst f ++ fst s, snd f ++ snd s))
                 acc (seqZ 0 k) in
      distribute rest k acc' state'
  end.

(** [stratifiedKFoldSplit(data, k, stratifyField)]. *)
Definition stratifiedKFoldSplit (data : list record) (k : Z) (stratifyField : string)
    (state : Z) : kfold * Z :=
  let groups := group_by stratifyField data in
  let empty := (fun _ : Z => ([] : list record, [] : list record)) <$> seqZ 0 k in
  let (parts, state') := distribute groups k empty state in
  let fs := zip_with (fun i p => make_fold i p) (seqZ 0 k) parts in
  ({| folds := fs;
      cv_info := make_info k true (Z.of_nat (length data)) fs |}, state').

(** The non-stratified loop of [kFoldSplit]. *)
Definition simple_folds (data dataCopy : list record) (k : Z) : kfold :=
  let fs := (fun i => make_fold i (fold_slices dataCopy (Z.of_nat (length data)) k i))
              <$> seqZ 0 k in
  {| folds := fs; cv_info := make_info k false (Z.of_nat (length data)) fs |}.

(** [kFoldSplit(data, k, shuffle, stratify)]; [stratify] is a field name or
    [null], and [if (stratify)] takes a non-empty name only. *)
Definition kFoldSplit (data : list record) (k : Z) (shuffle : bool)
    (stratify : option string) (state : Z) : outcome kfold * Z :=
  if k <? 2 then (Throw "k must be at least 2", state)
  else if Z.of_nat (length data) <? k
  then (Throw "k cannot be larger than dataset size", state)
  else
    let (dataCopy, state') := if shuffle then shuffleArray data state else (data, state) in
    match stratify with
    | Some field =>
        if truthy stratify then
          let (r, state'') := stratifiedKFoldSplit dataCopy k field state' in
          (Return r, state'')
        else (Return (simple_folds data dataCopy k), state')
    | None => (Return (simple_folds data dataCopy k), state')
    end.

(** [bootstrapSample(data, numSamples, sampleSize)]; an index outside the
    array reads [undefined] ([None]). *)
Fixpoint draw (data : list record) (n : nat) (state : Z) : list (option record) * Z :=
  match n with
  | O => ([], state)
  | S n' =>
      let (u, state') := rng state in
      let randomIndex := pick u (Z.of_nat (length data)) in
      let (sample, state'') := draw data n' state' in
      (data !! Z.to_nat randomIndex :: sample, state'')
  end.

Fixpoint draw_samples (data : list record) (numSamples sampleSize : nat) (state : Z)
    : list (list (option record)) * Z :=
  match numSamples with
  | O => ([], state)
  | S n' =>
      let (sample, state') := draw data sampleSize state in
      let (samples, state'') := draw_samples data n' sampleSize state' in
      (sample :: samples, state'')
  end.

Definition bootstrapSample (data : list record) (numSamples : nat) (sampleSize : option nat)
    (state : Z) : outcome (list (list (option record))) * Z :=
  let size := match sampleSize with
              | Some (S n) => S n
              | _ => length data
              end in
  let (samples, state') := draw_samples data numSamples size state in
  (Return samples, state').

(** [leaveOneOutSplit(data)]. *)
Definition leaveOneOutSplit (data : list record) (state : Z) : outcome (list fold) * Z :=
  (Return ((fun i =>
      {| fold_no := i + 1;
         f_train := slice data 0 (Some i) ++ slice data (i + 1) None;
         f_test := slice data i (Some (i + 1));
         train_size := Z.of_nat (length data) - 1;
         test_size := 1 |}) <$> seqZ 0 (Z.of_nat (length data))), state).

End DataSplitter.

(** ** CrossValidator *)

Module CrossValidator.
Import JS Data.

(** A property value of a fold result: a number, [NaN], or the string that
    [error.message] stores under the key [error]. *)
Inductive value : Type :=
| VNum (q : Q)
| VNaN
| VStr (s : string).

(** [!v] for a property that may be missing ([undefined]). *)
Definition falsy (v : option value) : bool :=
  match v with
  | None => true
  | Some (VNum q) => Qeq_bool q 0
  | Some VNaN => true
  | Some (VStr s) => String.eqb s ""
  end.

Definition is_number (v : value) : bool :=
  match v with VNum _ | VNaN => true | VStr _ => false end.

Record config : Type := {
  k : Z;
  stratify : bool;
  random_seed : Z
}.

(** The evaluation callback: it returns an object of numbers or throws an
    [Error] with a message. *)
Inductive number : Type := Fin (q : Q) | NaN.

Definition to_value (n : number) : value :=
  match n with Fin q => VNum q | NaN => VNaN end.

Definition callback : Type :=
  list record -> list record -> Z -> outcome (gmap string number).

Definition num (z : Z) : value := VNum (inject_Z z).

(** The entry pushed for a fold: [{fold, ...foldResult, train_size,
    test_size}] or [{fold, error: error.message, train_size, test_size}]. *)
Definition fold_entry (f : DataSplitter.fold) (r : outcome (gmap string number))
    : gmap string value :=
  match r with
  | Return foldResult =>
      <["test_size" := num (DataSplitter.test_size f)]>
        (<["train_size" := num (DataSplitter.train_size f)]>
           ((to_value <$> foldResult) ∪ {["fold" := num (DataSplitter.fold_no f)]}))
  | Throw message =>
      <["test_size" := num (DataSplitter.test_size f)]>
        (<["train_size" := num (DataSplitter.train_size f)]>
           (<["error" := VStr message]> {["fold" := num (DataSplitter.fold_no f)]}))
  end.

(** The loop over [splits.folds]; [i] is the index of the first fold of [fs]. *)
Fixpoint run_folds (evaluationFunction : callback) (fs : list DataSplitter.fold) (i : Z)
    : list (gmap string value) :=
  match fs with
  | [] => []
  | f :: rest =>
      fold_entry f (evaluationFunction (DataSplitter.f_train f) (DataSplitter.f_test f) i)
        :: run_folds evaluationFunction rest (i + 1)
  end.

Record stat : Type := {
  mean : Q;
  std : Q;
  min : Q;
  max : Q;
  values : list Q
}.

Record aggregated : Type := {
  cv_info : DataSplitter.fold_info;
  successful_folds : Z;
  failed_folds : Z;
  metrics : gmap string stat;
  fold_results : list (gmap string value)
}.

Definition reserved : list string := ["fold"; "train_size"; "test_size"; "error"].

Section Aggregate.
(** [Math.sqrt], which has no rational model, is a parameter. *)
Variable sqrt : Q -> Q.

Definition Qsum (arr : list Q) : Q := fold_left Qplus arr 0%Q.

Definition mean_of (arr : list Q) : Q :=
  if (0 <? Z.of_nat (length arr)) then (Qsum arr / inject_Z (Z.of_nat (length arr)))%Q
  else 0%Q.

Definition std_of (arr : list Q) : Q :=
  let m := mean_of arr in
  sqrt (mean_of ((fun x => (x - m) ^ 2)%Q <$> arr)).

Definition Qmin_list (x : Q) (arr : list Q) : Q := fold_left Qmin arr x.
Definition Qmax_list (x : Q) (arr : list Q) : Q := fold_left Qmax arr x.

(** [validResults.map(r => r[metric]).filter(v => !isNaN(v))].  A metric
    key is never one of the reserved keys, so the property is a number,
    [NaN] or missing; only a number passes the filter. *)
Definition metric_values (metric : string) (validResults : list (gmap string value))
    : list Q :=
  omap (fun r => match r !! metric with
                 | Some (VNum q) => Some q
                 | _ => None
                 end) validResults.

Definition metric_keys (sampleResult : gmap string value) : list string :=
  filter (fun key => (key ∉ reserved) ∧
                     (is_number <$> (sampleResult !! key)) = Some true)
         (fst <$> map_to_list sampleResult).

Definition add_metric (validResults : list (gmap string value))
    (acc : gmap string stat) (metric : string) : gmap string stat :=
  match metric_values metric validResults with
  | [] => acc
  | v :: vs =>
      <[metric := {| mean := mean_of (v :: vs);
                     std := std_of (v :: vs);
                     min := Qmin_list v vs;
                     max := Qmax_list v vs;
                     values := v :: vs |}]> acc
  end.

(** [aggregateCrossValidationResults(foldResults, foldInfo)]. *)
Definition aggregateCrossValidationResults (foldResults : list (gmap string value))
    (foldInfo : DataSplitter.fold_info) : outcome aggregated :=
  let validResults := filter (fun r => falsy (r !! "error") = true) foldResults in
  match validResults with
  | [] => Throw "All cross-validation folds failed"
  | sampleResult :: _ =>
      Return {| cv_info := foldInfo;
                successful_folds := Z.of_nat (length validResults);
                failed_folds := Z.of_nat (length foldResults)
                                - Z.of_nat (length validResults);
                metrics := fold_left (add_metric validResults)
                                     (metric_keys sampleResult) ∅;
                fold_results := foldResults |}
  end.

(** [performCrossValidation(data, evaluationFunction, stratifyField)] of a
    validator built with [config]; its splitter starts from
    [config.random_seed]. *)
Definition performCrossValidation (cfg : config) (data : list record)
    (evaluationFunction : callback) (stratifyField : option string)
    : outcome aggregated :=
  let strat := if stratify cfg
               then Some (if truthy stratifyField then default "" stratifyField
                          else "articletype")
               else None in
  match fst (DataSplitter.kFoldSplit data (k cfg) true strat (random_seed cfg)) with
  | Throw message => Throw message
  | Return splits =>
      aggregateCrossValidationResults
        (run_folds evaluationFunction (DataSplitter.folds splits) 0)
        (DataSplitter.cv_info splits)
  end.

End Aggregate.

End CrossValidator.

(** ** Classification metrics of the evaluator *)

Module ModelEvaluator.
Import JS.

(** A label is a metadata value, [undefined] (missing field) or [null] (the
    prediction when no neighbour carries the field). *)
Inductive label : Type :=
| LNull
| LUndef
| LStr (s : string).

#[global] Instance label_eq_dec : EqDecision label.
Proof. solve_decision. Defined.

(** Template-literal conversion [`${l}`]. *)
Definition show (l : label) : string :=
  match l with
  | LNull => "null"
  | LUndef => "undefined"
  | LStr s => s
  end.

(** [`${actual}_${predicted}`]. *)
Definition key_of (actual predicted : label) : string :=
  show actual +:+ "_" +:+ show predicted.

Definition startsWith (s pre : string) : bool := String.prefix pre s.

Definition endsWith (s suf : string) : bool :=
  let n := String.length s in
  let m := String.length suf in
  if (m <=? n)%nat then String.eqb (String.substring (n - m) m s) suf else false.

(** A [Map] with string keys: an association list in insertion order. *)
Definition smap : Type := list (string * Z).

Fixpoint get (m : smap) (key : string) : option Z :=
  match m with
  | [] => None
  | (k0, v) :: rest => if String.eqb k0 key then Some v else get rest key
  end.

Fixpoint set (m : smap) (key : string) (v : Z) : smap :=
  match m with
  | [] => [(key, v)]
  | (k0, v0) :: rest =>
      if String.eqb k0 key then (k0, v) :: rest else (k0, v0) :: set rest key v
  end.

Definition keys (m : smap) : list string := fst <$> m.

Record confusion : Type := {
  matrix : smap;
  correct : Z;
  total : Z
}.

(** The loop of [createConfusionMatrix] from index [i] on; [predictions[i]]
    past the end of the array is [undefined]. *)
Fixpoint confusion_loop (groundTruth predictions : list label) (m : smap) (c : Z)
    : smap * Z :=
  match groundTruth with
  | [] => (m, c)
  | actual :: gt' =>
      let predicted := default LUndef (head predictions) in
      let key := key_of actual predicted in
      let m' := set m key (default 0 (get m key) + 1) in
      let c' := if decide (actual = predicted) then c + 1 else c in
      confusion_loop gt' (tail predictions) m' c'
  end.

Definition createConfusionMatrix (groundTruth predictions : list label) : confusion :=
  let (m, c) := confusion_loop groundTruth predictions [] 0 in
  {| matrix := m; correct := c; total := Z.of_nat (length groundTruth) |}.

(** [[...new Set(array)]]: the distinct elements in order of first
    occurrence. *)
Fixpoint distinct_from (seen array : list label) : list label :=
  match array with
  | [] => []
  | x :: rest =>
      if decide (x ∈ seen) then distinct_from seen rest
      else x :: distinct_from (x :: seen) rest
  end.

Definition distinct (array : list label) : list label := distinct_from [] array.

Definition sum_get (m : smap) (ks : list string) : Z :=
  fold_left (fun sum key => sum + default 0 (get m key)) ks 0.

Definition true_positives (c : confusion) (cls : label) : Z :=
  default 0 (get (matrix c) (key_of cls cls)).

Definition false_positives (c : confusion) (cls : label) : Z :=
  sum_get (matrix c)
    (filter (fun key => endsWith key ("_" +:+ show cls) = true ∧
                        startsWith key (show cls +:+ "_") = false)
            (keys (matrix c))).

Definition false_negatives (c : confusion) (cls : label) : Z :=
  sum_get (matrix c)
    (filter (fun key => startsWith key (show cls +:+ "_") = true ∧
                        endsWith key ("_" +:+ show cls) = false)
            (keys (matrix c))).

Definition precision (c : confusion) (cls : label) : Q :=
  let tp := true_positives c cls in
  if 0 <? tp then (inject_Z tp / inject_Z (tp + false_positives c cls))%Q else 0%Q.

Definition recall (c : confusion) (cls : label) : Q :=
  let tp := true_positives c cls in
  if 0 <? tp then (inject_Z tp / inject_Z (tp + false_negatives c cls))%Q else 0%Q.

Definition f1 (c : confusion) (cls : label) : Q :=
  let p := precision c cls in
  let r := recall c cls in
  if Qlt_le_dec 0 (p + r) then (2 * p * r / (p + r))%Q else 0%Q.

(** A quotient of two numbers; [None] is [NaN] (0 / 0). *)
Definition ratio (a b : Q) : option Q :=
  if Qeq_bool b 0 then None else Some (a / b)%Q.

Record classification : Type := {
  accuracy : option Q;
  macro_precision : option Q;
  macro_recall : option Q;
  macro_f1 : option Q
}.

(** The loop [for (const cls of classes)]: the three running sums. *)
Fixpoint class_loop (c : confusion) (classes : list label) (avg : Q * Q * Q)
    : Q * Q * Q :=
  match classes with
  | [] => avg
  | cls :: rest =>
      let '(avgPrecision, avgRecall, avgF1) := avg in
      class_loop c rest
        (avgPrecision + precision c cls, avgRecall + recall c cls, avgF1 + f1 c cls)%Q
  end.

(** [computeClassificationMetrics(groundTruth, predictions)]. *)
Definition computeClassificationMetrics (groundTruth predictions : list label)
    : classification :=
  let c := createConfusionMatrix groundTruth predictions in
  let classes := distinct (groundTruth ++ predictions) in
  let '(avgPrecision, avgRecall, avgF1) := class_loop c classes (0, 0, 0)%Q in
  let n := inject_Z (Z.of_nat (length classes)) in
  {| accuracy := ratio (inject_Z (correct c)) (inject_Z (total c));
     macro_precision := ratio avgPrecision n;
     macro_recall := ratio avgRecall n;
     macro_f1 := ratio avgF1 n |}.

End ModelEvaluator.

(** ** Majority vote and prediction by id *)

Module Predictor.
Import JS Data.

(** *** The [counts] object of [majorityVote]

    [counts] is a plain object.  Its own properties are kept in insertion
    order; [Object.keys] lists the array-index keys first, in ascending
    numeric order, and then the other keys in insertion order.  A read of a
    key that is not an own property falls through to [Object.prototype]. *)

(** The value of an own property of [counts]: a number, or the string that
    [(counts[it] || 0) + 1] builds from an inherited function. *)
Inductive cell : Type :=
| Count (n : Z)
| Text.

Definition object : Type := list (string * cell).

(** The function-valued properties of [Object.prototype]. *)
Definition prototype_functions : list string :=
  ["constructor"; "hasOwnProperty"; "isPrototypeOf"; "propertyIsEnumerable";
   "toLocaleString"; "toString"; "valueOf"; "__defineGetter__";
   "__defineSetter__"; "__lookupGetter__"; "__lookupSetter__"].

Fixpoint own (o : object) (key : string) : option cell :=
  match o with
  | [] => None
  | (k0, v) :: rest => if String.eqb k0 key then Some v else own rest key
  end.

Fixpoint put (o : object) (key : string) (v : cell) : object :=
  match o with
  | [] => [(key, v)]
  | (k0, v0) :: rest =>
      if String.eqb k0 key then (k0, v) :: rest else (k0, v0) :: put rest key v
  end.

(** [counts[it] = (counts[it] || 0) + 1].  An inherited function is truthy
    and [+ 1] turns it into a string; the accessor [__proto__] ignores the
    string assigned to it. *)
Definition tally (counts : object) (it : string) : object :=
  if String.eqb it "__proto__" then counts
  else
    match own counts it with
    | Some (Count n) => put counts it (Count (n + 1))
    | Some Text => counts
    | None =>
        if decide (it ∈ prototype_functions) then put counts it Text
        else put counts it (Count 1)
    end.

(** Decimal value of a string of digits. *)
Definition digit (c : Ascii.ascii) : option Z :=
  let n := Z.of_N (Ascii.N_of_ascii c) in
  if (48 <=? n) && (n <=? 57) then Some (n - 48) else None.

Fixpoint digits_value (s : string) (acc : Z) : option Z :=
  match s with
  | EmptyString => Some acc
  | String c rest =>
      match digit c with
      | Some d => digits_value rest (10 * acc + d)
      | None => None
      end
  end.

(** An array index is the canonical decimal string of an integer below
    2^32 - 1. *)
Definition array_index (key : string) : option Z :=
  match key with
  | EmptyString => None
  | String c rest =>
      if Ascii.eqb c (Ascii.ascii_of_nat 48) && negb (String.eqb rest "") then None
      else match digits_value key 0 with
           | Some n => if n <? 2 ^ 32 - 1 then Some n else None
           | None => None
           end
  end.

Fixpoint insert_index (x : Z * string) (l : list (Z * string)) : list (Z * string) :=
  match l with
  | [] => [x]
  | y :: rest => if fst x <? fst y then x :: y :: rest else y :: insert_index x rest
  end.

Definition sort_indices (l : list (Z * string)) : list (Z * string) :=
  foldr insert_index [] l.

(** [Object.keys(counts)]. *)
Definition keys (o : object) : list string :=
  let names := fst <$> o in
  (snd <$> sort_indices (omap (fun key => (fun n => (n, key)) <$> array_index key) names))
  ++ filter (fun key => array_index key = None) names.

Record vote : Type := {
  label : option string;       (* [None] is [null] *)
  count : option Z;            (* [None]: the result has no [count] *)
  counts : option object       (* [None]: the result has no [counts] *)
}.

(** The loop [for (const k of Object.keys(counts))]; a string never
    compares greater than a number. *)
Fixpoint scan (counts : object) (ks : list string) (maxK : option string) (maxV : Z)
    : option string * Z :=
  match ks with
  | [] => (maxK, maxV)
  | key :: rest =>
      match own counts key with
      | Some (Count n) =>
          if maxV <? n then scan counts rest (Some key) n
          else scan counts rest maxK maxV
      | _ => scan counts rest maxK maxV
      end
  end.

(** [majorityVote(items)]. *)
Definition majorityVote (items : list string) : vote :=
  let counts := fold_left tally items [] in
  let (maxK, maxV) := scan counts (keys counts) None (-1) in
  {| label := maxK; count := Some maxV; counts := Some counts |}.

(** *** [predictFromId] *)

Record neighbor : Type := {
  n_id : string;
  n_metadata : gmap string string;
  score : Q
}.









End Predictor.

(** ** Configuration validation *)

Module ConfigurationManager.
Import JS.






End ConfigurationManager.

(** ** Call sequences on a splitter *)

Module Session.
Import JS Data.

(** The arrays of the caller, by reference.  The split and sample methods
    copy the array they are given; [shuffleArray] works in place, so a later
    call on the same reference sees the shuffled array. *)
Definition heap : Type := list (list record).

Definition array_at (h : heap) (ref : nat) : list record := default [] (h !! ref).

(** One method call on a [DataSplitter], with its arguments; arrays are
    given by reference.  ([timeSplit] neither reads nor advances the
    generator and is left out.) *)
Inductive call : Type :=
| CallTrainTest (data : nat) (testSize : Q) (shuffle : bool)
| CallStratified (data : nat) (testSize : Q) (field : string) (minSamples : Z)
| CallKFold (data : nat) (k : Z) (shuffle : bool) (stratify : option string)
| CallBootstrap (data : nat) (numSamples : nat) (sampleSize : option nat)
| CallLeaveOneOut (data : nat)
| CallShuffle (array : nat).

(** What a call hands back. *)
Inductive answer : Type :=
| ASplit (r : outcome DataSplitter.split)
| AStratified (r : outcome DataSplitter.stratified)
| AKFold (r : outcome DataSplitter.kfold)
| ASamples (r : outcome (list (list (option record))))
| ALeaveOneOut (r : outcome (list DataSplitter.fold))
| AShuffled (r : list record).

(** A splitter object: the seed it was built with and the state captured
    by its [rng] closure. *)
Record splitter : Type := {
  randomSeed : Z;
  state : Z
}.


Definition with_state (sp : splitter) (st : Z) : splitter :=
  {| randomSeed := randomSeed sp; state := st |}.

(** A splitter together with the arrays it is used on. *)
Definition world : Type := splitter * heap.

Definition perform (w : world) (c : call) : answer * world :=
  let (sp, h) := w in
  match c with
  | CallTrainTest data testSize shuffle =>
      let (r, st) :=
        DataSplitter.trainTestSplit (array_at h data) testSize shuffle (state sp) in
      (ASplit r, (with_state sp st, h))
  | CallStratified data testSize field minSamples =>
      let (r, st) :=
        DataSplitter.stratifiedSplit (array_at h data) testSize field minSamples (state sp) in
      (AStratified r, (with_state sp st, h))
  | CallKFold data k shuffle stratify =>
      let (r, st) :=
        DataSplitter.kFoldSplit (array_at h data) k shuffle stratify (state sp) in
      (AKFold r, (with_state sp st, h))
  | CallBootstrap data numSamples sampleSize =>
      let (r, st) :=
        DataSplitter.bootstrapSample (array_at h data) numSamples sampleSize (state sp) in
      (ASamples r, (with_state sp st, h))
  | CallLeaveOneOut data =>
      let (r, st) := DataSplitter.leaveOneOutSplit (array_at h data) (state sp) in
      (ALeaveOneOut r, (with_state sp st, h))
  | CallShuffle array =>
      let (r, st) := DataSplitter.shuffleArray (array_at h array) (state sp) in
      (AShuffled r, (with_state sp st, <[array := r]> h))
  end.

(** A run over a call sequence, as a relation between the world before,
    the calls, the answers, and the world after. *)
Inductive runs : world -> list call -> list answer -> world -> Prop :=
| runs_nil w : runs w [] [] w
| runs_cons w c cs a w' answers w'' :
    perform w c = (a, w') ->
    runs w' cs answers w'' ->
    runs w (c :: cs) (a :: answers) w''.

(** The same run as a function. *)
Fixpoint run (w : world) (cs : list call) : list answer * world :=
  match cs with
  | [] => ([], w)
  | c :: rest =>
      let (a, w') := perform w c in
      let (answers, w'') := run w' rest in
      (a :: answers, w'')
  end.

End Session.
(** ** Notions used to state the properties *)

Module FoldSpec.
Import JS Rng Data DataSplitter.

Section Parts.
Context {A : Type}.
Implicit Types (l : list A).

(** Size of the test part of fold [i] out of [k] for [n] items. *)
Definition part_size (n k i : nat) : nat :=
  if decide (i = k - 1)%nat then (n - (k - 1) * (n / k))%nat else (n / k)%nat.

(** The test part of fold [i], on naturals. *)
Definition test_part l (k i : nat) : list A :=
  if decide (i = k - 1)%nat then drop ((k - 1) * (length l / k)) l
  else take (length l / k) (drop (i * (length l / k)) l).

Definition train_part l (k i : nat) : list A :=
  if decide (i = k - 1)%nat then take ((k - 1) * (length l / k)) l
  else take (i * (length l / k)) l ++ drop (S i * (length l / k)) l.

End Parts.

(** The size of a test part, in the integers of the source. *)
Definition fold_test_size (n k : Z) (i : nat) : Z :=
  if decide (Z.of_nat i = k - 1) then n - (k - 1) * (n / k) else n / k.

Definition nat_fold (l : list record) (k i : nat) : fold :=
  make_fold (Z.of_nat i) (train_part l k i, test_part l k i).

(** The copy [kFoldSplit] works on. *)
Definition data_copy (data : list record) (shuffle : bool) (st : Z) : list record * Z :=
  if shuffle then shuffleArray data st else (data, st).

End FoldSpec.

Module GroupSpec.
Import Data DataSplitter FoldSpec.

(** The records of a list whose field value is [c]. *)
Definition in_cat (field : string) (c : option string) (l : list record)
    : list record :=
  filter (fun r => extractFieldValue r field = c) l.

(** The items stored under key [c] (none when the key is absent). *)
Fixpoint group_items (groups : groups_t) (c : option string) : list record :=
  match groups with
  | [] => []
  | (c0, items) :: rest => if decide (c0 = c) then items else group_items rest c
  end.

(** Every item sits under its own category. *)
Definition well_keyed (field : string) (groups : groups_t) : Prop :=
  Forall (fun g => Forall (fun r => extractFieldValue r field = fst g) (snd g)) groups.

(** How many records of category [c] the groups send to the test set of
    fold [i]. *)
Fixpoint share (kn : nat) (groups : groups_t) (c : option string) (i : nat) : nat :=
  match groups with
  | [] => 0
  | (c0, items) :: rest =>
      (if decide (c0 = c) then part_size (length items) kn i else 0) + share kn rest c i
  end.

(** One turn of the loop of [distribute] for a shuffled group. *)
Definition push_group (kn : nat) (shuffled : list record) (n : Z)
    (acc : list (list record * list record)) : list (list record * list record) :=
  zip_with (fun f i => let s := fold_slices shuffled n (Z.of_nat kn) i in
                       (fst f ++ fst s, snd f ++ snd s))
           acc (seqZ 0 (Z.of_nat kn)).

End GroupSpec.

Module VoteSpec.
Import Predictor.

(** Number of occurrences of a label among the items. *)
Definition occurrences (x : string) (items : list string) : Z :=
  Z.of_nat (length (filter (fun y => y = x) items)).


(** A label that [counts] treats as a plain data key. *)
Definition ordinary (x : string) : Prop :=
  x ≠ "__proto__" /\ x ∉ prototype_functions.

End VoteSpec.

Module MetricsSpec.
Import ModelEvaluator.

(** Sum over all entries of the matrix. *)
Fixpoint sum_entries (m : smap) : Z :=
  match m with
  | [] => 0
  | (_, v) :: rest => v + sum_entries rest
  end.

(** Sum of the diagonal entries, read the way [computeClassificationMetrics]
    reads them: entry [`${cls}_${cls}`] for every class. *)
Definition diagonal_sum (c : confusion) (classes : list label) : Z :=
  fold_right (fun cls sum => true_positives c cls + sum) 0 classes.

(** Sum of a list of rationals. *)
Fixpoint Qtotal (l : list Q) : Q :=
  match l with
  | [] => 0%Q
  | x :: rest => (x + Qtotal rest)%Q
  end.



Fixpoint underscore_free (s : string) : bool :=
  match s with
  | EmptyString => true
  | String ch rest => negb (Ascii.eqb ch (Ascii.ascii_of_nat 95)) && underscore_free rest
  end.

(** A label without underscore that is not the text of [null] or
    [undefined]. *)
Definition plain (l : label) : Prop :=
  match l with
  | LStr s => underscore_free s = true /\ s ≠ "null" /\ s ≠ "undefined"
  | LNull | LUndef => True
  end.

(** Number of pairs equal to (cls, cls). *)
Definition pairs_on_diagonal (cls : label) (pairs : list (label * label)) : Z :=
  Z.of_nat (length (filter (fun p => p = (cls, cls)) pairs)).

End MetricsSpec.

Module FoldOutcomes.
Import JS Data CrossValidator.

(** The outcomes of the callback, fold by fold. *)
Fixpoint outcomes (evaluationFunction : callback) (fs : list DataSplitter.fold) (i : Z)
    : list (outcome (gmap string number)) :=
  match fs with
  | [] => []
  | f :: rest =>
      evaluationFunction (DataSplitter.f_train f) (DataSplitter.f_test f) i
        :: outcomes evaluationFunction rest (i + 1)
  end.

(** An outcome that the test [!r.error] reads correctly: a thrown error
    carries a message, a returned object has no truthy [error]. *)
Definition recognised (o : outcome (gmap string number)) : Prop :=
  match o with
  | Throw message => message ≠ ""
  | Return foldResult => falsy (to_value <$> (foldResult !! "error")) = true
  end.

Definition returned {A} (o : outcome A) : bool := negb (is_throw o).

(** The entries of the folds whose callback returned. *)
Fixpoint returned_entries (fs : list DataSplitter.fold)
    (os : list (outcome (gmap string number))) : list (gmap string value) :=
  match fs, os with
  | f :: fs', o :: os' =>
      if returned o then fold_entry f o :: returned_entries fs' os'
      else returned_entries fs' os'
  | _, _ => []
  end.

End FoldOutcomes.

(** ** Sample inputs *)

Module Samples.
Import JS Data Session Predictor ModelEvaluator CrossValidator.

Definition row (i category : string) : record :=
  mkRecord i [] {["articletype" := category]}.

Definition five : list record :=
  [row "1" "Shirts"; row "2" "Shirts"; row "3" "Shirts"; row "4" "Shirts";
   row "5" "Shirts"].






Definition collide_truth : list label := [LStr "a"; LStr "a_a"].
Definition collide_predicted : list label := [LStr "a_a_a"; LStr "b"].

Definition sample_pairs : list (label * label) :=
  [(LStr "Shirts", LStr "Shirts"); (LStr "Jeans", LStr "Shirts");
   (LStr "Shirts", LNull)].

Definition two_rows : list record :=
  [mkRecord "1" [] {["articletype" := "Shirts"]};
   mkRecord "2" [] {["articletype" := "Jeans"]}].

Definition two_folds : config := {| k := 2; stratify := false; random_seed := 42 |}.

(** A callback that throws [new Error("")] on the first fold only. *)
Definition throws_empty_message : callback :=
  fun _ _ i => if i =? 0 then Throw "" else Return {["accuracy" := Fin 1]}.

(** A callback that never throws and reports an error rate under the key
    [error]. *)
Definition reports_error_rate : callback :=
  fun _ _ _ => Return (<["error" := Fin (1 # 4)]> {["accuracy" := Fin (3 # 4)]}).

End Samples.

(** ** Notions used to state further properties of the splitter *)

Module SplitSpec.
Import JS Rng Data DataSplitter FoldSpec GroupSpec.



(** The sample size [bootstrapSample] uses: [sampleSize || data.length]. *)
Definition sample_size (data : list record) (sampleSize : option nat) : nat :=
  match sampleSize with
  | Some (S n) => S n
  | _ => length data
  end.

(** A fold as [make_fold] builds it from a split of the data: numbered
    from 1, with the sizes of its two lists, which together are the data. *)
Definition well_formed_fold (data : list record) (i : nat) (f : fold) : Prop :=
  fold_no f = Z.of_nat i + 1 /\
  train_size f = Z.of_nat (length (f_train f)) /\
  test_size f = Z.of_nat (length (f_test f)) /\
  f_train f ++ f_test f ≡ₚ data.

(** What a drawn entry can be: a record of the data, or [undefined] when
    there is no data to draw from. *)
Definition drawn_from (data : list record) (o : option record) : Prop :=
  match data with
  | [] => o = None
  | _ => exists x, o = Some x /\ x ∈ data
  end.

End SplitSpec.

Module ValidationSpec.
Import JS Data CrossValidator.

(** The field that [performCrossValidation] hands to the splitter. *)
Definition stratify_by (cfg : config) (stratifyField : option string) : option string :=
  if stratify cfg
  then Some (if truthy stratifyField then default "" stratifyField else "articletype")
  else None.

(** A callback that throws [new Error("boom")] on the first fold only. *)
Definition throws_on_first : callback :=
  fun _ _ i => if i =? 0 then Throw "boom" else Return {["accuracy" := Fin 1]}.

End ValidationSpec.

(** ** Notions used to state further properties of the metrics *)

Module ConfusionSpec.
Import ModelEvaluator.

(** The pairs that the loop of [createConfusionMatrix] visits: one per
    ground-truth label, with [undefined] where the predictions have run out;
    predictions beyond the ground truth are not visited. *)
Fixpoint pair_up (groundTruth predictions : list label) : list (label * label) :=
  match groundTruth with
  | [] => []
  | actual :: gt' =>
      (actual, default LUndef (head predictions)) :: pair_up gt' (tail predictions)
  end.

(** A matrix as [matrix.set(key, (matrix.get(key) || 0) + 1)] keeps it:
    distinct keys, positive entries. *)
Definition tidy (m : smap) : Prop := NoDup (keys m) /\ Forall (fun kv => 1 <= snd kv) m.

(** A metric that is a number lies between 0 and 1. *)
Definition in_unit (o : option Q) : Prop :=
  match o with
  | None => True
  | Some q => (0 <= q /\ q <= 1)%Q
  end.

End ConfusionSpec.

(** ** Notions used to state further properties of the predictor *)

Module PredictorSpec.
Import JS Data Predictor.



(** The own property that [counts] holds under a key after the tally of
    [items]: none under [__proto__] (an accessor), a string under the name of
    an inherited function that occurs, the number of occurrences under any
    other label that occurs. *)
Definition expected_cell (items : list string) (x : string) : option cell :=
  if decide (x = "__proto__") then None
  else if decide (x ∈ prototype_functions)
       then (if decide (x ∈ items) then Some Text else None)
       else (if decide (x ∈ items) then Some (Count (VoteSpec.occurrences x items))
             else None).

(** A key of [counts] that holds a number. *)
Definition counted (counts : object) (key : string) : bool :=
  match own counts key with
  | Some (Count _) => true
  | _ => false
  end.

End PredictorSpec.

(** ** Notions used to state further properties of the configuration *)

Module ConfigSpec.
Import ConfigurationManager.


End ConfigSpec.

(** ** Ranking, diversity, error and histogram helpers of the evaluator *)

Module EvaluatorHelpers.
Import JS Data Predictor ModelEvaluator.

(** [computeMRR(relevanceScores)]: [findIndex] gives the first index with a
    positive score, or -1.  The scores are the integers 0 and 1 that
    [evaluateRanking] passes. *)
Definition computeMRR (relevanceScores : list Z) : Q :=
  match list_find (fun score => 0 < score) relevanceScores with
  | Some (firstRelevantIdx, _) => 1 / inject_Z (Z.of_nat firstRelevantIdx + 1)
  | None => 0
  end.

(** The loop of [computeMAP] from index [i] on. *)
Fixpoint map_loop (relevanceScores : list Z) (i numRelevant : Z) (sumPrecision : Q)
    : Z * Q :=
  match relevanceScores with
  | [] => (numRelevant, sumPrecision)
  | score :: rest =>
      if 0 <? score
      then map_loop rest (i + 1) (numRelevant + 1)
             (sumPrecision + inject_Z (numRelevant + 1) / inject_Z (i + 1))
      else map_loop rest (i + 1) numRelevant sumPrecision
  end.

(** [computeMAP(relevanceScores)]. *)
Definition computeMAP (relevanceScores : list Z) : Q :=
  let (numRelevant, sumPrecision) := map_loop relevanceScores 0 0 0 in
  if 0 <? numRelevant then sumPrecision / inject_Z numRelevant else 0.

(** [computeIntraListDiversity(items, field)]: the size of the [Set] of the
    categories over their number; [None] is NaN (0 / 0). *)
Definition computeIntraListDiversity (items : list neighbor) (field : string) : option Q :=
  let categories := (fun item => n_metadata item !! field) <$> items in
  let uniqueCategories := remove_dups categories in
  ratio (inject_Z (Z.of_nat (length uniqueCategories)))
        (inject_Z (Z.of_nat (length categories))).

(** An error case, as far as [analyzeCommonErrors] reads it. *)
Record error_case : Type := {
  actual : label;
  predicted : label
}.

(** [`${error.actual} -> ${error.predicted}`]. *)
Definition error_key (error : error_case) : string :=
  show (actual error) +:+ " -> " +:+ show (predicted error).

(** The loop filling [errorPairs]. *)
Definition count_errors (errorCases : list error_case) : smap :=
  fold_left (fun errorPairs error =>
               set errorPairs (error_key error)
                   (default 0 (get errorPairs (error_key error)) + 1))
            errorCases [].

(** [sort((a, b) => b[1] - a[1])]: stable, descending by count. *)
Fixpoint insert_by_count (x : string * Z) (l : list (string * Z)) : list (string * Z) :=
  match l with
  | [] => [x]
  | y :: rest =>
      if snd x <? snd y then y :: insert_by_count x rest else x :: y :: rest
  end.

Definition sort_by_count (l : list (string * Z)) : list (string * Z) :=
  foldr insert_by_count [] l.

(** [analyzeCommonErrors(errorCases)]: the pairs [(error, count)]. *)
Definition analyzeCommonErrors (errorCases : list error_case) : list (string * Z) :=
  slice (sort_by_count (count_errors errorCases)) 0 (Some 10).

(** One bin of a histogram. *)
Record bin : Type := {
  range_from : Q;
  range_to : Q;
  bin_count : Z
}.

(** [Math.min(Math.floor((value - min) / binWidth), bins - 1)]; with a bin
    width of 0 the quotient is 0 / 0 and the index is NaN ([None]). *)
Definition binIndex (value min binWidth : Q) (bins : Z) : option Z :=
  if Qeq_bool binWidth 0 then None
  else Some (Z.min (Qfloor ((value - min) / binWidth)) (bins - 1)).

(** [histogram[binIndex]++]: an index that is NaN or negative names a
    property that is no element of the array. *)
Definition increment (histogram : list Z) (index : option Z) : list Z :=
  match index with
  | Some i => if 0 <=? i then alter (fun count => count + 1) (Z.to_nat i) histogram
              else histogram
  | None => histogram
  end.

(** [histogram(arr, bins)] for a number of bins that [new Array(bins)]
    accepts. *)
Definition histogram (arr : list Q) (bins : nat) : list bin :=
  match arr with
  | [] => []
  | v :: vs =>
      let min := CrossValidator.Qmin_list v vs in
      let max := CrossValidator.Qmax_list v vs in
      let binWidth := ((max - min) / inject_Z (Z.of_nat bins))%Q in
      let counts :=
        fold_left (fun h value => increment h (binIndex value min binWidth (Z.of_nat bins)))
                  arr (replicate bins 0) in
      imap (fun i count =>
              {| range_from := min + inject_Z (Z.of_nat i) * binWidth;
                 range_to := min + (inject_Z (Z.of_nat i) + 1) * binWidth;
                 bin_count := count |}) counts
  end.

End EvaluatorHelpers.

(** ** GroundTruthManager *)

Module GroundTruthManager.
Import JS Data.

(** [setGroundTruth(data)] for an array: the map [this.groundTruthData] is
    cleared, then every item with a truthy id is set under its id. *)
Definition setGroundTruth (data : list record) (groundTruthData : gmap string record)
    : gmap string record :=
  fold_left (fun m item => if truthy (Some (rec_id item)) then <[rec_id item := item]> m
                           else m)
            data ∅.

(** [getGroundTruth(itemId)]. *)
Definition getGroundTruth (groundTruthData : gmap string record) (itemId : string)
    : option record :=
  groundTruthData !! itemId.

(** The size [loadGroundTruth] returns after [setGroundTruth]. *)
Definition loaded (groundTruthData : gmap string record) : nat := size groundTruthData.

End GroundTruthManager.

(** ** Notions used to state further properties of the evaluator's helpers *)

Module HelperSpec.
Import JS ModelEvaluator EvaluatorHelpers.

(** No pair is followed by one with a higher count. *)
Fixpoint by_count (l : list (string * Z)) : Prop :=
  match l with
  | [] => True
  | x :: rest => Forall (fun y => snd y <= snd x) rest /\ by_count rest
  end.

(** Number of error cases with a given key. *)
Definition cases_with (key : string) (errorCases : list error_case) : Z :=
  Z.of_nat (length (filter (fun error => error_key error = key) errorCases)).

(** Sum of the elements of the array of counts. *)
Fixpoint sum_counts (counts : list Z) : Z :=
  match counts with
  | [] => 0
  | c :: rest => c + sum_counts rest
  end.

(** Sum of the counts of a histogram. *)
Fixpoint total_count (bins : list bin) : Z :=
  match bins with
  | [] => 0
  | b :: rest => bin_count b + total_count rest
  end.

End HelperSpec.

(** ** The definitions at work *)

Module Examples.
Import JS Rng Data DataSplitter Predictor ModelEvaluator Samples.

(** The first states of the generator seeded with 42; from the second step
    on the exact product exceeds 2^53 and is rounded. *)
Example states_of_42 :
  state_after 42 1 = 1250496027 /\ state_after 42 2 = 1116302080 /\
  state_after 42 3 = 1964818176.
Proof. repeat split; vm_compute; reflexivity. Qed.

Example fl_rounds_to_even :
  fl (2 ^ 53 + 1) = Some (2 ^ 53) /\ fl (2 ^ 53 + 3) = Some (2 ^ 53 + 4).
Proof. split; vm_compute; reflexivity. Qed.

Example shuffle_of_five :
  rec_id <$> fst (shuffleArray five 42) = ["1"; "2"; "4"; "5"; "3"].
Proof. vm_compute. reflexivity. Qed.

Example slice_negative : slice [1; 2; 3; 4; 5] (-3) None = [3; 4; 5].
Proof. reflexivity. Qed.

Example vote_A_A_B :
  Predictor.label (majorityVote ["A"; "A"; "B"]) = Some "A" /\
  count (majorityVote ["A"; "A"; "B"]) = Some 2.
Proof. split; vm_compute; reflexivity. Qed.

(** An empty list of items, which [predictFromId] never passes on. *)
Example vote_of_nothing :
  majorityVote [] = {| Predictor.label := None; count := Some (-1); counts := Some [] |}.
Proof. reflexivity. Qed.

Example metrics_of_sample_pairs :
  macro_precision (computeClassificationMetrics (fst <$> sample_pairs) (snd <$> sample_pairs))
  = Some (1 # 6)%Q.
Proof. vm_compute. reflexivity. Qed.

End Examples.

(** ** Properties of the generator *)

Module RngFacts.
Import JS Rng.

Lemma pow2_split (e : Z) : 1 <= e -> 2 ^ e = 2 * 2 ^ (e - 1).
Proof.
  intros He. replace e with (1 + (e - 1)) at 1 by lia.
  rewrite Z.pow_add_r by lia. reflexivity.
Qed.

Lemma log2_big (m : Z) : 2 ^ 53 <= m -> 53 <= Z.log2 m.
Proof.
  intros H. change 53 with (Z.log2 (2 ^ 53)) at 1. now apply Z.log2_le_mono.
Qed.

(** Below 2^53 every integer is a double. *)
Lemma fl_exact (x : Z) : Z.abs x < 2 ^ 53 -> fl x = Some x.
Proof.
  intros H. unfold fl. destruct (Z.ltb_spec (Z.abs x) (2 ^ 53)); [reflexivity | lia].
Qed.

(** From 2^53 on every double is an even integer. *)
Lemma fl_even (x y : Z) : 2 ^ 53 <= Z.abs x -> fl x = Some y -> Z.even y = true.
Proof.
  intros Hx. unfold fl.
  destruct (Z.ltb_spec (Z.abs x) (2 ^ 53)) as [Hlt | _]; [lia |].
  pose proof (log2_big _ Hx) as Hl.
  set (e := Z.log2 (Z.abs x) - 52).
  set (q' := if _ <? _ then _ else _).
  destruct (2 ^ 1024 <=? q' * 2 ^ e); [discriminate |].
  intros [= <-]. rewrite (pow2_split e) by (unfold e; lia).
  replace (Z.sgn x * (q' * (2 * 2 ^ (e - 1)))) with (2 * (Z.sgn x * q' * 2 ^ (e - 1))) by ring.
  apply Z.even_mul; reflexivity || (left; reflexivity).
Qed.

(** The rounded magnitude is at least the magnitude rounded down. *)
Lemma fl_lower (x y : Z) :
  2 ^ 53 <= Z.abs x -> fl x = Some y ->
  let e := Z.log2 (Z.abs x) - 52 in
  Z.abs x - Z.abs x mod 2 ^ e <= Z.abs y.
Proof.
  intros Hx. unfold fl.
  destruct (Z.ltb_spec (Z.abs x) (2 ^ 53)) as [Hlt | _]; [lia |].
  pose proof (log2_big _ Hx) as Hl.
  set (e := Z.log2 (Z.abs x) - 52). cbv zeta.
  set (m := Z.abs x) in *.
  set (q' := if _ <? _ then _ else _).
  destruct (2 ^ 1024 <=? q' * 2 ^ e); [discriminate |].
  intros [= <-].
  assert (He : 0 < 2 ^ e) by (apply Z.pow_pos_nonneg; unfold e; lia).
  assert (Hq : m / 2 ^ e <= q').
  { unfold q'. repeat match goal with |- context [if ?b then _ else _] => destruct b end; lia. }
  assert (Hq0 : 0 <= m / 2 ^ e) by (apply Z.div_pos; lia).
  pose proof (Z.div_mod m (2 ^ e) ltac:(lia)) as Hdm.
  rewrite Z.abs_mul, (Z.abs_mul q'), (Z.abs_eq (2 ^ e)), (Z.abs_eq q') by lia.
  assert (Hs : Z.abs (Z.sgn x) = 1) by (unfold m in Hx; lia).
  rewrite Hs. nia.
Qed.

Lemma fl_lower_near (x y : Z) :
  2 ^ 53 <= Z.abs x < 2 ^ 54 -> fl x = Some y -> Z.abs x - 1 <= Z.abs y.
Proof.
  intros [Hlo Hhi] Hfl. pose proof (fl_lower x y Hlo Hfl) as H. cbv zeta in H.
  assert (Hl : Z.log2 (Z.abs x) = 53).
  { apply Z.log2_unique; [lia |]. split; [exact Hlo | exact Hhi]. }
  rewrite Hl in H. change (2 ^ (53 - 52)) with 2 in H.
  pose proof (Z.mod_pos_bound (Z.abs x) 2 ltac:(lia)). lia.
Qed.

Lemma fl_lower_far (x y : Z) :
  2 ^ 54 <= Z.abs x -> fl x = Some y -> 2 ^ 54 <= Z.abs y.
Proof.
  intros Hlo Hfl.
  assert (H53 : 2 ^ 53 <= Z.abs x) by (change (2 ^ 53) with 9007199254740992; change (2 ^ 54) with 18014398509481984 in Hlo; lia).
  pose proof (fl_lower x y H53 Hfl) as H. cbv zeta in H.
  set (m := Z.abs x) in *.
  assert (Hl : 54 <= Z.log2 m).
  { change 54 with (Z.log2 (2 ^ 54)) at 1. now apply Z.log2_le_mono. }
  set (e := Z.log2 m - 52) in *.
  assert (He : 0 < 2 ^ e) by (apply Z.pow_pos_nonneg; unfold e; lia).
  assert (Hm : 2 ^ Z.log2 m <= m) by (apply Z.log2_spec; lia).
  assert (Hsplit : 2 ^ Z.log2 m = 2 ^ 52 * 2 ^ e).
  { rewrite <- Z.pow_add_r by (unfold e; lia). f_equal. unfold e. lia. }
  assert (Hq : 2 ^ 52 <= m / 2 ^ e).
  { apply Z.div_le_lower_bound; [lia |]. rewrite Z.mul_comm. lia. }
  pose proof (Z.div_mod m (2 ^ e) ltac:(lia)) as Hdm.
  assert (Hmono : 2 ^ 54 <= 2 ^ Z.log2 m) by (apply Z.pow_le_mono_r; lia).
  nia.
Qed.

Lemma land_ToInt32 (q : Z) : Z.land (ToInt32 q) 0x7fffffff = q mod 2 ^ 31.
Proof.
  change 0x7fffffff with (Z.ones 31). rewrite Z.land_ones by lia.
  unfold ToInt32.
  pose proof (Z.div_mod (q + 2 ^ 31) (2 ^ 32) ltac:(lia)) as H1.
  set (t := (q + 2 ^ 31) / 2 ^ 32) in *.
  replace ((q + 2 ^ 31) mod 2 ^ 32 - 2 ^ 31) with (q + (- 2 * t) * 2 ^ 31).
  - apply Z.mod_add. lia.
  - change (2 ^ 32) with 4294967296 in *. change (2 ^ 31) with 2147483648 in *. lia.
Qed.

Lemma next_state_bounds (s : Z) : 0 <= next_state s <= 0x7fffffff.
Proof.
  unfold next_state.
  destruct (fl (s * 1103515245)) as [p |]; [| lia].
  destruct (fl (p + 12345)) as [q |]; [| lia].
  rewrite land_ToInt32. pose proof (Z.mod_pos_bound q (2 ^ 31) ltac:(lia)). lia.
Qed.

(** An odd residue modulo 2^31 comes from an odd integer. *)
Lemma odd_of_mod (q : Z) : q mod 2 ^ 31 = 0x7fffffff -> Z.even q = false.
Proof.
  intros H. pose proof (Z.div_mod q (2 ^ 31) ltac:(lia)) as Hdm. rewrite H in Hdm.
  rewrite Hdm. change (2 ^ 31) with (2 * 1073741824). change 0x7fffffff with (1 + 2 * 1073741823).
  replace (2 * 1073741824 * (q / (2 * 1073741824)) + (1 + 2 * 1073741823))
    with (1 + 2 * (1073741824 * (q / (2 * 1073741824)) + 1073741823)) by ring.
  rewrite Z.even_add_mul_2. reflexivity.
Qed.

(** The only residue that steps to 0x7fffffff is 230538014, and a state in
    that class is too large for its product to be exact. *)
Lemma exact_step_miss (s : Z) :
  Z.abs (s * 1103515245) < 2 ^ 53 -> (s * 1103515245 + 12345) mod 2 ^ 31 <> 0x7fffffff.
Proof.
  intros Hs H.
  pose proof (Z.div_mod (s * 1103515245 + 12345) (2 ^ 31) ltac:(lia)) as Hdm.
  rewrite H in Hdm. set (t := (s * 1103515245 + 12345) / 2 ^ 31) in *.
  change (2 ^ 31) with 2147483648 in Hdm. change (2 ^ 53) with 9007199254740992 in Hs.
  change 0x7fffffff with 2147483647 in Hdm.
  assert (Hres : exists w, s = 2147483648 * w + 230538014).
  { exists (1857678181 * t - 954594553 * s + 1857667501).
    lia. }
  destruct Hres as [w Hw]. lia.
Qed.

(** The state never reaches 0x7fffffff, whatever integer it starts from. *)
Lemma next_state_lt (s : Z) : 0 <= next_state s < 0x7fffffff.
Proof.
  pose proof (next_state_bounds s) as Hb.
  enough (next_state s <> 0x7fffffff) by lia.
  unfold next_state in *.
  destruct (fl (s * 1103515245)) as [p |] eqn:Hp; [| discriminate].
  destruct (fl (p + 12345)) as [q |] eqn:Hq; [| discriminate].
  rewrite land_ToInt32. intros Hm.
  pose proof (odd_of_mod _ Hm) as Hodd.
  destruct (Z_lt_le_dec (Z.abs (p + 12345)) (2 ^ 53)) as [Hsmall | Hbig].
  2:{ rewrite (fl_even _ _ Hbig Hq) in Hodd. discriminate. }
  rewrite (fl_exact _ Hsmall) in Hq. injection Hq as <-.
  destruct (Z_lt_le_dec (Z.abs (s * 1103515245)) (2 ^ 53)) as [Hex | Hin].
  - rewrite (fl_exact _ Hex) in Hp. injection Hp as <-.
    exact (exact_step_miss s Hex Hm).
  - change (2 ^ 53) with 9007199254740992 in *.
    assert (Hs : s <= -8162279 \/ 8162279 <= s) by lia.
    assert (Hmag : 9007199310443355 <= Z.abs (s * 1103515245)) by lia.
    destruct (Z_lt_le_dec (Z.abs (s * 1103515245)) (2 ^ 54)) as [Hnear | Hfar].
    + pose proof (fl_lower_near _ _ (conj Hin Hnear) Hp). lia.
    + pose proof (fl_lower_far _ _ Hfar Hp) as Hf.
      change (2 ^ 54) with 18014398509481984 in Hf. lia.
Qed.

End RngFacts.

Module RngRange.
Import JS Rng RngFacts.

Lemma rng_state (s : Z) : snd (rng s) = next_state s.
Proof. reflexivity. Qed.

Lemma rng_range (s : Z) : (0 <= fst (rng s))%Q /\ (fst (rng s) < 1)%Q.
Proof.
  pose proof (next_state_lt s) as [Hlo Hhi]. unfold rng, modulus. cbn [fst].
  assert (Hm : (0 < inject_Z 0x7fffffff)%Q) by reflexivity.
  split.
  - apply Qle_shift_div_l; [exact Hm |]. rewrite Qmult_0_l.
    rewrite <- (Zle_Qle 0). exact Hlo.
  - apply Qlt_shift_div_r; [exact Hm |]. rewrite Qmult_1_l.
    rewrite <- Zlt_Qlt. exact Hhi.
Qed.

(** The largest quotient leaves a margin of 2^-31 below 1, far more than
    the spacing of doubles there: the double nearest to the quotient is
    below 1 as well. *)
Lemma rng_margin (s : Z) : (fst (rng s) <= 1 - 1 / inject_Z (2 ^ 31))%Q.
Proof.
  pose proof (next_state_lt s) as [Hlo Hhi]. unfold rng, modulus. cbn [fst].
  apply Qle_trans with (inject_Z (0x7fffffff - 1) / inject_Z 0x7fffffff)%Q.
  - apply Qmult_le_compat_r; [| discriminate].
    rewrite <- Zle_Qle. lia.
  - apply Qle_bool_iff. vm_compute. reflexivity.
Qed.

(** C10.  For every integer seed, every number of the stream produced by the
    seeded generator is at least 0 and strictly below 1. *)
Theorem stream_in_unit_interval (seed : Z) (n : nat) :
  (0 <= stream seed n)%Q /\ (stream seed n < 1)%Q.
Proof. unfold stream. apply rng_range. Qed.

End RngRange.

(** ** Shuffling and slicing *)

Module ShuffleFacts.
Import JS Rng Data DataSplitter RngFacts RngRange.

Section Lists.
Context {A : Type}.
Implicit Types (l array : list A).

Lemma insert_delete_perm l i a b :
  l !! i = Some a -> <[i:=b]> l ≡ₚ b :: delete i l.
Proof.
  intros Hi. pose proof (lookup_lt_Some _ _ _ Hi) as Hlt.
  rewrite insert_take_drop by exact Hlt. rewrite delete_take_drop.
  symmetry. apply Permutation_middle.
Qed.

Lemma swap_perm array i j : swap array i j ≡ₚ array.
Proof.
  unfold swap.
  destruct (array !! i) as [x |] eqn:Hi; [| reflexivity].
  destruct (array !! j) as [y |] eqn:Hj; [| reflexivity].
  destruct (decide (i = j)) as [-> | Hne].
  - assert (x = y) by congruence. subst y.
    rewrite (list_insert_id array j x Hi). rewrite (list_insert_id array j x Hi).
    reflexivity.
  - set (array' := <[i:=y]> array).
    assert (Hj' : array' !! j = Some y).
    { unfold array'. rewrite list_lookup_insert_ne by exact Hne. exact Hj. }
    rewrite (insert_delete_perm array' j y x Hj').
    rewrite (delete_Permutation array i x Hi).
    apply Permutation_cons; [reflexivity |].
    apply (Permutation_cons_inv (a := y)).
    rewrite <- (delete_Permutation array' j y Hj').
    unfold array'. rewrite (insert_delete_perm array i x y Hi). reflexivity.
Qed.

Lemma shuffle_from_perm i array st : fst (shuffle_from i array st) ≡ₚ array.
Proof.
  revert array st. induction i as [| i IH]; intros array st; cbn.
  - reflexivity.
  - destruct (rng st) as [u st'] eqn:Hr. rewrite IH. apply swap_perm.
Qed.

Lemma shuffleArray_perm array st : fst (shuffleArray array st) ≡ₚ array.
Proof. apply shuffle_from_perm. Qed.

Lemma shuffleArray_length array st :
  length (fst (shuffleArray array st)) = length array.
Proof. apply Permutation_length, shuffleArray_perm. Qed.

(** The index drawn for position [i] lies in [0, i]: the swap of
    [shuffleArray] never leaves the array. *)
Lemma shuffle_index_range (st : Z) (i : nat) :
  0 <= pick (fst (rng st)) (Z.of_nat i + 1) <= Z.of_nat i.
Proof.
  destruct (rng_range st) as [Hlo Hhi]. unfold pick.
  set (u := fst (rng st)) in *. set (b := Z.of_nat i + 1).
  assert (Hb : (0 < inject_Z b)%Q) by (rewrite <- (Zlt_Qlt 0); unfold b; lia).
  split.
  - rewrite <- (Qfloor_Z 0). apply Qfloor_resp_le.
    apply Qmult_le_0_compat; [exact Hlo | apply Qlt_le_weak, Hb].
  - enough (Qfloor (u * inject_Z b) < b) by (unfold b in *; lia).
    rewrite Zlt_Qlt. apply Qle_lt_trans with (u * inject_Z b)%Q; [apply Qfloor_le |].
    rewrite <- (Qmult_1_l (inject_Z b)) at 2.
    apply Qmult_lt_compat_r; assumption.
Qed.

(** *** [slice] on indices inside the array *)

Lemma slice_inside l (a b : nat) :
  (a <= b <= length l)%nat ->
  slice l (Z.of_nat a) (Some (Z.of_nat b)) = take (b - a) (drop a l).
Proof.
  intros H. unfold slice, rel_index.
  destruct (Z.ltb_spec (Z.of_nat a) 0); [lia |].
  destruct (Z.ltb_spec (Z.of_nat b) 0); [lia |].
  rewrite !Z.min_l by lia. rewrite Nat2Z.id.
  f_equal. lia.
Qed.

Lemma slice_to_end l (a : nat) :
  (a <= length l)%nat -> slice l (Z.of_nat a) None = drop a l.
Proof.
  intros H. unfold slice, rel_index.
  destruct (Z.ltb_spec (Z.of_nat a) 0); [lia |].
  rewrite Z.min_l by lia. rewrite Nat2Z.id.
  apply take_ge. rewrite length_drop. lia.
Qed.

Lemma slice_prefix l (b : nat) :
  (b <= length l)%nat -> slice l 0 (Some (Z.of_nat b)) = take b l.
Proof.
  intros H. change 0 with (Z.of_nat 0). rewrite (slice_inside l 0 b) by lia.
  rewrite drop_0. f_equal. lia.
Qed.

(** Whatever the count, the two slices of [trainTestSplit] put together
    give back the array. *)
Lemma rel_index_range (n i : Z) : 0 <= n -> 0 <= rel_index n i <= n.
Proof. intros Hn. unfold rel_index. destruct (Z.ltb_spec i 0); lia. Qed.


End Lists.

End ShuffleFacts.

(** ** The k-fold slices of one array *)

Module FoldFacts.
Import JS Rng Data DataSplitter FoldSpec ShuffleFacts.

Lemma seqZ_nat (m : nat) : seqZ 0 (Z.of_nat m) = Z.of_nat <$> seq 0 m.
Proof.
  unfold seqZ. rewrite Nat2Z.id. apply list_fmap_ext. intros _ i _. lia.
Qed.

Section Slices.
Context {A : Type}.
Implicit Types (l : list A).

Lemma fold_bound (n k i : nat) : (0 < k)%nat -> (i < k)%nat -> (S i * (n / k) <= n)%nat.
Proof.
  intros Hk Hi.
  pose proof (Nat.Div0.mul_div_le n k) as H.
  assert (S i * (n / k) <= k * (n / k))%nat by (apply Nat.mul_le_mono_r; lia).
  lia.
Qed.

Lemma fold_slices_parts l (k i : nat) :
  (0 < k)%nat -> (i < k)%nat ->
  fold_slices l (Z.of_nat (length l)) (Z.of_nat k) (Z.of_nat i)
  = (train_part l k i, test_part l k i).
Proof.
  intros Hk Hi. unfold fold_slices, train_part, test_part.
  pose proof (fold_bound (length l) k i Hk Hi) as Hb.
  rewrite <- Nat2Z.inj_div, <- Nat2Z.inj_mul.
  set (f := (length l / k)%nat) in *.
  assert (Hstart : (i * f <= length l)%nat) by lia.
  destruct (decide (i = k - 1)%nat) as [-> | Hne].
  - replace (Z.of_nat (k - 1) =? Z.of_nat k - 1) with true by (symmetry; apply Z.eqb_eq; lia).
    rewrite slice_prefix by lia.
    rewrite (slice_to_end l (length l)) by lia. rewrite drop_all, app_nil_r.
    rewrite (slice_inside l ((k - 1) * f) (length l)) by lia.
    f_equal. apply take_ge. rewrite length_drop. lia.
  - replace (Z.of_nat i =? Z.of_nat k - 1) with false by (symmetry; apply Z.eqb_neq; lia).
    rewrite <- Nat2Z.inj_add.
    rewrite slice_prefix by lia.
    rewrite (slice_to_end l (i * f + f)) by lia.
    rewrite (slice_inside l (i * f) (i * f + f)) by lia.
    replace (i * f + f - i * f)%nat with f by lia.
    replace (i * f + f)%nat with (S i * f)%nat by lia. reflexivity.
Qed.

Lemma test_part_length l (k i : nat) :
  (0 < k)%nat -> (i < k)%nat -> length (test_part l k i) = part_size (length l) k i.
Proof.
  intros Hk Hi. unfold test_part, part_size.
  pose proof (fold_bound (length l) k i Hk Hi) as Hb.
  destruct (decide (i = k - 1)%nat).
  - rewrite length_drop. reflexivity.
  - rewrite length_take, length_drop. lia.
Qed.

(** Train part and test part of a fold make up the array. *)
Lemma train_test_perm l (k i : nat) :
  (0 < k)%nat -> (i < k)%nat -> train_part l k i ++ test_part l k i ≡ₚ l.
Proof.
  intros Hk Hi. unfold train_part, test_part.
  set (f := (length l / k)%nat).
  destruct (decide (i = k - 1)%nat).
  - rewrite take_drop. reflexivity.
  - rewrite <- (take_drop (i * f) l) at 4.
    rewrite <- (take_drop f (drop (i * f) l)) at 2.
    rewrite drop_drop. replace (i * f + f)%nat with (S i * f)%nat by lia.
    rewrite <- app_assoc. apply Permutation_app_head, Permutation_app_comm.
Qed.

(** The first [m] test parts, put end to end, are the first [m * f] items. *)
Lemma test_parts_prefix l (k m : nat) :
  (m < k)%nat ->
  concat ((fun i => test_part l k i) <$> seq 0 m) = take (m * (length l / k)) l.
Proof.
  intros Hm. induction m as [| m IH].
  - reflexivity.
  - rewrite seq_S, fmap_app, concat_app, IH by lia. cbn [fmap list_fmap concat].
    rewrite app_nil_r. cbn [Nat.add]. unfold test_part at 1.
    destruct (decide (m = k - 1)%nat); [lia |].
    set (f := (length l / k)%nat).
    rewrite take_take_drop. f_equal. lia.
Qed.

(** All [k] test parts, in fold order, are the array itself. *)
Lemma test_parts_concat l (k : nat) :
  (0 < k)%nat -> concat ((fun i => test_part l k i) <$> seq 0 k) = l.
Proof.
  intros Hk. destruct k as [| k']; [lia |].
  rewrite seq_S, fmap_app, concat_app, test_parts_prefix by lia.
  cbn [fmap list_fmap concat]. rewrite app_nil_r. cbn [Nat.add]. unfold test_part.
  destruct (decide (k' = S k' - 1)%nat); [| lia].
  replace (S k' - 1)%nat with k' by lia. apply take_drop.
Qed.

End Slices.

End FoldFacts.

(** ** Non-stratified k-fold *)

Module KFoldFacts.
Import JS Rng Data DataSplitter FoldSpec ShuffleFacts FoldFacts.

Lemma part_size_Z (n k i : nat) :
  (0 < k)%nat ->
  Z.of_nat (part_size n k i) = fold_test_size (Z.of_nat n) (Z.of_nat k) i.
Proof.
  intros Hk. unfold part_size, fold_test_size.
  pose proof (fold_bound n k (k - 1) Hk ltac:(lia)) as Hb.
  destruct (decide (i = k - 1)%nat) as [-> | Hne];
    destruct (decide _) as [He | He]; try lia.
  - rewrite Nat2Z.inj_sub by lia. rewrite Nat2Z.inj_mul, Nat2Z.inj_div.
    f_equal. f_equal. lia.
  - apply Nat2Z.inj_div.
Qed.

(** Lists whose concatenation has no duplicate are pairwise disjoint. *)
Lemma concat_NoDup_disjoint {A} (ls : list (list A)) (i j : nat) (a b : list A) (x : A) :
  NoDup (concat ls) -> i ≠ j -> ls !! i = Some a -> ls !! j = Some b ->
  x ∈ a -> x ∈ b -> False.
Proof.
  revert i j. induction ls as [| l ls IH]; intros i j Hnd Hij Hi Hj Ha Hb.
  - discriminate.
  - cbn in Hnd. apply NoDup_app in Hnd as (_ & Hdis & Hrest).
    destruct i as [| i], j as [| j]; cbn in Hi, Hj; try lia.
    + injection Hi as <-. apply (Hdis x Ha).
      apply list_elem_of_In, in_concat. exists b. split.
      * apply list_elem_of_In. eapply list_elem_of_lookup_2; eauto.
      * apply list_elem_of_In, Hb.
    + injection Hj as <-. apply (Hdis x Hb).
      apply list_elem_of_In, in_concat. exists a. split.
      * apply list_elem_of_In. eapply list_elem_of_lookup_2; eauto.
      * apply list_elem_of_In, Ha.
    + apply (IH i j); auto.
Qed.

Lemma simple_folds_nat (data dataCopy : list record) (k : nat) :
  length dataCopy = length data -> (0 < k)%nat ->
  folds (simple_folds data dataCopy (Z.of_nat k)) = (nat_fold dataCopy k) <$> seq 0 k.
Proof.
  intros Hlen Hk. unfold simple_folds. cbn [folds].
  rewrite seqZ_nat, <- list_fmap_compose.
  apply list_fmap_ext. intros n i Hn. cbn.
  apply lookup_seq in Hn as [-> Hn].
  rewrite <- Hlen, fold_slices_parts by lia. reflexivity.
Qed.

Lemma nat_folds_tests (l : list record) (k : nat) :
  (0 < k)%nat -> concat (f_test <$> (nat_fold l k <$> seq 0 k)) = l.
Proof.
  intros Hk. rewrite <- list_fmap_compose.
  rewrite <- (test_parts_concat l k Hk) at 2. reflexivity.
Qed.

Lemma data_copy_perm data shuffle st : fst (data_copy data shuffle st) ≡ₚ data.
Proof. unfold data_copy. destruct shuffle; [apply shuffleArray_perm | reflexivity]. Qed.

Lemma kFoldSplit_simple_eq data k shuffle stratify st :
  2 <= k <= Z.of_nat (length data) -> truthy stratify = false ->
  kFoldSplit data k shuffle stratify st
  = (Return (simple_folds data (fst (data_copy data shuffle st)) k),
     snd (data_copy data shuffle st)).
Proof.
  intros [Hk2 HkN] Hs. unfold kFoldSplit.
  destruct (Z.ltb_spec k 2); [lia |].
  destruct (Z.ltb_spec (Z.of_nat (length data)) k); [lia |].
  fold (data_copy data shuffle st).
  destruct (data_copy data shuffle st) as [dataCopy st'] eqn:Hc. cbn [fst snd].
  destruct stratify as [field |]; [rewrite Hs |]; reflexivity.
Qed.

(** C2.  For a dataset of size N and 2 <= k <= N, non-stratified
    [kFoldSplit] returns exactly k folds; their test sets, put together,
    hold every record of the dataset exactly once, and are pairwise disjoint
    when the records are distinct; a fold before the last has test size
    floor(N/k) and the last N - (k-1)*floor(N/k); each fold's train set is
    the rest of the dataset. *)
Theorem kFoldSplit_partition (data : list record) (k : Z) (shuffle : bool)
    (stratify : option string) (st : Z) :
  2 <= k <= Z.of_nat (length data) ->
  truthy stratify = false ->
  exists r st',
    kFoldSplit data k shuffle stratify st = (Return r, st') /\
    Z.of_nat (length (folds r)) = k /\
    concat (f_test <$> folds r) ≡ₚ data /\
    (NoDup data ->
     forall i j fi fj x, i ≠ j -> folds r !! i = Some fi -> folds r !! j = Some fj ->
       x ∈ f_test fi -> x ∈ f_test fj -> False) /\
    (forall i f, folds r !! i = Some f ->
       test_size f = Z.of_nat (length (f_test f)) /\
       test_size f = fold_test_size (Z.of_nat (length data)) k i /\
       train_size f = Z.of_nat (length (f_train f)) /\
       f_train f ++ f_test f ≡ₚ data).
Proof.
  intros Hk Hs. rewrite (kFoldSplit_simple_eq _ _ _ _ _ Hk Hs).
  pose proof (data_copy_perm data shuffle st) as Hperm.
  set (dataCopy := fst (data_copy data shuffle st)) in *.
  assert (Hlen : length dataCopy = length data) by (apply Permutation_length, Hperm).
  eexists _, _. split; [reflexivity |].
  assert (Hkn : (0 < Z.to_nat k)%nat) by lia.
  replace k with (Z.of_nat (Z.to_nat k)) by lia.
  set (kn := Z.to_nat k) in *.
  rewrite (simple_folds_nat data dataCopy kn Hlen Hkn).
  assert (Htests : concat (f_test <$> (nat_fold dataCopy kn <$> seq 0 kn)) = dataCopy)
    by (apply nat_folds_tests, Hkn).
  split; [| split; [| split]].
  - rewrite length_fmap, length_seq. reflexivity.
  - rewrite Htests. exact Hperm.
  - intros Hnd i j fi fj x Hij Hi Hj Hxi Hxj.
    assert (Hnd' : NoDup (concat (f_test <$> (nat_fold dataCopy kn <$> seq 0 kn)))).
    { rewrite Htests. rewrite Hperm. exact Hnd. }
    eapply (concat_NoDup_disjoint _ i j (f_test fi) (f_test fj) x Hnd' Hij); auto.
    + rewrite list_lookup_fmap, Hi. reflexivity.
    + rewrite list_lookup_fmap, Hj. reflexivity.
  - intros i f Hf. rewrite list_lookup_fmap in Hf.
    destruct (seq 0 kn !! i) as [n |] eqn:Hn; [| discriminate].
    apply lookup_seq in Hn as [-> Hn]. cbn in Hf. injection Hf as <-.
    unfold nat_fold, make_fold. cbn [test_size train_size f_test f_train fst snd].
    split; [reflexivity |]. split; [| split; [reflexivity |]].
    + rewrite test_part_length by lia. rewrite Hlen. apply part_size_Z, Hkn.
    + rewrite train_test_perm by lia. exact Hperm.
Qed.

End KFoldFacts.

Module KFoldWitness.
Import JS Data DataSplitter FoldSpec KFoldFacts Samples.

Lemma kFoldSplit_partition_witness :
  exists r st',
    kFoldSplit five 3 true None 42 = (Return r, st') /\
    Z.of_nat (length (folds r)) = 3 /\
    concat (f_test <$> folds r) ≡ₚ five /\
    (NoDup five ->
     forall i j fi fj x, i ≠ j -> folds r !! i = Some fi -> folds r !! j = Some fj ->
       x ∈ f_test fi -> x ∈ f_test fj -> False) /\
    (forall i f, folds r !! i = Some f ->
       test_size f = Z.of_nat (length (f_test f)) /\
       test_size f = fold_test_size (Z.of_nat (length five)) 3 i /\
       train_size f = Z.of_nat (length (f_train f)) /\
       f_train f ++ f_test f ≡ₚ five).
Proof.
  apply (kFoldSplit_partition five 3 true None 42); [cbn; lia | reflexivity].
Defined.

End KFoldWitness.

(** ** Reproducibility of a seeded splitter *)

Module SessionFacts.
Import JS Data Session Samples.

(** Every call sequence has a run. *)
Lemma run_runs (w : world) (cs : list call) :
  runs w cs (fst (run w cs)) (snd (run w cs)).
Proof.
  revert w. induction cs as [| c cs IH]; intros w; cbn.
  - constructor.
  - destruct (perform w c) as [a w'] eqn:Hp.
    specialize (IH w'). destruct (run w' cs) as [answers w''].
    econstructor; eassumption.
Qed.




End SessionFacts.

(** ** Grouping by category *)

Module GroupFacts.
Import JS Rng Data DataSplitter FoldSpec GroupSpec ShuffleFacts FoldFacts.

Section Groups.
Variable field : string.

Lemma in_cat_app c l1 l2 : in_cat field c (l1 ++ l2) = in_cat field c l1 ++ in_cat field c l2.
Proof. apply filter_app. Qed.

Lemma in_cat_perm c l1 l2 : l1 ≡ₚ l2 -> in_cat field c l1 ≡ₚ in_cat field c l2.
Proof. intros H. unfold in_cat. rewrite H. reflexivity. Qed.

Lemma in_cat_all c l :
  Forall (fun r => extractFieldValue r field = c) l -> in_cat field c l = l.
Proof.
  unfold in_cat. induction 1 as [| r l Hr _ IH]; [reflexivity |].
  rewrite filter_cons_True by exact Hr. rewrite IH. reflexivity.
Qed.

Lemma in_cat_none c c' l :
  c' ≠ c -> Forall (fun r => extractFieldValue r field = c') l -> in_cat field c l = [].
Proof.
  intros Hne. unfold in_cat. induction 1 as [| r l Hr _ IH]; [reflexivity |].
  rewrite filter_cons_False by congruence. exact IH.
Qed.

Lemma group_push_keys c r groups :
  fst <$> group_push c r groups
  = if decide (c ∈ fst <$> groups) then fst <$> groups else (fst <$> groups) ++ [c].
Proof.
  induction groups as [| [c0 items] rest IH]; cbn.
  - destruct (decide (c ∈ [])) as [H | _]; [inversion H | reflexivity].
  - destruct (decide (c0 = c)) as [-> | Hne]; cbn.
    + destruct (decide (c ∈ c :: _)) as [_ | H]; [reflexivity |].
      exfalso. apply H. left.
    + rewrite IH. destruct (decide (c ∈ fst <$> rest)) as [Hin | Hout];
        destruct (decide (c ∈ c0 :: _)) as [Hin' | Hout']; try reflexivity.
      * exfalso. apply Hout'. right. exact Hin.
      * exfalso. apply elem_of_cons in Hin' as [-> | Hin']; [apply Hne | apply Hout]; auto.
Qed.

Lemma group_push_items c r groups c' :
  group_items (group_push c r groups) c'
  = group_items groups c' ++ (if decide (c = c') then [r] else []).
Proof.
  induction groups as [| [c0 items] rest IH]; cbn.
  - destruct (decide (c = c')); reflexivity.
  - destruct (decide (c0 = c)) as [-> | Hne]; cbn.
    + destruct (decide (c = c')); [reflexivity | rewrite app_nil_r; reflexivity].
    + destruct (decide (c0 = c')) as [-> | Hne'].
      * destruct (decide (c = c')); [congruence | rewrite app_nil_r; reflexivity].
      * exact IH.
Qed.

Lemma group_push_keyed r groups :
  well_keyed field groups -> well_keyed field (group_push (extractFieldValue r field) r groups).
Proof.
  unfold well_keyed. induction groups as [| [c0 items] rest IH]; intros H; cbn.
  - repeat constructor.
  - apply Forall_cons in H as [Hg Hrest]. cbn in Hg.
    destruct (decide (c0 = _)) as [-> | Hne]; apply Forall_cons; split; cbn; auto.
    apply Forall_app. split; [exact Hg |]. repeat constructor.
Qed.

Lemma group_push_perm c r groups :
  concat (snd <$> group_push c r groups) ≡ₚ concat (snd <$> groups) ++ [r].
Proof.
  induction groups as [| [c0 items] rest IH]; cbn.
  - reflexivity.
  - destruct (decide (c0 = c)) as [-> | Hne]; cbn.
    + rewrite <- !app_assoc. apply Permutation_app_head, Permutation_app_comm.
    + rewrite IH. rewrite app_assoc. reflexivity.
Qed.

Lemma group_by_snoc data r :
  group_by field (data ++ [r])
  = group_push (extractFieldValue r field) r (group_by field data).
Proof. unfold group_by. rewrite fold_left_app. reflexivity. Qed.

Lemma group_by_keys data : NoDup (fst <$> group_by field data).
Proof.
  induction data as [| r data IH] using rev_ind.
  - constructor.
  - rewrite group_by_snoc, group_push_keys. destruct (decide _) as [Hin | Hout]; [exact IH |].
    apply NoDup_app. split; [exact IH |]. split.
    + intros x Hx Hx'. apply list_elem_of_singleton in Hx'. subst. contradiction.
    + apply NoDup_singleton.
Qed.

Lemma group_by_items data c : group_items (group_by field data) c = in_cat field c data.
Proof.
  induction data as [| r data IH] using rev_ind.
  - reflexivity.
  - rewrite group_by_snoc, group_push_items, IH, in_cat_app. reflexivity.
Qed.

Lemma group_by_keyed data : well_keyed field (group_by field data).
Proof.
  induction data as [| r data IH] using rev_ind.
  - constructor.
  - rewrite group_by_snoc. apply group_push_keyed, IH.
Qed.

Lemma group_by_perm data : concat (snd <$> group_by field data) ≡ₚ data.
Proof.
  induction data as [| r data IH] using rev_ind.
  - reflexivity.
  - rewrite group_by_snoc, group_push_perm, IH. reflexivity.
Qed.

End Groups.

End GroupFacts.

(** ** Split ratios *)

Module RatioFacts.
Import JS Rng Data DataSplitter GroupSpec ShuffleFacts GroupFacts ConfigurationManager Samples.







End RatioFacts.

(** ** Stratified k-fold *)

Module StratifiedFacts.
Import JS Rng Data DataSplitter FoldSpec GroupSpec ShuffleFacts FoldFacts KFoldFacts GroupFacts.

Section Stratified.
Variable field : string.
Variable kn : nat.
Hypothesis kn_pos : (0 < kn)%nat.

Lemma part_size_0 (i : nat) : part_size 0 kn i = 0%nat.
Proof.
  unfold part_size. destruct (decide _); [| apply Nat.Div0.div_0_l].
  rewrite Nat.Div0.div_0_l. lia.
Qed.

Lemma share_absent groups c i : c ∉ fst <$> groups -> share kn groups c i = 0%nat.
Proof.
  induction groups as [| [c0 items] rest IH]; cbn; intros Hc; [reflexivity |].
  apply not_elem_of_cons in Hc as [Hne Hc].
  destruct (decide (c0 = c)); [congruence |]. rewrite IH by exact Hc. reflexivity.
Qed.

Lemma share_items groups c i :
  NoDup (fst <$> groups) ->
  share kn groups c i = part_size (length (group_items groups c)) kn i.
Proof.
  induction groups as [| [c0 items] rest IH]; cbn; intros Hnd.
  - symmetry. apply part_size_0.
  - apply NoDup_cons in Hnd as [Hout Hnd].
    destruct (decide (c0 = c)) as [-> | Hne].
    + rewrite share_absent by exact Hout. lia.
    + rewrite IH by exact Hnd. reflexivity.
Qed.

Lemma push_group_lookup shuffled acc i f :
  acc !! i = Some f -> (i < kn)%nat ->
  push_group kn shuffled (Z.of_nat (length shuffled)) acc !! i
  = Some (fst f ++ train_part shuffled kn i, snd f ++ test_part shuffled kn i).
Proof.
  intros Hf Hi. unfold push_group.
  rewrite lookup_zip_with, Hf, seqZ_nat, list_lookup_fmap, lookup_seq_lt by exact Hi.
  cbn -[fold_slices]. rewrite fold_slices_parts by lia. reflexivity.
Qed.

Lemma push_group_length shuffled n acc :
  length acc = kn -> length (push_group kn shuffled n acc) = kn.
Proof.
  intros H. unfold push_group. rewrite length_zip_with_l_eq; [exact H |].
  rewrite length_seqZ. lia.
Qed.

Lemma concat_zip_app {A} (xs ys : list (list A)) :
  length xs = length ys -> concat (zip_with app xs ys) ≡ₚ concat xs ++ concat ys.
Proof.
  revert ys. induction xs as [| x xs IH]; intros [| y ys] Hlen; try discriminate.
  - reflexivity.
  - cbn. rewrite IH by (cbn in Hlen; lia).
    rewrite <- !app_assoc. apply Permutation_app_head.
    rewrite !app_assoc. apply Permutation_app_tail, Permutation_app_comm.
Qed.

Lemma push_group_tests shuffled acc :
  length acc = kn ->
  concat (snd <$> push_group kn shuffled (Z.of_nat (length shuffled)) acc)
  ≡ₚ concat (snd <$> acc) ++ shuffled.
Proof.
  intros Hlen.
  assert (Heq : snd <$> push_group kn shuffled (Z.of_nat (length shuffled)) acc
                = zip_with app (snd <$> acc) ((fun i => test_part shuffled kn i) <$> seq 0 kn)).
  { apply list_eq. intros i.
    rewrite list_lookup_fmap, lookup_zip_with, !list_lookup_fmap.
    destruct (acc !! i) as [f |] eqn:Hf.
    - assert (Hi : (i < kn)%nat) by (apply lookup_lt_Some in Hf; lia).
      rewrite (push_group_lookup _ _ _ _ Hf Hi), lookup_seq_lt by exact Hi. reflexivity.
    - assert (Hn : push_group kn shuffled (Z.of_nat (length shuffled)) acc !! i = None).
      { apply lookup_ge_None. rewrite push_group_length by exact Hlen.
        apply lookup_ge_None in Hf. lia. }
      rewrite Hn. reflexivity. }
  rewrite Heq, concat_zip_app by (rewrite !length_fmap, length_seq; exact Hlen).
  rewrite test_parts_concat by exact kn_pos. reflexivity.
Qed.

Lemma test_part_keyed (c : option string) shuffled i :
  Forall (fun r => extractFieldValue r field = c) shuffled ->
  Forall (fun r => extractFieldValue r field = c) (test_part shuffled kn i).
Proof.
  intros H. unfold test_part. destruct (decide _).
  - apply Forall_drop, H.
  - apply Forall_take, Forall_drop, H.
Qed.

(** What the loop of [distribute] adds to accumulated folds. *)
Lemma distribute_spec groups :
  well_keyed field groups ->
  forall acc st, length acc = kn ->
    let acc' := fst (distribute groups (Z.of_nat kn) acc st) in
    length acc' = kn /\
    concat (snd <$> acc') ≡ₚ concat (snd <$> acc) ++ concat (snd <$> groups) /\
    forall i f, acc !! i = Some f ->
      exists f', acc' !! i = Some f' /\
        forall c, length (in_cat field c (snd f'))
                  = (length (in_cat field c (snd f)) + share kn groups c i)%nat.
Proof.
  induction groups as [| [c0 items] rest IH]; intros Hkeyed acc st Hlen; cbn [distribute].
  - cbn. split; [exact Hlen |]. split; [rewrite app_nil_r; reflexivity |].
    intros i f Hf. exists f. split; [exact Hf |]. intros c. lia.
  - apply Forall_cons in Hkeyed as [Hitems Hrest]. cbn in Hitems.
    pose proof (shuffleArray_perm items st) as Hsh.
    destruct (shuffleArray items st) as [shuffled st']. cbn [fst] in Hsh.
    assert (Hn : length items = length shuffled) by (symmetry; apply Permutation_length, Hsh).
    rewrite Hn. fold (push_group kn shuffled (Z.of_nat (length shuffled)) acc). cbn zeta.
    set (acc1 := push_group kn shuffled (Z.of_nat (length shuffled)) acc).
    assert (Hlen1 : length acc1 = kn) by (apply push_group_length, Hlen).
    destruct (IH Hrest acc1 st' Hlen1) as (Hl & Hp & Hc).
    split; [exact Hl |]. split.
    + rewrite Hp. unfold acc1. rewrite push_group_tests by exact Hlen.
      rewrite Hsh, <- app_assoc. reflexivity.
    + intros i f Hf.
      assert (Hi : (i < kn)%nat) by (apply lookup_lt_Some in Hf; lia).
      destruct (Hc i _ (push_group_lookup shuffled acc i f Hf Hi)) as (f' & Hf' & Hcount).
      exists f'. split; [exact Hf' |]. intros c. rewrite Hcount. cbn [snd].
      rewrite in_cat_app, length_app.
      assert (Hkeyed' : Forall (fun r => extractFieldValue r field = c0) (test_part shuffled kn i)).
      { apply test_part_keyed. rewrite Hsh. exact Hitems. }
      cbn [share]. destruct (decide (c0 = c)) as [-> | Hne].
      * rewrite (in_cat_all field c _ Hkeyed'), test_part_length by lia. rewrite <- Hn. lia.
      * rewrite (in_cat_none field c c0 _ Hne Hkeyed'). cbn [length]. lia.
Qed.

End Stratified.

End StratifiedFacts.

Module StratifiedKFold.
Import JS Rng Data DataSplitter FoldSpec GroupSpec ShuffleFacts FoldFacts KFoldFacts
       GroupFacts StratifiedFacts Samples.

Lemma in_cat_concat field c (ls : list (list record)) :
  in_cat field c (concat ls) = concat (in_cat field c <$> ls).
Proof.
  induction ls as [| l ls IH]; [reflexivity |].
  cbn [concat fmap list_fmap]. rewrite in_cat_app, IH. reflexivity.
Qed.

Lemma empty_parts_lookup (kn i : nat) (p : list record * list record) :
  ((fun _ : Z => ([] : list record, [] : list record)) <$> seqZ 0 (Z.of_nat kn)) !! i = Some p ->
  p = ([], []).
Proof.
  rewrite list_lookup_fmap. destruct (seqZ 0 (Z.of_nat kn) !! i); [| discriminate].
  cbn. congruence.
Qed.

Lemma empty_parts_tests (kn : nat) :
  concat (snd <$> ((fun _ : Z => ([] : list record, [] : list record)) <$> seqZ 0 (Z.of_nat kn)))
  = [].
Proof.
  rewrite <- list_fmap_compose. induction (seqZ 0 (Z.of_nat kn)); [reflexivity | exact IHl].
Qed.

Lemma make_folds_tests (zs : list Z) (parts : list (list record * list record)) :
  (length parts <= length zs)%nat ->
  f_test <$> zip_with (fun i p => make_fold i p) zs parts = snd <$> parts.
Proof.
  revert parts. induction zs as [| z zs IH]; intros [| p parts] Hlen; cbn in *;
    try reflexivity; try lia.
  rewrite IH by lia. reflexivity.
Qed.

(** The folds of [stratifiedKFoldSplit], seen from the parts that
    [distribute] built. *)
Lemma stratified_folds data field (kn : nat) st :
  (0 < kn)%nat ->
  let r := fst (stratifiedKFoldSplit data (Z.of_nat kn) field st) in
  length (folds r) = kn /\
  concat (f_test <$> folds r) ≡ₚ data /\
  forall c i f, folds r !! i = Some f ->
    length (in_cat field c (f_test f)) = part_size (length (in_cat field c data)) kn i.
Proof.
  intros Hk. unfold stratifiedKFoldSplit.
  set (empty := (fun _ : Z => ([] : list record, [] : list record)) <$> seqZ 0 (Z.of_nat kn)).
  assert (Hlen : length empty = kn)
    by (unfold empty; rewrite length_fmap, length_seqZ; lia).
  destruct (distribute_spec field kn Hk (group_by field data) (group_by_keyed field data)
              empty st Hlen) as (Hl & Hp & Hc).
  destruct (distribute (group_by field data) (Z.of_nat kn) empty st) as [parts st'].
  cbn [fst folds] in *.
  assert (Htests : f_test <$> zip_with (fun i p => make_fold i p) (seqZ 0 (Z.of_nat kn)) parts
                   = snd <$> parts).
  { apply make_folds_tests. rewrite length_seqZ. lia. }
  split; [| split].
  - rewrite length_zip_with_r_eq; [exact Hl |]. rewrite length_seqZ. lia.
  - rewrite Htests, Hp. unfold empty. rewrite empty_parts_tests. cbn.
    apply group_by_perm.
  - intros c i f Hf.
    apply lookup_zip_with_Some in Hf as (z & p & -> & Hz & Hparts).
    cbn [f_test make_fold snd].
    assert (Hi : (i < kn)%nat) by (apply lookup_lt_Some in Hparts; lia).
    destruct (lookup_lt_is_Some_2 empty i ltac:(lia)) as [e He].
    destruct (Hc i e He) as (p' & Hp' & Hcount).
    assert (p' = p) by congruence. subst p'.
    rewrite Hcount. apply empty_parts_lookup in He. subst e. cbn.
    rewrite (share_items kn Hk) by apply group_by_keys.
    rewrite group_by_items. reflexivity.
Qed.

(** C1, as stated, fails: five records of one category split over three
    folds leave one record in the first fold's test set and three in the
    last. *)
Lemma stratified_counts_differ_by_two :
  exists r st' first last,
    kFoldSplit five 3 true (Some "articletype") 42 = (Return r, st') /\
    folds r !! 0%nat = Some first /\
    folds r !! 2%nat = Some last /\
    length (in_cat "articletype" (Some "Shirts") (f_test first)) = 1%nat /\
    length (in_cat "articletype" (Some "Shirts") (f_test last)) = 3%nat.
Proof.
  eexists _, _, _, _. split; [vm_compute; reflexivity |].
  split; [reflexivity |]. split; [reflexivity |]. split; vm_compute; reflexivity.
Qed.

(** C1, amended.  For a dataset D, a stratification field and 2 <= k <= |D|,
    stratified [kFoldSplit] returns k folds in which, for every category C,
    every record of C is in the test set of exactly one fold; each fold
    before the last receives floor(n/k) of the n records of C and the last
    fold receives the remaining n - (k-1)*floor(n/k). *)
Theorem stratified_kfold_shares (data : list record) (field : string) (k : Z)
    (shuffle : bool) (st : Z) :
  2 <= k <= Z.of_nat (length data) ->
  field ≠ "" ->
  exists r st',
    kFoldSplit data k shuffle (Some field) st = (Return r, st') /\
    Z.of_nat (length (folds r)) = k /\
    forall c,
      concat ((fun f => in_cat field c (f_test f)) <$> folds r) ≡ₚ in_cat field c data /\
      forall i f, folds r !! i = Some f ->
        Z.of_nat (length (in_cat field c (f_test f)))
        = fold_test_size (Z.of_nat (length (in_cat field c data))) k i.
Proof.
  intros [Hk2 HkN] Hfield. unfold kFoldSplit.
  destruct (Z.ltb_spec k 2); [lia |].
  destruct (Z.ltb_spec (Z.of_nat (length data)) k); [lia |].
  fold (data_copy data shuffle st).
  pose proof (data_copy_perm data shuffle st) as Hperm.
  destruct (data_copy data shuffle st) as [dataCopy st']. cbn [fst] in Hperm.
  assert (Ht : truthy (Some field) = true).
  { cbn. destruct (String.eqb_spec field ""); [contradiction | reflexivity]. }
  rewrite Ht.
  assert (Hkn : (0 < Z.to_nat k)%nat) by lia.
  pose proof (stratified_folds dataCopy field (Z.to_nat k) st' Hkn) as Hs.
  rewrite Z2Nat.id in Hs by lia. cbv zeta in Hs.
  destruct (stratifiedKFoldSplit dataCopy k field st') as [r st''].
  cbn [fst] in Hs. destruct Hs as (Hlen & Htests & Hcount).
  exists r, st''. split; [reflexivity |]. split; [lia |].
  intros c. split.
  - rewrite (list_fmap_compose f_test (in_cat field c)), <- in_cat_concat.
    apply in_cat_perm. rewrite Htests. exact Hperm.
  - intros i f Hf. rewrite (Hcount c i f Hf).
    rewrite (Permutation_length (in_cat_perm field c _ _ Hperm)).
    rewrite part_size_Z by exact Hkn. rewrite Z2Nat.id by lia. reflexivity.
Qed.

Lemma stratified_kfold_shares_witness :
  exists r st',
    kFoldSplit five 3 true (Some "articletype") 42 = (Return r, st') /\
    Z.of_nat (length (folds r)) = 3 /\
    forall c,
      concat ((fun f => in_cat "articletype" c (f_test f)) <$> folds r)
      ≡ₚ in_cat "articletype" c five /\
      forall i f, folds r !! i = Some f ->
        Z.of_nat (length (in_cat "articletype" c (f_test f)))
        = fold_test_size (Z.of_nat (length (in_cat "articletype" c five))) 3 i.
Proof.
  apply (stratified_kfold_shares five "articletype" 3 true 42); [cbn; lia | discriminate].
Defined.

End StratifiedKFold.

(** ** The tally of [majorityVote] *)

Module TallyFacts.
Import JS Data Predictor VoteSpec.

Lemma occurrences_snoc x items y :
  occurrences x (items ++ [y]) = occurrences x items + (if decide (y = x) then 1 else 0).
Proof.
  unfold occurrences. rewrite filter_app, length_app. cbn.
  destruct (decide (y = x)); cbn; lia.
Qed.

Lemma occurrences_pos x items : x ∈ items -> 1 <= occurrences x items.
Proof.
  unfold occurrences. intros H.
  assert (Hin : x ∈ filter (fun y => y = x) items) by (apply list_elem_of_filter; auto).
  destruct (filter _ items); [inversion Hin | cbn; lia].
Qed.

Lemma occurrences_absent x items : x ∉ items -> occurrences x items = 0.
Proof.
  unfold occurrences. intros H.
  destruct (filter (fun y => y = x) items) as [| z l] eqn:Hf; [reflexivity |].
  exfalso. apply H.
  assert (Hz : z ∈ filter (fun y => y = x) items) by (rewrite Hf; left).
  apply list_elem_of_filter in Hz as [-> Hz]. exact Hz.
Qed.



Lemma own_put o key v key' :
  own (put o key v) key' = if decide (key = key') then Some v else own o key'.
Proof.
  induction o as [| [k0 v0] rest IH]; cbn.
  - destruct (String.eqb_spec key key'), (decide (key = key')); congruence.
  - destruct (String.eqb_spec k0 key) as [-> | Hne]; cbn.
    + destruct (String.eqb_spec key key'), (decide (key = key')); congruence.
    + destruct (String.eqb_spec k0 key') as [-> | Hne'].
      * destruct (decide (key = key')); congruence.
      * exact IH.
Qed.

Lemma own_names o key : own o key = None <-> key ∉ fst <$> o.
Proof.
  induction o as [| [k0 v0] rest IH]; cbn.
  - split; [intros _ H; inversion H | reflexivity].
  - rewrite not_elem_of_cons. destruct (String.eqb_spec k0 key) as [-> | Hne].
    + split; [discriminate | intros [H _]; congruence].
    + rewrite IH. split; [intros H; split; [congruence | exact H] | intros [_ H]; exact H].
Qed.



End TallyFacts.

(** ** Key order and the winner of the vote *)

Module VoteFacts.
Import JS Data Predictor VoteSpec TallyFacts.

Lemma insert_index_perm x l : insert_index x l ≡ₚ x :: l.
Proof.
  induction l as [| y l IH]; cbn; [reflexivity |].
  destruct (fst x <? fst y); [reflexivity |].
  rewrite IH. apply Permutation_swap.
Qed.

Lemma sort_indices_perm l : sort_indices l ≡ₚ l.
Proof.
  induction l as [| x l IH]; cbn; [reflexivity |].
  rewrite insert_index_perm, IH. reflexivity.
Qed.


(** [Object.keys] lists every own key. *)
Lemma keys_elem (o : object) (x : string) : x ∈ keys o <-> x ∈ fst <$> o.
Proof.
  unfold keys. set (names := fst <$> o). clearbody names.
  rewrite elem_of_app, list_elem_of_fmap, list_elem_of_filter. split.
  - intros [((n & key) & -> & Hin) | [_ Hin]]; [| exact Hin].
    rewrite sort_indices_perm in Hin. apply list_elem_of_omap in Hin as (y & Hy & Heq).
    destruct (array_index y); [| discriminate]. cbn in Heq. injection Heq as _ <-. exact Hy.
  - intros Hin. destruct (array_index x) as [n |] eqn:Hx; [left | right; auto].
    exists (n, x). split; [reflexivity |].
    rewrite sort_indices_perm. apply list_elem_of_omap. exists x. split; [exact Hin |].
    rewrite Hx. reflexivity.
Qed.

(** The loop keeps the first key, in the order it is given, whose count is
    the highest. *)
Lemma scan_spec (counts : object) (cnt : string -> Z) (ks : list string) :
  Forall (fun key => own counts key = Some (Count (cnt key))) ks ->
  forall maxK maxV,
    (Forall (fun key => cnt key <= maxV) ks /\ scan counts ks maxK maxV = (maxK, maxV)) \/
    (exists pre key post,
       ks = pre ++ key :: post /\
       scan counts ks maxK maxV = (Some key, cnt key) /\
       maxV < cnt key /\
       Forall (fun x => cnt x < cnt key) pre /\
       Forall (fun x => cnt x <= cnt key) post).
Proof.
  induction 1 as [| k ks Hk _ IH]; intros maxK maxV.
  - left. split; [constructor | reflexivity].
  - cbn [scan]. rewrite Hk. destruct (Z.ltb_spec maxV (cnt k)) as [Hlt | Hge].
    + right. destruct (IH (Some k) (cnt k))
        as [[Hall Hs] | (pre & key & post & -> & Hs & Hm & Hpre & Hpost)].
      * exists [], k, ks. split; [reflexivity |]. split; [exact Hs |].
        split; [exact Hlt |]. split; [constructor | exact Hall].
      * exists (k :: pre), key, post. split; [reflexivity |]. split; [exact Hs |].
        split; [lia |]. split; [constructor; assumption | exact Hpost].
    + destruct (IH maxK maxV)
        as [[Hall Hs] | (pre & key & post & -> & Hs & Hm & Hpre & Hpost)].
      * left. split; [constructor; assumption | exact Hs].
      * right. exists (k :: pre), key, post. split; [reflexivity |]. split; [exact Hs |].
        split; [exact Hm |]. split; [constructor; [lia | exact Hpre] | exact Hpost].
Qed.

End VoteFacts.

Module VoteTheorems.
Import JS Data Predictor VoteSpec TallyFacts VoteFacts Samples.








End VoteTheorems.

(** ** The confusion matrix *)

Module ConfusionFacts.
Import JS ModelEvaluator MetricsSpec Samples.

Lemma sum_entries_set (m : smap) (key : string) (v : Z) :
  sum_entries (set m key v) = sum_entries m - default 0 (get m key) + v.
Proof.
  induction m as [| [k0 v0] rest IH]; cbn [set get sum_entries].
  - cbn. lia.
  - destruct (String.eqb k0 key); cbn [sum_entries].
    + cbn. lia.
    + rewrite IH. lia.
Qed.

Lemma confusion_loop_total (groundTruth predictions : list label) (m : smap) (c : Z) :
  sum_entries (fst (confusion_loop groundTruth predictions m c))
  = sum_entries m + Z.of_nat (length groundTruth).
Proof.
  revert predictions m c. induction groundTruth as [| actual gt IH]; intros predictions m c.
  - cbn. lia.
  - cbn [confusion_loop]. rewrite IH, sum_entries_set. cbn [length]. lia.
Qed.

(** The entries of the matrix always add up to the number of pairs. *)
Lemma matrix_total (groundTruth predictions : list label) :
  sum_entries (matrix (createConfusionMatrix groundTruth predictions))
  = total (createConfusionMatrix groundTruth predictions).
Proof.
  unfold createConfusionMatrix.
  pose proof (confusion_loop_total groundTruth predictions [] 0) as H.
  destruct (confusion_loop groundTruth predictions [] 0) as [m c]. cbn in *. lia.
Qed.

Lemma confusion_loop_correct (pairs : list (label * label)) (m : smap) (c : Z) :
  snd (confusion_loop (fst <$> pairs) (snd <$> pairs) m c)
  = c + Z.of_nat (length (filter (fun p => fst p = snd p) pairs)).
Proof.
  revert m c. induction pairs as [| [actual predicted] pairs IH]; intros m c.
  - cbn. lia.
  - cbn [fmap list_fmap confusion_loop head tail default from_option id fst snd].
    rewrite IH, filter_cons. cbn [fst snd].
    destruct (decide (actual = predicted)); cbn [length]; lia.
Qed.

(** [correct] is the number of pairs whose two labels are equal. *)
Lemma correct_counts_equal_pairs (pairs : list (label * label)) :
  correct (createConfusionMatrix (fst <$> pairs) (snd <$> pairs))
  = Z.of_nat (length (filter (fun p => fst p = snd p) pairs)).
Proof.
  unfold createConfusionMatrix.
  pose proof (confusion_loop_correct pairs [] 0) as H.
  destruct (confusion_loop _ _ [] 0) as [m c]. cbn in *. lia.
Qed.

(** C6 at a colliding input.  For the pairs (a, a_a_a) and (a_a, b) no
    prediction is right, yet the entry read as the diagonal entry of class
    a_a holds 1: the key of the pair (a, a_a_a) is the key of (a_a, a_a). *)
Theorem diagonal_counts_a_colliding_key :
  let c := createConfusionMatrix collide_truth collide_predicted in
  correct c = 0 /\
  total c = 2 /\
  sum_entries (matrix c) = 2 /\
  key_of (LStr "a") (LStr "a_a_a") = key_of (LStr "a_a") (LStr "a_a") /\
  diagonal_sum c (distinct (collide_truth ++ collide_predicted)) = 1.
Proof. repeat split; vm_compute; reflexivity. Qed.

End ConfusionFacts.

(** ** Macro averages *)

Module MacroFacts.
Import JS ModelEvaluator MetricsSpec.

Lemma distinct_from_elem seen array x :
  x ∈ distinct_from seen array <-> x ∈ array /\ x ∉ seen.
Proof.
  revert seen. induction array as [| y array IH]; intros seen; cbn.
  - split; [intros H; inversion H | intros [H _]; inversion H].
  - destruct (decide (y ∈ seen)) as [Hin | Hout].
    + rewrite IH, elem_of_cons. split; [intros [H1 H2]; auto |].
      intros [[-> | H1] H2]; [contradiction | auto].
    + rewrite !elem_of_cons, IH, not_elem_of_cons. split.
      * intros [-> | [H1 [H2 H3]]]; auto.
      * intros [[-> | H1] H2]; [left; reflexivity |].
        destruct (decide (x = y)) as [-> | Hne]; [left; reflexivity | right; auto].
Qed.

Lemma distinct_from_NoDup seen array : NoDup (distinct_from seen array).
Proof.
  revert seen. induction array as [| y array IH]; intros seen; cbn.
  - constructor.
  - destruct (decide (y ∈ seen)); [apply IH |].
    constructor; [| apply IH].
    rewrite distinct_from_elem, not_elem_of_cons. intros [_ [H _]]. congruence.
Qed.

(** [distinct] lists the labels of the array, each once. *)
Lemma distinct_elem array x : x ∈ distinct array <-> x ∈ array.
Proof.
  unfold distinct. rewrite distinct_from_elem. split; [intros [H _]; exact H |].
  intros H. split; [exact H | apply not_elem_of_nil].
Qed.

Lemma class_loop_sums c classes (a b d : Q) :
  let '(a', b', d') := class_loop c classes (a, b, d) in
  (a' == a + Qtotal (precision c <$> classes) /\
   b' == b + Qtotal (recall c <$> classes) /\
   d' == d + Qtotal (f1 c <$> classes))%Q.
Proof.
  revert a b d. induction classes as [| cls classes IH]; intros a b d.
  - cbn. repeat split; ring.
  - cbn [class_loop fmap list_fmap Qtotal].
    specialize (IH (a + precision c cls) (b + recall c cls) (d + f1 c cls))%Q.
    destruct (class_loop c classes _) as [[a' b'] d'].
    destruct IH as (Ha & Hb & Hd). rewrite Ha, Hb, Hd. repeat split; ring.
Qed.



End MacroFacts.

(** ** Labels that the key of the matrix keeps apart *)

Module PlainLabels.
Import JS ModelEvaluator MetricsSpec ConfusionFacts MacroFacts.

Lemma show_underscore_free l : plain l -> underscore_free (show l) = true.
Proof. destruct l; cbn; [reflexivity | reflexivity | intros [H _]; exact H]. Qed.

Lemma show_inj l1 l2 : plain l1 -> plain l2 -> show l1 = show l2 -> l1 = l2.
Proof.
  destruct l1, l2; cbn; intros H1 H2 He; try reflexivity; try discriminate;
    try (destruct H1 as (_ & ? & ?); congruence);
    try (destruct H2 as (_ & ? & ?); congruence).
Qed.

Lemma separator_splits (s1 s2 t1 t2 : string) :
  underscore_free s1 = true -> underscore_free s2 = true ->
  s1 +:+ "_" +:+ t1 = s2 +:+ "_" +:+ t2 -> s1 = s2 /\ t1 = t2.
Proof.
  revert s2. induction s1 as [| c1 s1 IH]; intros [| c2 s2] H1 H2 He.
  - cbn in He. injection He as He. split; [reflexivity | exact He].
  - exfalso. cbn in He, H2. injection He as Hc _. subst c2. discriminate.
  - exfalso. cbn in He, H1. injection He as Hc _. subst c1. discriminate.
  - cbn in He. injection He as Hc He. subst c2.
    cbn in H1, H2. apply andb_true_iff in H1 as [_ H1]. apply andb_true_iff in H2 as [_ H2].
    destruct (IH s2 H1 H2 He) as [-> ->]. split; reflexivity.
Qed.

Lemma key_of_inj a p a' p' :
  plain a -> plain p -> plain a' -> plain p' ->
  key_of a p = key_of a' p' -> a = a' /\ p = p'.
Proof.
  intros Ha Hp Ha' Hp' He. unfold key_of in He.
  apply separator_splits in He as [H1 H2]; try (apply show_underscore_free; assumption).
  split; apply show_inj; assumption.
Qed.

Lemma get_set (m : smap) (key : string) (v : Z) (key' : string) :
  get (set m key v) key' = if String.eqb key key' then Some v else get m key'.
Proof.
  induction m as [| [k0 v0] rest IH]; cbn [set get].
  - reflexivity.
  - destruct (String.eqb_spec k0 key) as [-> | Hne]; cbn [get].
    + destruct (String.eqb key key'); reflexivity.
    + destruct (String.eqb_spec k0 key') as [-> | Hne'].
      * destruct (String.eqb_spec key key'); [congruence | reflexivity].
      * exact IH.
Qed.

(** Every entry counts the pairs that are written under its key. *)
Lemma loop_counts_keys (pairs : list (label * label)) (m : smap) (c : Z) (key : string) :
  default 0 (get (fst (confusion_loop (fst <$> pairs) (snd <$> pairs) m c)) key)
  = default 0 (get m key)
    + Z.of_nat (length (filter (fun p => key_of (fst p) (snd p) = key) pairs)).
Proof.
  revert m c. induction pairs as [| [a p] pairs IH]; intros m c.
  - cbn. lia.
  - cbn [fmap list_fmap confusion_loop head tail default from_option id fst snd].
    rewrite IH, get_set, filter_cons. cbn [fst snd].
    destruct (String.eqb_spec (key_of a p) key) as [He | Hne];
      destruct (decide (key_of a p = key)); try congruence.
    all: try subst key; cbn; lia.
Qed.

Lemma plain_diagonal_entry (pairs : list (label * label)) (cls : label) :
  Forall plain (fst <$> pairs) -> Forall plain (snd <$> pairs) -> plain cls ->
  true_positives (createConfusionMatrix (fst <$> pairs) (snd <$> pairs)) cls
  = pairs_on_diagonal cls pairs.
Proof.
  intros Hg Hp Hc. unfold true_positives, createConfusionMatrix, pairs_on_diagonal.
  pose proof (loop_counts_keys pairs [] 0 (key_of cls cls)) as H.
  destruct (confusion_loop _ _ [] 0) as [m c]. cbn [matrix fst] in *. rewrite H. cbn [get default from_option id].
  rewrite Z.add_0_l. do 2 f_equal.
  clear H m c. induction pairs as [| [a p] pairs IH]; [reflexivity |].
  cbn [fmap list_fmap] in Hg, Hp. apply Forall_cons in Hg as [Ha Hg].
  apply Forall_cons in Hp as [Hp' Hp]. rewrite !filter_cons. cbn [fst snd].
  rewrite (IH Hg Hp).
  destruct (decide (key_of a p = key_of cls cls)) as [He | Hne];
    destruct (decide ((a, p) = (cls, cls))) as [He' | Hne']; try reflexivity.
  - exfalso. apply key_of_inj in He as [Ea Ep]; auto. congruence.
  - exfalso. injection He' as Ea Ep. subst. congruence.
Qed.

Lemma filter_none {A} (P : A -> Prop) `{!forall x, Decision (P x)} (l : list A) :
  (forall x, x ∈ l -> ~ P x) -> filter P l = [].
Proof.
  induction l as [| x l IH]; intros Hall; [reflexivity |].
  rewrite filter_cons_False by (apply Hall; left).
  apply IH. intros y Hy. apply Hall. right. exact Hy.
Qed.

(** Among distinct classes, a pair sits on the diagonal of at most one. *)
Lemma diagonal_hits (classes : list label) (a p : label) :
  NoDup classes -> a ∈ classes ->
  length (filter (fun cls => (a, p) = (cls, cls)) classes)
  = if decide (a = p) then 1%nat else 0%nat.
Proof.
  induction classes as [| cls classes IH]; intros Hnd Ha; [inversion Ha |].
  apply NoDup_cons in Hnd as [Hout Hnd]. rewrite filter_cons.
  destruct (decide ((a, p) = (cls, cls))) as [He | Hne].
  - injection He as -> ->. destruct (decide (cls = cls)); [| congruence].
    rewrite filter_none; [reflexivity |].
    intros x Hx [= -> _]. contradiction.
  - apply elem_of_cons in Ha as [-> | Ha].
    + destruct (decide (cls = p)) as [-> | Hp]; [congruence |].
      rewrite filter_none; [reflexivity |]. intros x Hx [= -> <-]. congruence.
    + apply IH; assumption.
Qed.

Lemma diagonal_of_class_list (pairs : list (label * label)) (classes : list label) :
  NoDup classes -> Forall (fun p => fst p ∈ classes) pairs ->
  fold_right (fun cls sum => pairs_on_diagonal cls pairs + sum) 0 classes
  = Z.of_nat (length (filter (fun p => fst p = snd p) pairs)).
Proof.
  intros Hnd. induction pairs as [| [a p] pairs IH]; intros Hin.
  - clear Hnd Hin. induction classes as [| cls classes IHc]; [reflexivity |].
    cbn [fold_right]. rewrite IHc. reflexivity.
  - apply Forall_cons in Hin as [Ha Hin]. cbn [fst] in Ha.
    rewrite filter_cons. cbn [fst snd].
    assert (Hsplit : forall cs,
      fold_right (fun cls sum => pairs_on_diagonal cls ((a, p) :: pairs) + sum) 0 cs
      = fold_right (fun cls sum => pairs_on_diagonal cls pairs + sum) 0 cs
        + Z.of_nat (length (filter (fun cls => (a, p) = (cls, cls)) cs))).
    { induction cs as [| cls cs IHc]; [reflexivity |].
      cbn [fold_right]. rewrite IHc. unfold pairs_on_diagonal. rewrite !filter_cons.
      destruct (decide ((a, p) = (cls, cls))); cbn [length]; lia. }
    rewrite Hsplit, (IH Hin), (diagonal_hits classes a p Hnd Ha).
    destruct (decide (a = p)); cbn [length]; lia.
Qed.

(** For plain labels the diagonal of the matrix adds up to [correct]. *)
Lemma plain_diagonal_sum (pairs : list (label * label)) :
  Forall plain (fst <$> pairs) -> Forall plain (snd <$> pairs) ->
  let c := createConfusionMatrix (fst <$> pairs) (snd <$> pairs) in
  diagonal_sum c (distinct ((fst <$> pairs) ++ (snd <$> pairs))) = correct c.
Proof.
  intros Hg Hp c. unfold c. rewrite correct_counts_equal_pairs.
  set (classes := distinct _).
  assert (Hplain : Forall plain classes).
  { apply Forall_forall. intros x Hx. apply distinct_elem, elem_of_app in Hx as [Hx | Hx].
    - rewrite Forall_forall in Hg. apply Hg, Hx.
    - rewrite Forall_forall in Hp. apply Hp, Hx. }
  rewrite <- (diagonal_of_class_list pairs classes).
  - unfold diagonal_sum. clear -Hg Hp Hplain. induction Hplain as [| cls cs Hc _ IH]; [reflexivity |].
    cbn [fold_right]. rewrite IH, (plain_diagonal_entry pairs cls Hg Hp Hc). reflexivity.
  - apply distinct_from_NoDup.
  - apply Forall_forall. intros [a p] Hin. cbn [fst]. apply distinct_elem, elem_of_app. left.
    apply list_elem_of_fmap. exists (a, p). split; [reflexivity | exact Hin].
Qed.

End PlainLabels.

(** ** Macro precision, recall and F1 *)

Module MacroTheorem.
Import JS ModelEvaluator MetricsSpec ConfusionFacts MacroFacts PlainLabels Samples.



End MacroTheorem.

(** ** Folds whose failure the aggregation recognises *)

Module HonestFolds.
Import JS Data CrossValidator FoldOutcomes.

Lemma run_folds_length evaluationFunction fs i :
  length (run_folds evaluationFunction fs i) = length fs.
Proof.
  revert i. induction fs as [| f fs IH]; intros i; cbn; [reflexivity |].
  rewrite IH. reflexivity.
Qed.


(** A caught error is recorded under [error] in the entry of its fold. *)
Lemma thrown_error_recorded f message :
  fold_entry f (Throw message) !! "error" = Some (VStr message).
Proof.
  cbn. rewrite !lookup_insert_ne by discriminate. apply lookup_insert_eq.
Qed.

Lemma returned_error_key f foldResult :
  fold_entry f (Return foldResult) !! "error" = to_value <$> (foldResult !! "error").
Proof.
  cbn. rewrite !lookup_insert_ne by discriminate.
  rewrite lookup_union, lookup_fmap, lookup_singleton_ne by discriminate.
  destruct (foldResult !! "error"); reflexivity.
Qed.

Lemma recognised_valid f o :
  recognised o -> falsy (fold_entry f o !! "error") = returned o.
Proof.
  destruct o as [foldResult | message]; intros H.
  - rewrite returned_error_key. exact H.
  - rewrite thrown_error_recorded. cbn. destruct (String.eqb_spec message ""); congruence.
Qed.

Lemma valid_results evaluationFunction fs i :
  Forall recognised (outcomes evaluationFunction fs i) ->
  filter (fun r => falsy (r !! "error") = true) (run_folds evaluationFunction fs i)
  = returned_entries fs (outcomes evaluationFunction fs i).
Proof.
  revert i. induction fs as [| f fs IH]; intros i H; [reflexivity |].
  cbn [outcomes run_folds returned_entries] in *. apply Forall_cons in H as [Ho H].
  rewrite filter_cons, (recognised_valid f _ Ho), (IH _ H).
  destruct (returned _); [rewrite decide_True by reflexivity | rewrite decide_False by discriminate];
    reflexivity.
Qed.

Lemma returned_entries_length fs os :
  length fs = length os ->
  length (returned_entries fs os) = length (filter (fun o => returned o = true) os).
Proof.
  revert os. induction fs as [| f fs IH]; intros [| o os] H; try discriminate; [reflexivity |].
  cbn [returned_entries]. rewrite filter_cons. injection H as H.
  destruct (returned o); [rewrite decide_True by reflexivity | rewrite decide_False by discriminate];
    cbn [length]; rewrite (IH os H); reflexivity.
Qed.

Lemma outcomes_length evaluationFunction fs i :
  length (outcomes evaluationFunction fs i) = length fs.
Proof.
  revert i. induction fs as [| f fs IH]; intros i; cbn; [reflexivity |].
  rewrite IH. reflexivity.
Qed.

Lemma thrown_plus_returned {A} (os : list (outcome A)) :
  (length (filter (fun o => is_throw o = true) os)
   + length (filter (fun o => returned o = true) os) = length os)%nat.
Proof.
  induction os as [| o os IH]; [reflexivity |].
  rewrite !filter_cons. unfold returned in *.
  destruct o; cbn [is_throw negb]; repeat case_decide; try discriminate; cbn [length]; lia.
Qed.

Section Aggregated.
Variable sqrt : Q -> Q.

(** Every aggregated metric is computed from the list of valid results. *)
Lemma metrics_from_valid (validResults : list (gmap string value)) (ks : list string)
    (acc : gmap string stat) :
  (forall metric s, acc !! metric = Some s ->
     values s = metric_values metric validResults) ->
  forall metric s,
    fold_left (add_metric sqrt validResults) ks acc !! metric = Some s ->
    values s = metric_values metric validResults.
Proof.
  revert acc. induction ks as [| key ks IH]; intros acc Hacc metric s; cbn [fold_left].
  - apply Hacc.
  - apply IH. intros metric' s'. unfold add_metric.
    destruct (metric_values key validResults) as [| v vs] eqn:Hv; [apply Hacc |].
    destruct (decide (key = metric')) as [-> | Hne].
    + rewrite lookup_insert_eq. intros [= <-]. cbn [values]. symmetry. exact Hv.
    + rewrite lookup_insert_ne by exact Hne. apply Hacc.
Qed.

(** When every outcome is recognised, the aggregation counts exactly the
    throwing folds as failed, throws exactly when no fold returned, and takes
    the values of every metric from the entries of the returning folds. *)
Lemma recognised_aggregation evaluationFunction fs i info :
  Forall recognised (outcomes evaluationFunction fs i) ->
  let os := outcomes evaluationFunction fs i in
  let thrown := Z.of_nat (length (filter (fun o => is_throw o = true) os)) in
  match aggregateCrossValidationResults sqrt (run_folds evaluationFunction fs i) info with
  | Throw _ => thrown = Z.of_nat (length fs)
  | Return agg =>
      failed_folds agg = thrown /\
      successful_folds agg = Z.of_nat (length fs) - thrown /\
      0 < successful_folds agg /\
      fold_results agg = run_folds evaluationFunction fs i /\
      forall metric s, metrics agg !! metric = Some s ->
        values s = metric_values metric (returned_entries fs os)
  end.
Proof.
  intros H os thrown. unfold aggregateCrossValidationResults.
  rewrite (valid_results _ _ _ H). fold os.
  pose proof (returned_entries_length fs os
                ltac:(unfold os; rewrite outcomes_length; reflexivity)) as Hlen.
  pose proof (thrown_plus_returned os) as Hsum.
  assert (Hos : length os = length fs) by apply outcomes_length.
  destruct (returned_entries fs os) as [| sampleResult rest] eqn:Hv.
  - cbn [length] in Hlen. unfold thrown. lia.
  - cbn [failed_folds successful_folds fold_results metrics].
    rewrite run_folds_length. unfold thrown.
    split; [lia |]. split; [lia |]. split; [cbn [length]; lia |]. split; [reflexivity |].
    apply metrics_from_valid. intros metric s Hs. rewrite lookup_empty in Hs. discriminate.
Qed.

End Aggregated.

End HonestFolds.

(** ** Fold failures in cross-validation *)

Module CrossValidationFacts.
Import JS Data CrossValidator Samples.

(** C4 at two failing inputs.  A fold whose callback throws an error with
    an empty message is counted as successful: [failed_folds] is 0 although
    one fold of two failed, and as that fold's entry is the first "valid"
    result, no metric is aggregated at all.  A run in which every fold
    succeeds but reports a non-zero metric named [error] throws "all folds
    failed". *)
Theorem failed_folds_miscounted (sqrt : Q -> Q) :
  (exists agg,
     performCrossValidation sqrt two_folds two_rows throws_empty_message None = Return agg /\
     successful_folds agg = 2 /\
     failed_folds agg = 0 /\
     metrics agg = ∅ /\
     (exists entry, fold_results agg !! 0%nat = Some entry /\
                    entry !! "error" = Some (VStr ""))) /\
  performCrossValidation sqrt two_folds two_rows reports_error_rate None
  = Throw "All cross-validation folds failed".
Proof.
  split.
  - eexists. split; [vm_compute; reflexivity |]. cbn [successful_folds failed_folds fold_results].
    split; [reflexivity |]. split; [reflexivity |]. split; [vm_compute; reflexivity |].
    eexists. split; [reflexivity |]. vm_compute. reflexivity.
  - vm_compute. reflexivity.
Qed.

End CrossValidationFacts.

(** ** Further properties of the splitter *)

Module SplitFacts.
Import JS Rng Data DataSplitter FoldSpec GroupSpec SplitSpec RngFacts RngRange
       ShuffleFacts FoldFacts KFoldFacts GroupFacts.

Lemma state_after_shift (st : Z) (n : nat) :
  state_after (next_state st) n = next_state (state_after st n).
Proof.
  induction n as [| n IH]; [reflexivity |]. cbn [state_after]. rewrite IH. reflexivity.
Qed.

Lemma shuffle_from_state {A} (i : nat) (array : list A) (st : Z) :
  snd (shuffle_from i array st) = state_after st i.
Proof.
  revert array st. induction i as [| i IH]; intros array st; [reflexivity |].
  cbn [shuffle_from]. unfold rng. cbn zeta. rewrite IH, state_after_shift. reflexivity.
Qed.

(** X1.  [shuffleArray] returns a permutation of its array, of the same
    length, and advances the generator by exactly length - 1 draws (none for
    an empty or one-element array). *)
Theorem shuffleArray_permutes {A} (array : list A) (st : Z) :
  fst (shuffleArray array st) ≡ₚ array /\
  length (fst (shuffleArray array st)) = length array /\
  snd (shuffleArray array st) = state_after st (length array - 1).
Proof.
  split; [apply shuffleArray_perm |]. split; [apply shuffleArray_length |].
  apply shuffle_from_state.
Qed.











(** X4.  [kFoldSplit] throws exactly when k is below 2 or above the size of
    the data, with the message of the failed check, and a call that throws
    has drawn nothing from the generator. *)
Theorem kFoldSplit_rejects (data : list record) (k : Z) (shuffle : bool)
    (stratify : option string) (st : Z) :
  (is_throw (fst (kFoldSplit data k shuffle stratify st)) = true
   <-> k < 2 \/ Z.of_nat (length data) < k) /\
  (k < 2 -> kFoldSplit data k shuffle stratify st = (Throw "k must be at least 2", st)) /\
  (2 <= k -> Z.of_nat (length data) < k ->
   kFoldSplit data k shuffle stratify st
   = (Throw "k cannot be larger than dataset size", st)).
Proof.
  unfold kFoldSplit.
  destruct (Z.ltb_spec k 2) as [Hk | Hk].
  { split; [cbn; split; auto | split; [reflexivity | lia]]. }
  destruct (Z.ltb_spec (Z.of_nat (length data)) k) as [Hn | Hn].
  { split; [cbn; split; auto | split; [lia | reflexivity]]. }
  split; [| split; lia].
  destruct (if shuffle then shuffleArray data st else (data, st)) as [dataCopy st'].
  split; [| lia]. intros H. exfalso.
  destruct stratify as [field |]; [| discriminate].
  destruct (truthy (Some field)); [| discriminate].
  destruct (stratifiedKFoldSplit dataCopy k field st'). discriminate.
Qed.

End SplitFacts.

(** ** Shape of the folds in both modes of [kFoldSplit] *)

Module FoldShape.
Import JS Rng Data DataSplitter FoldSpec GroupSpec SplitSpec ShuffleFacts FoldFacts
       KFoldFacts GroupFacts StratifiedFacts StratifiedKFold.

(** Train and test part of every accumulated fold grow by one whole group
    at each turn of the loop of [distribute]. *)
Lemma distribute_complement (kn : nat) (Hk : (0 < kn)%nat) groups :
  forall acc st, length acc = kn ->
    forall i f, acc !! i = Some f ->
      exists f', fst (distribute groups (Z.of_nat kn) acc st) !! i = Some f' /\
                 fst f' ++ snd f' ≡ₚ (fst f ++ snd f) ++ concat (snd <$> groups).
Proof.
  induction groups as [| [c0 items] rest IH]; intros acc st Hlen i f Hf; cbn [distribute].
  - exists f. split; [exact Hf |]. cbn. rewrite app_nil_r. reflexivity.
  - pose proof (shuffleArray_perm items st) as Hsh.
    destruct (shuffleArray items st) as [shuffled st']. cbn [fst] in Hsh.
    assert (Hn : length items = length shuffled) by (symmetry; apply Permutation_length, Hsh).
    rewrite Hn. fold (push_group kn shuffled (Z.of_nat (length shuffled)) acc).
    set (acc1 := push_group kn shuffled (Z.of_nat (length shuffled)) acc).
    assert (Hlen1 : length acc1 = kn) by (apply (push_group_length kn Hk), Hlen).
    assert (Hi : (i < kn)%nat) by (apply lookup_lt_Some in Hf; lia).
    destruct (IH acc1 st' Hlen1 i _ (push_group_lookup kn Hk shuffled acc i f Hf Hi))
      as (f' & Hf' & Hp).
    exists f'. split; [exact Hf' |]. rewrite Hp. cbn [fst snd fmap list_fmap concat].
    rewrite (app_assoc _ items). apply Permutation_app_tail.
    transitivity ((fst f ++ snd f) ++ shuffled); [| rewrite Hsh; reflexivity].
    rewrite <- (train_test_perm shuffled kn i Hk Hi) at 3.
    set (tr := train_part shuffled kn i). set (te := test_part shuffled kn i).
    rewrite <- !app_assoc. apply Permutation_app_head.
    rewrite !app_assoc. apply Permutation_app_tail, Permutation_app_comm.
Qed.

Lemma stratified_fold_shape (data : list record) (field : string) (kn : nat) (st : Z) :
  (0 < kn)%nat ->
  forall i f,
    folds (fst (stratifiedKFoldSplit data (Z.of_nat kn) field st)) !! i = Some f ->
    well_formed_fold data i f.
Proof.
  intros Hk i f. unfold stratifiedKFoldSplit.
  set (empty := (fun _ : Z => ([] : list record, [] : list record)) <$> seqZ 0 (Z.of_nat kn)).
  assert (Hlen : length empty = kn)
    by (unfold empty; rewrite length_fmap, length_seqZ; lia).
  pose proof (distribute_complement kn Hk (group_by field data) empty st Hlen) as Hc.
  destruct (distribute (group_by field data) (Z.of_nat kn) empty st) as [parts st'].
  cbn [fst folds] in *. intros Hf.
  apply lookup_zip_with_Some in Hf as (z & p & -> & Hz & Hparts).
  apply lookup_seqZ in Hz as [-> Hi].
  destruct (lookup_lt_is_Some_2 empty i ltac:(lia)) as [e He].
  destruct (Hc i e He) as (p' & Hp' & Hperm).
  assert (p' = p) by congruence. subst p'.
  apply empty_parts_lookup in He. subst e. cbn [fst snd app] in Hperm.
  unfold well_formed_fold, make_fold. cbn [fold_no train_size test_size f_train f_test].
  split; [lia |]. split; [reflexivity |]. split; [reflexivity |].
  rewrite Hperm. apply group_by_perm.
Qed.

Lemma simple_fold_shape (data dataCopy : list record) (kn : nat) :
  dataCopy ≡ₚ data -> (0 < kn)%nat ->
  forall i f,
    folds (simple_folds data dataCopy (Z.of_nat kn)) !! i = Some f ->
    well_formed_fold data i f.
Proof.
  intros Hperm Hk i f.
  rewrite (simple_folds_nat data dataCopy kn (Permutation_length Hperm) Hk).
  rewrite list_lookup_fmap. destruct (seq 0 kn !! i) as [n |] eqn:Hn; [| discriminate].
  apply lookup_seq in Hn as [-> Hn]. cbn. intros [= <-].
  unfold well_formed_fold, nat_fold, make_fold.
  cbn [fold_no train_size test_size f_train f_test fst snd].
  split; [lia |]. split; [reflexivity |]. split; [reflexivity |].
  rewrite train_test_perm by lia. exact Hperm.
Qed.

(** In both modes, a call with a valid k returns k well-formed folds whose
    test sets together are the data. *)
Lemma kFoldSplit_shape (data : list record) (k : Z) (shuffle : bool)
    (stratify : option string) (st : Z) :
  2 <= k <= Z.of_nat (length data) ->
  exists r st',
    kFoldSplit data k shuffle stratify st = (Return r, st') /\
    length (folds r) = Z.to_nat k /\
    concat (f_test <$> folds r) ≡ₚ data /\
    (forall i f, folds r !! i = Some f -> well_formed_fold data i f) /\
    cv_info r = make_info k (truthy stratify) (Z.of_nat (length data)) (folds r).
Proof.
  intros Hk.
  assert (Hkn : (0 < Z.to_nat k)%nat) by lia.
  destruct (truthy stratify) eqn:Hs.
  - destruct stratify as [field |]; [| discriminate].
    unfold kFoldSplit.
    destruct (Z.ltb_spec k 2); [lia |].
    destruct (Z.ltb_spec (Z.of_nat (length data)) k); [lia |].
    fold (data_copy data shuffle st).
    pose proof (data_copy_perm data shuffle st) as Hperm.
    destruct (data_copy data shuffle st) as [dataCopy st']. cbn [fst] in Hperm.
    rewrite Hs.
    pose proof (stratified_folds dataCopy field (Z.to_nat k) st' Hkn) as Hf.
    pose proof (stratified_fold_shape dataCopy field (Z.to_nat k) st' Hkn) as Hsh.
    rewrite Z2Nat.id in Hf, Hsh by lia. cbv zeta in Hf.
    assert (Hinfo : cv_info (fst (stratifiedKFoldSplit dataCopy k field st'))
                    = make_info k true (Z.of_nat (length dataCopy))
                        (folds (fst (stratifiedKFoldSplit dataCopy k field st')))).
    { unfold stratifiedKFoldSplit. destruct (distribute _ _ _ _). reflexivity. }
    destruct (stratifiedKFoldSplit dataCopy k field st') as [r st''].
    cbn [fst] in *. destruct Hf as (Hlen & Htests & _).
    exists r, st''. split; [reflexivity |]. split; [exact Hlen |].
    split; [rewrite Htests; exact Hperm |]. split.
    + intros i f Hif. destruct (Hsh i f Hif) as (H1 & H2 & H3 & H4).
      repeat split; try assumption. rewrite H4. exact Hperm.
    + rewrite Hinfo, (Permutation_length Hperm). reflexivity.
  - rewrite (kFoldSplit_simple_eq _ _ _ _ _ Hk Hs).
    pose proof (data_copy_perm data shuffle st) as Hperm.
    set (dataCopy := fst (data_copy data shuffle st)) in *.
    eexists _, _. split; [reflexivity |].
    pose proof (simple_fold_shape data dataCopy (Z.to_nat k) Hperm Hkn) as Hsh.
    pose proof (simple_folds_nat data dataCopy (Z.to_nat k) (Permutation_length Hperm) Hkn) as Hn.
    rewrite Z2Nat.id in Hsh, Hn by lia.
    split; [rewrite Hn, length_fmap, length_seq; reflexivity |].
    split; [rewrite Hn, nat_folds_tests by exact Hkn; exact Hperm |].
    split; [exact Hsh | reflexivity].
Qed.

Lemma sum_sizes_from (size : fold -> Z) (fs : list fold) (a : Z) :
  fold_left (fun sum f => sum + size f) fs a = a + sum_sizes size fs.
Proof.
  unfold sum_sizes. revert a. induction fs as [| f fs IH]; intros a; cbn [fold_left].
  - lia.
  - rewrite (IH (a + size f)), (IH (0 + size f)). lia.
Qed.

Lemma sum_sizes_cons (size : fold -> Z) (f : fold) (fs : list fold) :
  sum_sizes size (f :: fs) = size f + sum_sizes size fs.
Proof. unfold sum_sizes at 1. cbn [fold_left]. rewrite sum_sizes_from. lia. Qed.

Lemma sum_test_sizes (fs : list fold) :
  Forall (fun f => test_size f = Z.of_nat (length (f_test f))) fs ->
  sum_sizes test_size fs = Z.of_nat (length (concat (f_test <$> fs))).
Proof.
  induction 1 as [| f fs Hf _ IH]; [reflexivity |].
  rewrite sum_sizes_cons, IH, Hf. cbn [fmap list_fmap concat].
  rewrite length_app. lia.
Qed.

Lemma sum_train_sizes (n : Z) (fs : list fold) :
  Forall (fun f => train_size f = n - test_size f) fs ->
  sum_sizes train_size fs = Z.of_nat (length fs) * n - sum_sizes test_size fs.
Proof.
  induction 1 as [| f fs Hf _ IH]; [reflexivity |].
  rewrite !sum_sizes_cons, IH, Hf. cbn [length]. lia.
Qed.

(** X5.  In the stratified as in the plain mode, with 2 <= k <= N,
    [kFoldSplit] returns k folds numbered 1..k; in each of them the train set
    is the rest of the data (train and test together hold every record
    exactly once), the reported sizes are the lengths of the two sets, and
    the k test sets together hold every record exactly once. *)
Theorem kFoldSplit_complement (data : list record) (k : Z) (shuffle : bool)
    (stratify : option string) (st : Z) :
  2 <= k <= Z.of_nat (length data) ->
  exists r st',
    kFoldSplit data k shuffle stratify st = (Return r, st') /\
    Z.of_nat (length (folds r)) = k /\
    concat (f_test <$> folds r) ≡ₚ data /\
    forall i f, folds r !! i = Some f ->
      fold_no f = Z.of_nat i + 1 /\
      f_train f ++ f_test f ≡ₚ data /\
      train_size f = Z.of_nat (length (f_train f)) /\
      test_size f = Z.of_nat (length (f_test f)) /\
      train_size f + test_size f = Z.of_nat (length data).
Proof.
  intros Hk.
  destruct (kFoldSplit_shape data k shuffle stratify st Hk)
    as (r & st' & Heq & Hlen & Htests & Hshape & _).
  exists r, st'. split; [exact Heq |]. split; [lia |]. split; [exact Htests |].
  intros i f Hf. destruct (Hshape i f Hf) as (H1 & H2 & H3 & H4).
  repeat split; try assumption.
  rewrite H2, H3, <- (Permutation_length H4), length_app. lia.
Qed.

Lemma kFoldSplit_complement_witness :
  exists r st',
    kFoldSplit Samples.five 2 true (Some "articletype") 42 = (Return r, st') /\
    Z.of_nat (length (folds r)) = 2 /\
    concat (f_test <$> folds r) ≡ₚ Samples.five /\
    forall i f, folds r !! i = Some f ->
      fold_no f = Z.of_nat i + 1 /\
      f_train f ++ f_test f ≡ₚ Samples.five /\
      train_size f = Z.of_nat (length (f_train f)) /\
      test_size f = Z.of_nat (length (f_test f)) /\
      train_size f + test_size f = Z.of_nat (length Samples.five).
Proof.
  apply (kFoldSplit_complement Samples.five 2 true (Some "articletype") 42). cbn; lia.
Defined.

(** X6.  In both modes with 2 <= k <= N, the summary returned by
    [kFoldSplit] reports k, the mode, N as the total, round(N / k) as the
    average test size and round((k - 1) * N / k) as the average train size:
    the test sizes of the folds add up to N and the train sizes to
    (k - 1) * N. *)
Theorem kFoldSplit_summary (data : list record) (k : Z) (shuffle : bool)
    (stratify : option string) (st : Z) :
  2 <= k <= Z.of_nat (length data) ->
  exists r st',
    kFoldSplit data k shuffle stratify st = (Return r, st') /\
    sum_sizes test_size (folds r) = Z.of_nat (length data) /\
    sum_sizes train_size (folds r) = (k - 1) * Z.of_nat (length data) /\
    fi_k (cv_info r) = k /\
    fi_stratified (cv_info r) = truthy stratify /\
    fi_total_samples (cv_info r) = Z.of_nat (length data) /\
    avg_test_size (cv_info r) = round (inject_Z (Z.of_nat (length data)) / inject_Z k) /\
    avg_train_size (cv_info r)
    = round (inject_Z ((k - 1) * Z.of_nat (length data)) / inject_Z k).
Proof.
  intros Hk.
  destruct (kFoldSplit_shape data k shuffle stratify st Hk)
    as (r & st' & Heq & Hlen & Htests & Hshape & Hinfo).
  assert (Htest : sum_sizes test_size (folds r) = Z.of_nat (length data)).
  { rewrite sum_test_sizes, (Permutation_length Htests); [reflexivity |].
    apply Forall_lookup. intros i f Hf. apply (Hshape i f Hf). }
  assert (Htrain : sum_sizes train_size (folds r) = (k - 1) * Z.of_nat (length data)).
  { rewrite (sum_train_sizes (Z.of_nat (length data))), Htest, Hlen; [lia |].
    apply Forall_lookup. intros i f Hf. destruct (Hshape i f Hf) as (_ & H2 & H3 & H4).
    rewrite H2, H3, <- (Permutation_length H4), length_app. lia. }
  exists r, st'. split; [exact Heq |]. split; [exact Htest |]. split; [exact Htrain |].
  rewrite Hinfo. cbn [make_info fi_k fi_stratified fi_total_samples avg_test_size
                      avg_train_size].
  rewrite Htest, Htrain. repeat split; reflexivity.
Qed.

Lemma kFoldSplit_summary_witness :
  exists r st',
    kFoldSplit Samples.five 2 true None 42 = (Return r, st') /\
    sum_sizes test_size (folds r) = Z.of_nat (length Samples.five) /\
    sum_sizes train_size (folds r) = (2 - 1) * Z.of_nat (length Samples.five) /\
    fi_k (cv_info r) = 2 /\
    fi_stratified (cv_info r) = truthy None /\
    fi_total_samples (cv_info r) = Z.of_nat (length Samples.five) /\
    avg_test_size (cv_info r)
    = round (inject_Z (Z.of_nat (length Samples.five)) / inject_Z 2) /\
    avg_train_size (cv_info r)
    = round (inject_Z ((2 - 1) * Z.of_nat (length Samples.five)) / inject_Z 2).
Proof.
  apply (kFoldSplit_summary Samples.five 2 true None 42). cbn; lia.
Defined.

End FoldShape.

(** ** Bootstrap samples and leave-one-out folds *)

Module Resampling.
Import JS Rng Data DataSplitter FoldSpec SplitSpec RngFacts RngRange ShuffleFacts
       FoldFacts SplitFacts.

Lemma pick_in_data (data : list record) (st : Z) :
  drawn_from data (data !! Z.to_nat (pick (fst (rng st)) (Z.of_nat (length data)))).
Proof.
  destruct data as [| d data]; [reflexivity |].
  set (l := d :: data).
  pose proof (shuffle_index_range st (length data)) as Hr.
  replace (Z.of_nat (length data) + 1) with (Z.of_nat (length l)) in Hr
    by (unfold l; cbn [length]; lia).
  destruct (lookup_lt_is_Some_2 l (Z.to_nat (pick (fst (rng st)) (Z.of_nat (length l)))))
    as [x Hx].
  { unfold l in *. cbn [length] in *. lia. }
  exists x. split; [exact Hx |]. eapply list_elem_of_lookup_2, Hx.
Qed.

Lemma draw_spec (data : list record) (n : nat) :
  forall st,
    length (fst (draw data n st)) = n /\
    Forall (drawn_from data) (fst (draw data n st)) /\
    snd (draw data n st) = state_after st n.
Proof.
  induction n as [| n IH]; intros st; [repeat split; constructor |].
  cbn [draw]. pose proof (pick_in_data data st) as Hpick.
  pose proof (rng_state st) as Hnext.
  destruct (rng st) as [u st1]. cbn [fst snd] in Hpick, Hnext. subst st1.
  specialize (IH (next_state st)).
  destruct (draw data n (next_state st)) as [sample st''].
  cbn [fst snd] in *. destruct IH as (Hlen & Hall & Hst).
  split; [cbn [length]; rewrite Hlen; reflexivity |]. split.
  - constructor; [exact Hpick | exact Hall].
  - rewrite Hst. apply state_after_shift.
Qed.

Lemma state_after_add (st : Z) (a b : nat) :
  state_after (state_after st a) b = state_after st (a + b).
Proof.
  induction b as [| b IH]; [rewrite Nat.add_0_r; reflexivity |].
  rewrite Nat.add_succ_r. cbn [state_after]. rewrite IH. reflexivity.
Qed.

Lemma draw_samples_spec (data : list record) (size : nat) (numSamples : nat) :
  forall st,
    length (fst (draw_samples data numSamples size st)) = numSamples /\
    Forall (fun sample => length sample = size /\ Forall (drawn_from data) sample)
           (fst (draw_samples data numSamples size st)) /\
    snd (draw_samples data numSamples size st) = state_after st (numSamples * size).
Proof.
  induction numSamples as [| n IH]; intros st; [repeat split; constructor |].
  cbn [draw_samples].
  destruct (draw_spec data size st) as (Hlen & Hall & Hst).
  destruct (draw data size st) as [sample st1]. cbn [fst snd] in *.
  specialize (IH st1).
  destruct (draw_samples data n size st1) as [samples st2]. cbn [fst snd] in *.
  destruct IH as (Hn & Hs & Hst2).
  split; [cbn [length]; lia |]. split.
  - constructor; [split; assumption | exact Hs].
  - rewrite Hst2, Hst, state_after_add. reflexivity.
Qed.

(** X7.  [bootstrapSample] returns numSamples samples, each of sampleSize
    entries (of as many entries as the data has when sampleSize is null or
    0); over non-empty data every entry is a record of the data, over empty
    data every entry is undefined; and the generator advances by one draw
    per entry. *)
Theorem bootstrapSample_shape (data : list record) (numSamples : nat)
    (sampleSize : option nat) (st : Z) :
  exists samples,
    bootstrapSample data numSamples sampleSize st
    = (Return samples,
       state_after st (numSamples * sample_size data sampleSize)) /\
    length samples = numSamples /\
    Forall (fun sample =>
              length sample = sample_size data sampleSize /\
              Forall (drawn_from data) sample) samples.
Proof.
  unfold bootstrapSample. fold (sample_size data sampleSize).
  destruct (draw_samples_spec data (sample_size data sampleSize) numSamples st)
    as (Hn & Hs & Hst).
  destruct (draw_samples data numSamples (sample_size data sampleSize) st)
    as [samples st'].
  cbn [fst snd] in *. exists samples. rewrite Hst. repeat split; assumption.
Qed.

Lemma concat_singletons {A} (l : list A) :
  forall ls : list (list A),
    length l = length ls ->
    (forall i x, l !! i = Some x -> ls !! i = Some [x]) ->
    concat ls = l.
Proof.
  induction l as [| a l IH]; intros [| b ls] Hlen Hl; try discriminate; [reflexivity |].
  pose proof (Hl 0%nat a eq_refl) as H0. injection H0 as ->.
  cbn. f_equal. apply IH; [cbn in Hlen; lia |].
  intros i x Hx. apply (Hl (S i) x Hx).
Qed.

(** The fold that [leaveOneOutSplit] builds for index [i]. *)
Lemma leave_one_out_lookup (data : list record) (st : Z) (i : nat) (x : record) :
  data !! i = Some x ->
  exists splits f,
    leaveOneOutSplit data st = (Return splits, st) /\
    length splits = length data /\
    splits !! i = Some f /\
    fold_no f = Z.of_nat i + 1 /\
    f_test f = [x] /\
    f_train f = delete i data /\
    train_size f = Z.of_nat (length (f_train f)) /\
    test_size f = Z.of_nat (length (f_test f)).
Proof.
  intros Hx. pose proof (lookup_lt_Some _ _ _ Hx) as Hi.
  unfold leaveOneOutSplit. eexists _, _. split; [reflexivity |].
  split; [rewrite length_fmap, length_seqZ; lia |].
  split.
  { rewrite seqZ_nat, <- list_fmap_compose, list_lookup_fmap, lookup_seq_lt by exact Hi.
    reflexivity. }
  cbn [fold_no f_test f_train train_size test_size compose Nat.add].
  assert (Htest : slice data (Z.of_nat i) (Some (Z.of_nat i + 1)) = [x]).
  { replace (Z.of_nat i + 1) with (Z.of_nat (S i)) by lia.
    rewrite slice_inside by lia. replace (S i - i)%nat with 1%nat by lia.
    rewrite (drop_S _ _ _ Hx). reflexivity. }
  assert (Htrain : slice data 0 (Some (Z.of_nat i)) ++ slice data (Z.of_nat i + 1) None
                   = delete i data).
  { replace (Z.of_nat i + 1) with (Z.of_nat (S i)) by lia.
    rewrite slice_prefix, slice_to_end, delete_take_drop by lia. reflexivity. }
  rewrite Htest, Htrain. split; [reflexivity |]. split; [reflexivity |].
  split; [reflexivity |]. split; [| reflexivity].
  rewrite length_delete by (exists x; exact Hx). lia.
Qed.

(** X8.  [leaveOneOutSplit] does not touch the generator and returns one
    fold per record, in the order of the data: fold i (numbered i + 1) tests
    exactly the i-th record and trains on the data with that one position
    removed, in the original order; its reported sizes are the sizes of the
    two lists. *)
Theorem leaveOneOutSplit_folds (data : list record) (st : Z) :
  exists splits,
    leaveOneOutSplit data st = (Return splits, st) /\
    length splits = length data /\
    concat (f_test <$> splits) = data /\
    forall i f, splits !! i = Some f ->
      exists x, data !! i = Some x /\
        fold_no f = Z.of_nat i + 1 /\
        f_test f = [x] /\
        f_train f = delete i data /\
        f_train f ++ f_test f ≡ₚ data /\
        train_size f = Z.of_nat (length (f_train f)) /\
        test_size f = Z.of_nat (length (f_test f)).
Proof.
  eexists. split; [reflexivity |].
  set (splits := _ <$> seqZ 0 (Z.of_nat (length data))).
  assert (Hlen : length splits = length data)
    by (unfold splits; rewrite length_fmap, length_seqZ; lia).
  assert (Hfold : forall i f, splits !! i = Some f ->
            exists x, data !! i = Some x /\
              fold_no f = Z.of_nat i + 1 /\ f_test f = [x] /\
              f_train f = delete i data /\
              train_size f = Z.of_nat (length (f_train f)) /\
              test_size f = Z.of_nat (length (f_test f))).
  { intros i f Hf.
    destruct (lookup_lt_is_Some_2 data i) as [x Hx].
    { apply lookup_lt_Some in Hf. lia. }
    destruct (leave_one_out_lookup data st i x Hx)
      as (splits' & f' & Heq & _ & Hf' & H1 & H2 & H3 & H4 & H5).
    injection Heq as <-. fold splits in Hf'.
    assert (f' = f) by congruence. subst f'.
    exists x. repeat split; assumption. }
  split; [exact Hlen |]. split.
  - apply concat_singletons; [rewrite length_fmap; symmetry; exact Hlen |]. intros i x Hx.
    rewrite list_lookup_fmap.
    destruct (lookup_lt_is_Some_2 splits i) as [f Hf].
    { apply lookup_lt_Some in Hx. lia. }
    rewrite Hf. destruct (Hfold i f Hf) as (x' & Hx' & _ & Ht & _).
    cbn. rewrite Ht. congruence.
  - intros i f Hf. destruct (Hfold i f Hf) as (x & Hx & H1 & H2 & H3 & H4 & H5).
    exists x. repeat split; try assumption.
    rewrite H2, H3. rewrite (delete_Permutation data i x Hx) at 2.
    symmetry. apply Permutation_cons_append.
Qed.

End Resampling.

(** ** Further properties of cross-validation *)

Module AggregationFacts.
Import JS Data CrossValidator FoldOutcomes SplitSpec ValidationSpec HonestFolds FoldShape.

(** *** Minima and maxima of rationals *)

Section Statistics.
Variable sqrt : Q -> Q.

Lemma Qmin_list_spec (vs : list Q) :
  forall x, Qmin_list x vs ∈ x :: vs /\
            Forall (fun v => Qmin_list x vs <= v)%Q (x :: vs).
Proof.
  unfold Qmin_list. induction vs as [| v vs IH]; intros x; cbn [fold_left].
  - split; [left | repeat constructor; apply Qle_refl].
  - destruct (IH (Qmin x v)) as [Hin Hall].
    apply Forall_cons in Hall as [Hm Hall]. split.
    + apply elem_of_cons in Hin as [-> | Hin]; [| right; right; exact Hin].
      unfold Qmin, GenericMinMax.gmin. destruct (x ?= v)%Q; repeat constructor.
    + constructor; [eapply Qle_trans; [exact Hm | apply Q.le_min_l] |].
      constructor; [eapply Qle_trans; [exact Hm | apply Q.le_min_r] | exact Hall].
Qed.

Lemma Qmax_list_spec (vs : list Q) :
  forall x, Qmax_list x vs ∈ x :: vs /\
            Forall (fun v => v <= Qmax_list x vs)%Q (x :: vs).
Proof.
  unfold Qmax_list. induction vs as [| v vs IH]; intros x; cbn [fold_left].
  - split; [left | repeat constructor; apply Qle_refl].
  - destruct (IH (Qmax x v)) as [Hin Hall].
    apply Forall_cons in Hall as [Hm Hall]. split.
    + apply elem_of_cons in Hin as [-> | Hin]; [| right; right; exact Hin].
      unfold Qmax, GenericMinMax.gmax. destruct (x ?= v)%Q; repeat constructor.
    + constructor; [eapply Qle_trans; [apply Q.le_max_l | exact Hm] |].
      constructor; [eapply Qle_trans; [apply Q.le_max_r | exact Hm] | exact Hall].
Qed.

(** What the loop over the metric keys leaves under a key. *)
Lemma add_metric_lookup (validResults : list (gmap string value)) (ks : list string) :
  forall acc metric s,
    fold_left (add_metric sqrt validResults) ks acc !! metric = Some s ->
    acc !! metric = Some s \/
    (metric ∈ ks /\
     exists v vs, metric_values metric validResults = v :: vs /\
       s = {| mean := mean_of (v :: vs); std := std_of sqrt (v :: vs);
              min := Qmin_list v vs; max := Qmax_list v vs; values := v :: vs |}).
Proof.
  induction ks as [| key ks IH]; intros acc metric s; cbn [fold_left].
  - intros H. left. exact H.
  - intros H. destruct (IH _ _ _ H) as [Hacc | (Hin & Hs)].
    + unfold add_metric in Hacc.
      destruct (metric_values key validResults) as [| v vs] eqn:Hv; [left; exact Hacc |].
      destruct (decide (key = metric)) as [-> | Hne].
      * rewrite lookup_insert_eq in Hacc. injection Hacc as <-.
        right. split; [left |]. exists v, vs. split; [exact Hv | reflexivity].
      * rewrite lookup_insert_ne in Hacc by exact Hne. left. exact Hacc.
    + right. split; [right; exact Hin | exact Hs].
Qed.

Lemma add_metric_keeps (validResults : list (gmap string value)) (ks : list string) :
  forall acc metric,
    metric ∈ ks -> metric_values metric validResults <> [] ->
    is_Some (fold_left (add_metric sqrt validResults) ks acc !! metric).
Proof.
  assert (Hkeep : forall ks acc metric,
            is_Some (acc !! metric) ->
            is_Some (fold_left (add_metric sqrt validResults) ks acc !! metric)).
  { clear ks. induction ks as [| key ks IH]; intros acc metric Hacc; cbn [fold_left];
      [exact Hacc |].
    apply IH. unfold add_metric.
    destruct (metric_values key validResults); [exact Hacc |].
    destruct (decide (key = metric)) as [-> | Hne].
    - rewrite lookup_insert_eq. eexists; reflexivity.
    - rewrite lookup_insert_ne by exact Hne. exact Hacc. }
  induction ks as [| key ks IH]; intros acc metric Hin Hne; [inversion Hin |].
  cbn [fold_left]. apply elem_of_cons in Hin as [-> | Hin]; [| apply IH; assumption].
  apply Hkeep. unfold add_metric.
  destruct (metric_values key validResults); [contradiction |].
  rewrite lookup_insert_eq. eexists; reflexivity.
Qed.

Lemma metric_keys_elem (sampleResult : gmap string value) (key : string) :
  key ∈ metric_keys sampleResult <->
  (key ∉ reserved) /\ exists v, sampleResult !! key = Some v /\ is_number v = true.
Proof.
  unfold metric_keys. rewrite list_elem_of_filter, list_elem_of_fmap. split.
  - intros [[Hres Hnum] _]. split; [exact Hres |].
    destruct (sampleResult !! key) as [v |]; [| discriminate].
    exists v. split; [reflexivity |]. cbn in Hnum. congruence.
  - intros [Hres (v & Hv & Hnum)]. split.
    + split; [exact Hres |]. rewrite Hv. cbn. rewrite Hnum. reflexivity.
    + exists (key, v). split; [reflexivity |]. apply elem_of_map_to_list. exact Hv.
Qed.

(** X9.  Whenever the aggregation of the fold entries returns, the metrics
    it reports are exactly the keys that are not reserved, hold a number in
    the first valid entry and have at least one non-NaN value among the valid
    entries (an entry is valid when its [error] property is falsy); for each
    of them [values] lists those values in fold order, and [min] and [max] are
    members of [values] that bound every value.  It throws only "All
    cross-validation folds failed", and only when no entry is valid. *)
Theorem aggregated_metrics (evaluationFunction : callback) (fs : list DataSplitter.fold)
    (i : Z) (foldInfo : DataSplitter.fold_info) :
  let foldResults := run_folds evaluationFunction fs i in
  let validResults := filter (fun r => falsy (r !! "error") = true) foldResults in
  match aggregateCrossValidationResults sqrt foldResults foldInfo with
  | Throw message =>
      message = "All cross-validation folds failed" /\ validResults = []
  | Return agg =>
      exists sampleResult, head validResults = Some sampleResult /\
      forall metric,
        (is_Some (metrics agg !! metric) <->
         (metric ∉ reserved) /\
         (exists v, sampleResult !! metric = Some v /\ is_number v = true) /\
         metric_values metric validResults <> []) /\
        forall s, metrics agg !! metric = Some s ->
          values s = metric_values metric validResults /\
          min s ∈ values s /\ max s ∈ values s /\
          Forall (fun v => min s <= v /\ v <= max s)%Q (values s)
  end.
Proof.
  intros foldResults validResults. unfold aggregateCrossValidationResults.
  fold validResults.
  destruct validResults as [| sampleResult rest] eqn:Hvalid; [split; reflexivity |].
  exists sampleResult. split; [reflexivity |]. intros metric. cbn [metrics].
  set (valid := sampleResult :: rest).
  assert (Hshape : forall s,
            fold_left (add_metric sqrt valid) (metric_keys sampleResult) ∅ !! metric = Some s ->
            metric ∈ metric_keys sampleResult /\
            exists v vs, metric_values metric valid = v :: vs /\
              s = {| mean := mean_of (v :: vs); std := std_of sqrt (v :: vs);
                     min := Qmin_list v vs; max := Qmax_list v vs; values := v :: vs |}).
  { intros s Hs. destruct (add_metric_lookup _ _ _ _ _ Hs) as [Hempty | H]; [| exact H].
    rewrite lookup_empty in Hempty. discriminate. }
  split.
  - split.
    + intros [s Hs]. destruct (Hshape s Hs) as (Hin & v & vs & Hv & _).
      apply metric_keys_elem in Hin as [Hres Hnum].
      split; [exact Hres |]. split; [exact Hnum |]. rewrite Hv. discriminate.
    + intros (Hres & Hnum & Hne). apply add_metric_keeps; [| exact Hne].
      apply metric_keys_elem. split; assumption.
  - intros s Hs. destruct (Hshape s Hs) as (_ & v & vs & Hv & ->).
    cbn [values min max]. rewrite Hv.
    destruct (Qmin_list_spec vs v) as [Hmin_in Hmin].
    destruct (Qmax_list_spec vs v) as [Hmax_in Hmax].
    split; [reflexivity |]. split; [exact Hmin_in |]. split; [exact Hmax_in |].
    apply Forall_forall. intros x Hx.
    rewrite Forall_forall in Hmin, Hmax. split; [apply Hmin | apply Hmax]; exact Hx.
Qed.

Lemma outcomes_lookup evaluationFunction fs i (j : nat) f :
  fs !! j = Some f ->
  outcomes evaluationFunction fs i !! j
  = Some (evaluationFunction (DataSplitter.f_train f) (DataSplitter.f_test f)
            (i + Z.of_nat j)).
Proof.
  revert i j. induction fs as [| f0 fs IH]; intros i j Hf; [discriminate |].
  destruct j as [| j].
  - cbn in *. injection Hf as ->. rewrite Z.add_0_r. reflexivity.
  - change (fs !! j = Some f) in Hf.
    change (outcomes evaluationFunction fs (i + 1) !! j
            = Some (evaluationFunction (DataSplitter.f_train f) (DataSplitter.f_test f)
                      (i + Z.of_nat (S j)))).
    rewrite (IH (i + 1) j Hf). do 2 f_equal. lia.
Qed.

Lemma outcomes_recognised evaluationFunction fs i :
  (forall train test j, recognised (evaluationFunction train test j)) ->
  Forall recognised (outcomes evaluationFunction fs i).
Proof.
  intros Hrec. revert i. induction fs as [| f fs IH]; intros i; cbn [outcomes];
    constructor; [apply Hrec | apply IH].
Qed.



(** X11.  When every error the callback throws has a non-empty message and
    no result it returns has a truthy [error] property, and k is valid,
    [failed_folds] is the number of folds whose callback threw,
    [successful_folds] the number of the others, and
    [performCrossValidation] throws exactly when the callback threw on all k
    folds; fold j calls the callback with index j and a train and test set
    that together are the data. *)
Theorem failures_counted_when_recognised (cfg : config) (data : list record)
    (evaluationFunction : callback) (stratifyField : option string) :
  2 <= k cfg <= Z.of_nat (length data) ->
  (forall train test i, recognised (evaluationFunction train test i)) ->
  exists os,
    Z.of_nat (length os) = k cfg /\
    (forall j o, os !! j = Some o ->
       exists train test,
         o = evaluationFunction train test (Z.of_nat j) /\ train ++ test ≡ₚ data) /\
    let thrown := Z.of_nat (length (filter (fun o => is_throw o = true) os)) in
    match performCrossValidation sqrt cfg data evaluationFunction stratifyField with
    | Throw message =>
        message = "All cross-validation folds failed" /\ thrown = k cfg
    | Return agg =>
        failed_folds agg = thrown /\
        successful_folds agg = k cfg - thrown /\
        thrown < k cfg
    end.
Proof.
  intros Hk Hrec. unfold performCrossValidation. fold (stratify_by cfg stratifyField).
  destruct (kFoldSplit_shape data (k cfg) true (stratify_by cfg stratifyField)
              (random_seed cfg) Hk)
    as (r & st' & Heq & Hlen & _ & Hshape & _).
  rewrite Heq. cbn [fst].
  set (fs := DataSplitter.folds r) in *.
  exists (outcomes evaluationFunction fs 0).
  split; [rewrite outcomes_length; lia |]. split.
  { intros j o Ho.
    destruct (lookup_lt_is_Some_2 fs j) as [f Hf].
    { apply lookup_lt_Some in Ho. rewrite outcomes_length in Ho. exact Ho. }
    rewrite (outcomes_lookup _ _ _ _ _ Hf) in Ho. injection Ho as <-.
    exists (DataSplitter.f_train f), (DataSplitter.f_test f).
    split; [reflexivity |]. apply (Hshape j f Hf). }
  assert (Hall : Forall recognised (outcomes evaluationFunction fs 0)).
  { apply outcomes_recognised, Hrec. }
  pose proof (recognised_aggregation sqrt evaluationFunction fs 0
                (DataSplitter.cv_info r) Hall) as Hagg.
  cbv zeta in Hagg |- *.
  destruct (aggregateCrossValidationResults sqrt (run_folds evaluationFunction fs 0)
              (DataSplitter.cv_info r)) as [agg | message] eqn:Hout.
  - destruct Hagg as (Hfailed & Hsucc & Hpos & _). split; [exact Hfailed |].
    split; lia.
  - split; [| lia]. unfold aggregateCrossValidationResults in Hout.
    destruct (filter _ _); [injection Hout as <-; reflexivity | discriminate].
Qed.

End Statistics.

Lemma failures_counted_when_recognised_witness :
  exists os,
    Z.of_nat (length os) = k Samples.two_folds /\
    (forall j o, os !! j = Some o ->
       exists train test,
         o = throws_on_first train test (Z.of_nat j) /\
         train ++ test ≡ₚ Samples.two_rows) /\
    let thrown := Z.of_nat (length (filter (fun o => is_throw o = true) os)) in
    match performCrossValidation (fun x => x) Samples.two_folds Samples.two_rows
            throws_on_first None with
    | Throw message =>
        message = "All cross-validation folds failed" /\ thrown = k Samples.two_folds
    | Return agg =>
        failed_folds agg = thrown /\
        successful_folds agg = k Samples.two_folds - thrown /\
        thrown < k Samples.two_folds
    end.
Proof.
  apply (failures_counted_when_recognised (fun x => x) Samples.two_folds Samples.two_rows
           throws_on_first None).
  - cbn. lia.
  - intros train test i. unfold throws_on_first.
    destruct (i =? 0); [discriminate | vm_compute; reflexivity].
Defined.

End AggregationFacts.

(** ** Further properties of the confusion matrix and the metrics *)

Module MetricFacts.
Import JS ModelEvaluator MetricsSpec ConfusionSpec ConfusionFacts MacroFacts PlainLabels.

Lemma pair_up_fst gt preds : fst <$> pair_up gt preds = gt.
Proof.
  revert preds. induction gt as [| a gt IH]; intros preds; [reflexivity |].
  cbn. rewrite IH. reflexivity.
Qed.

Lemma pair_up_loop gt preds m c :
  confusion_loop gt preds m c
  = confusion_loop (fst <$> pair_up gt preds) (snd <$> pair_up gt preds) m c.
Proof.
  revert preds m c. induction gt as [| a gt IH]; intros preds m c; [reflexivity |].
  cbn [pair_up fmap list_fmap confusion_loop head tail fst snd default from_option id].
  apply IH.
Qed.

Lemma pair_up_matrix gt preds :
  createConfusionMatrix gt preds
  = createConfusionMatrix (fst <$> pair_up gt preds) (snd <$> pair_up gt preds).
Proof.
  unfold createConfusionMatrix. rewrite <- pair_up_loop, pair_up_fst. reflexivity.
Qed.

Lemma keys_set (m : smap) (key : string) (v : Z) :
  keys (set m key v) = if decide (key ∈ keys m) then keys m else keys m ++ [key].
Proof.
  unfold keys. induction m as [| [k0 v0] rest IH]; cbn [set fmap list_fmap fst].
  - rewrite decide_False by apply not_elem_of_nil. reflexivity.
  - destruct (String.eqb_spec k0 key) as [-> | Hne]; cbn [fmap list_fmap fst].
    + rewrite decide_True by left. reflexivity.
    + rewrite IH. destruct (decide (key ∈ fst <$> rest)) as [Hin | Hout].
      * rewrite decide_True by (right; exact Hin). reflexivity.
      * rewrite decide_False; [reflexivity |].
        rewrite elem_of_cons. intros [-> | H]; [congruence | contradiction].
Qed.

Lemma get_bound (m : smap) (key : string) :
  Forall (fun kv => 1 <= snd kv) m -> 0 <= default 0 (get m key).
Proof.
  induction 1 as [| [k0 v0] rest Hv _ IH]; cbn [get]; [cbn; lia |].
  destruct (String.eqb k0 key); [cbn in *; lia | exact IH].
Qed.

Lemma set_bound (m : smap) (key : string) (v : Z) :
  1 <= v -> Forall (fun kv => 1 <= snd kv) m -> Forall (fun kv => 1 <= snd kv) (set m key v).
Proof.
  intros Hv. induction 1 as [| [k0 v0] rest H0 Hrest IH]; cbn [set].
  - repeat constructor. exact Hv.
  - destruct (String.eqb k0 key); constructor; assumption.
Qed.

Lemma confusion_loop_tidy gt preds m c :
  tidy m -> tidy (fst (confusion_loop gt preds m c)).
Proof.
  revert preds m c. induction gt as [| a gt IH]; intros preds m c Hm; [exact Hm |].
  cbn [confusion_loop]. apply IH. destruct Hm as [Hnd Hpos]. split.
  - rewrite keys_set. destruct (decide _) as [Hin | Hout]; [exact Hnd |].
    apply NoDup_app. split; [exact Hnd |]. split; [| apply NoDup_singleton].
    intros x Hx Hx'. apply list_elem_of_singleton in Hx'. subst x. contradiction.
  - apply set_bound; [| exact Hpos]. pose proof (get_bound m (key_of a (default LUndef (head preds))) Hpos).
    lia.
Qed.

Lemma correct_range (groundTruth predictions : list label) :
  let c := createConfusionMatrix groundTruth predictions in
  total c = Z.of_nat (length groundTruth) /\ 0 <= correct c <= total c.
Proof.
  intros c.
  assert (Htotal : total c = Z.of_nat (length groundTruth)).
  { unfold c, createConfusionMatrix. destruct (confusion_loop _ _ _ _). reflexivity. }
  split; [exact Htotal |]. rewrite Htotal. unfold c. rewrite pair_up_matrix.
  rewrite correct_counts_equal_pairs.
  pose proof (length_filter (fun p : label * label => fst p = snd p)
                (pair_up groundTruth predictions)) as Hle.
  rewrite <- (pair_up_fst groundTruth predictions) at 3. rewrite length_fmap. lia.
Qed.

(** X12.  [createConfusionMatrix] visits one pair per ground-truth label
    (a missing prediction reads as undefined, surplus predictions are never
    read): [total] is the number of ground-truth labels, [correct] the number
    of visited pairs with identical labels, the entry under a key is the
    number of visited pairs with that key, the entries are positive, under
    distinct keys, and add up to [total]. *)
Theorem createConfusionMatrix_counts (groundTruth predictions : list label) :
  let c := createConfusionMatrix groundTruth predictions in
  let pairs := pair_up groundTruth predictions in
  length pairs = length groundTruth /\
  total c = Z.of_nat (length groundTruth) /\
  correct c = Z.of_nat (length (filter (fun p => fst p = snd p) pairs)) /\
  0 <= correct c <= total c /\
  (forall key, default 0 (get (matrix c) key)
               = Z.of_nat (length (filter (fun p => key_of (fst p) (snd p) = key) pairs))) /\
  sum_entries (matrix c) = total c /\
  NoDup (keys (matrix c)) /\
  Forall (fun kv => 1 <= snd kv) (matrix c).
Proof.
  intros c pairs.
  assert (Hlen : length pairs = length groundTruth).
  { unfold pairs. rewrite <- (pair_up_fst groundTruth predictions) at 2.
    rewrite length_fmap. reflexivity. }
  assert (Htotal : total c = Z.of_nat (length groundTruth)).
  { unfold c, createConfusionMatrix. destruct (confusion_loop _ _ _ _). reflexivity. }
  assert (Hcorrect : correct c = Z.of_nat (length (filter (fun p => fst p = snd p) pairs))).
  { unfold c. rewrite pair_up_matrix. apply correct_counts_equal_pairs. }
  split; [exact Hlen |]. split; [exact Htotal |]. split; [exact Hcorrect |].
  split.
  { rewrite Hcorrect, Htotal, <- Hlen.
    pose proof (length_filter (fun p : label * label => fst p = snd p) pairs). lia. }
  split.
  { intros key. unfold c. rewrite pair_up_matrix. unfold createConfusionMatrix.
    pose proof (loop_counts_keys (pair_up groundTruth predictions) [] 0 key) as H.
    destruct (confusion_loop _ _ [] 0) as [m k]. cbn [matrix fst] in *. rewrite H.
    cbn. reflexivity. }
  split; [apply matrix_total |].
  assert (Htidy : tidy (matrix c)).
  { unfold c, createConfusionMatrix.
    pose proof (confusion_loop_tidy groundTruth predictions [] 0) as H.
    destruct (confusion_loop _ _ [] 0) as [m k]. cbn [matrix fst] in *.
    apply H. split; constructor. }
  exact Htidy.
Qed.

Lemma sum_get_bound (m : smap) (ks : list string) :
  Forall (fun kv => 1 <= snd kv) m -> 0 <= sum_get m ks.
Proof.
  intros Hm. unfold sum_get.
  enough (H : forall a, 0 <= a -> 0 <= fold_left (fun sum key => sum + default 0 (get m key)) ks a)
    by (apply H; lia).
  induction ks as [| key ks IH]; intros a Ha; cbn [fold_left]; [exact Ha |].
  apply IH. pose proof (get_bound m key Hm). lia.
Qed.

Lemma quotient_unit (tp other : Z) :
  0 < tp -> 0 <= other ->
  (0 <= inject_Z tp / inject_Z (tp + other) /\ inject_Z tp / inject_Z (tp + other) <= 1)%Q.
Proof.
  intros Htp Ho.
  assert (Hd : (0 < inject_Z (tp + other))%Q) by (rewrite <- (Zlt_Qlt 0); lia).
  split.
  - apply Qle_shift_div_l; [exact Hd |]. rewrite Qmult_0_l, <- (Zle_Qle 0). lia.
  - apply Qle_shift_div_r; [exact Hd |]. rewrite Qmult_1_l, <- Zle_Qle. lia.
Qed.

Lemma precision_unit (c : confusion) (cls : label) :
  tidy (matrix c) -> (0 <= precision c cls /\ precision c cls <= 1)%Q.
Proof.
  intros [_ Hpos]. unfold precision.
  destruct (Z.ltb_spec 0 (true_positives c cls)) as [Htp | _]; [| split; discriminate].
  apply quotient_unit; [exact Htp | apply sum_get_bound, Hpos].
Qed.

Lemma recall_unit (c : confusion) (cls : label) :
  tidy (matrix c) -> (0 <= recall c cls /\ recall c cls <= 1)%Q.
Proof.
  intros [_ Hpos]. unfold recall.
  destruct (Z.ltb_spec 0 (true_positives c cls)) as [Htp | _]; [| split; discriminate].
  apply quotient_unit; [exact Htp | apply sum_get_bound, Hpos].
Qed.

(** The harmonic mean of two numbers of the unit interval is in it. *)
Lemma harmonic_unit (p r : Q) :
  (0 <= p)%Q -> (p <= 1)%Q -> (0 <= r)%Q -> (r <= 1)%Q -> (0 < p + r)%Q ->
  (0 <= 2 * p * r / (p + r) /\ 2 * p * r / (p + r) <= 1)%Q.
Proof.
  intros Hp0 Hp1 Hr0 Hr1 Hs. split.
  - apply Qle_shift_div_l; [exact Hs |]. rewrite Qmult_0_l.
    apply Qmult_le_0_compat; [| exact Hr0].
    apply Qmult_le_0_compat; [discriminate | exact Hp0].
  - apply Qle_shift_div_r; [exact Hs |]. rewrite Qmult_1_l.
    assert (H1 : (p * r <= p)%Q).
    { rewrite <- (Qmult_1_r p) at 2. rewrite !(Qmult_comm p).
      apply Qmult_le_compat_r; assumption. }
    assert (H2 : (p * r <= r)%Q).
    { rewrite <- (Qmult_1_l r) at 2. apply Qmult_le_compat_r; assumption. }
    assert (E : (2 * p * r == p * r + p * r)%Q) by ring.
    rewrite E. apply Qplus_le_compat; assumption.
Qed.

Lemma f1_unit (c : confusion) (cls : label) :
  tidy (matrix c) -> (0 <= f1 c cls /\ f1 c cls <= 1)%Q.
Proof.
  intros Ht. unfold f1.
  destruct (precision_unit c cls Ht) as [Hp0 Hp1].
  destruct (recall_unit c cls Ht) as [Hr0 Hr1].
  destruct (Qlt_le_dec 0 (precision c cls + recall c cls)) as [Hs | _];
    [| split; discriminate].
  apply harmonic_unit; assumption.
Qed.

Lemma Qtotal_unit (f : label -> Q) (classes : list label) :
  (forall cls, 0 <= f cls /\ f cls <= 1)%Q ->
  (0 <= Qtotal (f <$> classes) /\
   Qtotal (f <$> classes) <= inject_Z (Z.of_nat (length classes)))%Q.
Proof.
  intros Hf. induction classes as [| cls classes [IH0 IH1]]; [split; discriminate |].
  cbn [fmap list_fmap Qtotal length]. destruct (Hf cls) as [H0 H1]. split.
  - rewrite <- (Qplus_0_l 0). apply Qplus_le_compat; assumption.
  - rewrite Nat2Z.inj_succ. unfold Z.succ. rewrite inject_Z_plus, Qplus_comm.
    apply Qplus_le_compat; assumption.
Qed.

Lemma ratio_unit (a : Q) (n : nat) :
  (0 <= a)%Q -> (a <= inject_Z (Z.of_nat n))%Q ->
  in_unit (ratio a (inject_Z (Z.of_nat n))) /\
  (ratio a (inject_Z (Z.of_nat n)) = None <-> n = 0%nat).
Proof.
  intros H0 H1. unfold ratio. destruct n as [| n].
  - split; [exact I | split; reflexivity].
  - assert (Hn : (0 < inject_Z (Z.of_nat (S n)))%Q) by (rewrite <- (Zlt_Qlt 0); lia).
    destruct (Qeq_bool (inject_Z (Z.of_nat (S n))) 0) eqn:Hz.
    + apply Qeq_bool_eq in Hz. rewrite Hz in Hn. discriminate.
    + split; [| split; discriminate]. split.
      * apply Qle_shift_div_l; [exact Hn |]. rewrite Qmult_0_l. exact H0.
      * apply Qle_shift_div_r; [exact Hn |]. rewrite Qmult_1_l. exact H1.
Qed.

Lemma createConfusionMatrix_tidy gt preds : tidy (matrix (createConfusionMatrix gt preds)).
Proof.
  unfold createConfusionMatrix.
  pose proof (confusion_loop_tidy gt preds [] 0) as H.
  destruct (confusion_loop _ _ [] 0) as [m k]. cbn [matrix fst] in *.
  apply H. split; constructor.
Qed.

(** X13.  Every metric of [computeClassificationMetrics] that is a number
    lies between 0 and 1, also when labels collide in the matrix keys.  The
    accuracy is NaN exactly when there is no ground truth, and the macro
    averages are NaN exactly when there is neither a ground-truth label nor a
    prediction. *)
Theorem metrics_in_unit_interval (groundTruth predictions : list label) :
  let m := computeClassificationMetrics groundTruth predictions in
  in_unit (accuracy m) /\ in_unit (macro_precision m) /\
  in_unit (macro_recall m) /\ in_unit (macro_f1 m) /\
  (accuracy m = None <-> groundTruth = []) /\
  (macro_precision m = None <-> groundTruth = [] /\ predictions = []) /\
  (macro_recall m = None <-> groundTruth = [] /\ predictions = []) /\
  (macro_f1 m = None <-> groundTruth = [] /\ predictions = []).
Proof.
  intros m. unfold m, computeClassificationMetrics.
  set (c := createConfusionMatrix groundTruth predictions).
  set (classes := distinct (groundTruth ++ predictions)).
  pose proof (createConfusionMatrix_tidy groundTruth predictions) as Htidy. fold c in Htidy.
  pose proof (class_loop_sums c classes 0 0 0) as Hsums.
  destruct (class_loop c classes (0, 0, 0)%Q) as [[ap ar] af].
  destruct Hsums as (Hp & Hr & Hf). rewrite Qplus_0_l in Hp, Hr, Hf.
  cbn [accuracy macro_precision macro_recall macro_f1].
  assert (Hempty : length classes = 0%nat <-> groundTruth = [] /\ predictions = []).
  { split.
    - intros Hz. apply nil_length_inv in Hz.
      assert (Hnil : groundTruth ++ predictions = []).
      { destruct (groundTruth ++ predictions) as [| x l] eqn:Hl; [reflexivity |].
        assert (Hx : x ∈ classes) by (unfold classes; apply distinct_elem; left).
        rewrite Hz in Hx. inversion Hx. }
      apply app_eq_nil in Hnil. exact Hnil.
    - intros [-> ->]. reflexivity. }
  assert (Hacc : in_unit (ratio (inject_Z (correct c)) (inject_Z (total c))) /\
                 (ratio (inject_Z (correct c)) (inject_Z (total c)) = None
                  <-> groundTruth = [])).
  { destruct (correct_range groundTruth predictions) as [Htotal Hrange].
    fold c in Htotal, Hrange. rewrite Htotal in *.
    destruct (ratio_unit (inject_Z (correct c)) (length groundTruth)) as [Hu Hn].
    - rewrite <- (Zle_Qle 0). lia.
    - rewrite <- Zle_Qle. lia.
    - split; [exact Hu |]. rewrite Hn. split; [apply nil_length_inv | intros ->; reflexivity]. }
  assert (Hmacro : forall f a, (forall cls, 0 <= f cls /\ f cls <= 1)%Q ->
                     (a == Qtotal (f <$> classes))%Q ->
                     in_unit (ratio a (inject_Z (Z.of_nat (length classes)))) /\
                     (ratio a (inject_Z (Z.of_nat (length classes))) = None
                      <-> groundTruth = [] /\ predictions = [])).
  { intros f a Hunit Ha. destruct (Qtotal_unit f classes Hunit) as [H0 H1].
    rewrite <- Ha in H0, H1.
    destruct (ratio_unit a (length classes) H0 H1) as [Hu Hn].
    split; [exact Hu |]. rewrite Hn. exact Hempty. }
  destruct (Hmacro (precision c) ap (fun cls => precision_unit c cls Htidy) Hp) as [Hp1 Hp2].
  destruct (Hmacro (recall c) ar (fun cls => recall_unit c cls Htidy) Hr) as [Hr1 Hr2].
  destruct (Hmacro (f1 c) af (fun cls => f1_unit c cls Htidy) Hf) as [Hf1 Hf2].
  destruct Hacc as [Ha1 Ha2].
  split; [exact Ha1 |]. split; [exact Hp1 |]. split; [exact Hr1 |]. split; [exact Hf1 |].
  split; [exact Ha2 |]. split; [exact Hp2 |]. split; [exact Hr2 | exact Hf2].
Qed.

End MetricFacts.

(** ** Further properties of the predictor *)

Module PredictorFacts.
Import JS Data Predictor VoteSpec PredictorSpec ShuffleFacts TallyFacts VoteFacts.





Lemma slice_head {A} (l : list A) (k : Z) :
  exists n, slice l 0 (Some k) = take n l /\ (0 <= k -> n = Z.to_nat k).
Proof.
  unfold slice.
  assert (H0 : rel_index (Z.of_nat (length l)) 0 = 0) by (unfold rel_index; cbn; lia).
  rewrite H0. cbn [Z.to_nat]. rewrite drop_0, Z.sub_0_r.
  pose proof (rel_index_range (Z.of_nat (length l)) k ltac:(lia)) as Hr.
  destruct (Z.le_gt_cases 0 k) as [Hk | Hk].
  - exists (Z.to_nat k). split; [| reflexivity].
    unfold rel_index in *. destruct (Z.ltb_spec k 0); [lia |].
    destruct (Z.le_gt_cases k (Z.of_nat (length l))).
    + rewrite Z.min_l by lia. reflexivity.
    + rewrite Z.min_r by lia. rewrite !take_ge by lia. reflexivity.
  - eexists. split; [reflexivity | lia].
Qed.



Lemma expected_cell_other (items : list string) (y x : string) :
  y <> x -> expected_cell (items ++ [y]) x = expected_cell items x.
Proof.
  intros Hne. unfold expected_cell.
  assert (Hin : x ∈ items ++ [y] <-> x ∈ items).
  { rewrite elem_of_app, list_elem_of_singleton. split; [intros [H | ->] | auto];
      [exact H | congruence]. }
  rewrite occurrences_snoc, (decide_False (P := y = x)), Z.add_0_r by exact Hne.
  destruct (decide (x ∈ items)) as [Hi | Hi];
    destruct (decide (x ∈ items ++ [y])) as [Hi' | Hi'];
    try reflexivity; exfalso; tauto.
Qed.

Lemma expected_cell_last (items : list string) (y : string) :
  expected_cell (items ++ [y]) y
  = if decide (y = "__proto__") then None
    else if decide (y ∈ prototype_functions) then Some Text
         else Some (Count (occurrences y items + 1)).
Proof.
  unfold expected_cell.
  rewrite occurrences_snoc, (decide_True (P := y = y)) by reflexivity.
  destruct (decide (y ∈ items ++ [y])) as [_ | Hout]; [reflexivity |].
  exfalso. apply Hout, elem_of_app. right. left.
Qed.

(** The [counts] object after the tally of any list of labels. *)
Lemma tally_own (items : list string) :
  forall x, own (fold_left tally items []) x = expected_cell items x.
Proof.
  induction items as [| y items IH] using rev_ind; intros x.
  - unfold expected_cell. cbn [fold_left own].
    repeat case_decide; try reflexivity; exfalso; eapply not_elem_of_nil; eassumption.
  - rewrite fold_left_app. cbn [fold_left]. set (counts := fold_left tally items []) in *.
    destruct (decide (y = x)) as [<- | Hne].
    + rewrite expected_cell_last. unfold tally.
      destruct (String.eqb_spec y "__proto__") as [-> | Hy].
      { rewrite IH. reflexivity. }
      rewrite (decide_False (P := y = "__proto__")) by exact Hy.
      rewrite (IH y). unfold expected_cell.
      rewrite (decide_False (P := y = "__proto__")) by exact Hy.
      destruct (decide (y ∈ prototype_functions)) as [Hf | Hf];
        destruct (decide (y ∈ items)) as [Hyi | Hyi].
      * rewrite IH. unfold expected_cell.
        rewrite (decide_False (P := y = "__proto__")) by exact Hy.
        rewrite (decide_True (P := y ∈ prototype_functions)) by exact Hf.
        rewrite (decide_True (P := y ∈ items)) by exact Hyi. reflexivity.
      * rewrite own_put, decide_True by reflexivity. reflexivity.
      * rewrite own_put, decide_True by reflexivity. reflexivity.
      * rewrite own_put, decide_True by reflexivity.
        rewrite (occurrences_absent y items Hyi). reflexivity.
    + rewrite (expected_cell_other items y x Hne), <- IH. unfold tally.
      destruct (String.eqb y "__proto__"); [reflexivity |].
      destruct (own counts y) as [[n |] |]; [| reflexivity |].
      * rewrite own_put, decide_False by exact Hne. reflexivity.
      * destruct (decide (y ∈ prototype_functions));
          rewrite own_put, decide_False by exact Hne; reflexivity.
Qed.

(** The loop of [majorityVote] passes over every key that holds no number. *)
Lemma scan_skip (cs : object) (ks : list string) :
  forall maxK maxV,
    scan cs ks maxK maxV
    = scan cs (filter (fun key => counted cs key = true) ks) maxK maxV.
Proof.
  induction ks as [| key ks IH]; intros maxK maxV; [reflexivity |].
  rewrite filter_cons. cbn [scan].
  destruct (decide (counted cs key = true)) as [Hc | Hc]; unfold counted in Hc;
    destruct (own cs key) as [[n |] |] eqn:Hown; try discriminate; try congruence;
    try apply IH.
  cbn [scan]. rewrite Hown. destruct (maxV <? n); apply IH.
Qed.

Lemma counted_spec (items : list string) (x : string) :
  counted (fold_left tally items []) x = true <-> ordinary x /\ x ∈ items.
Proof.
  unfold counted, ordinary. rewrite tally_own. unfold expected_cell.
  destruct (decide (x = "__proto__")); [split; [discriminate | tauto] |].
  destruct (decide (x ∈ prototype_functions));
    destruct (decide (x ∈ items)); split; try discriminate; try tauto.
Qed.

Lemma counted_own (items : list string) (x : string) :
  counted (fold_left tally items []) x = true ->
  own (fold_left tally items []) x = Some (Count (occurrences x items)).
Proof.
  intros H. apply counted_spec in H as [[Hp Hf] Hin].
  rewrite tally_own. unfold expected_cell.
  rewrite (decide_False (P := x = "__proto__")) by exact Hp.
  rewrite (decide_False (P := x ∈ prototype_functions)) by exact Hf.
  rewrite (decide_True (P := x ∈ items)) by exact Hin. reflexivity.
Qed.

(** X15.  For every list of labels, [counts] holds the number of
    occurrences under each label that occurs, except that it holds a string
    under the name of an inherited function of [Object.prototype] and
    nothing under [__proto__].  Such labels never win and are never counted:
    if the list holds no other label (in particular if it is empty), the
    vote returns the label null with count -1; otherwise it returns one of the
    other labels with the most occurrences among them, and that number as
    count. *)
Theorem majorityVote_inherited_names (items : list string) :
  let v := majorityVote items in
  (exists cs, counts v = Some cs /\ forall x, own cs x = expected_cell items x) /\
  (Forall (fun x => ~ ordinary x) items -> label v = None /\ count v = Some (-1)) /\
  (forall x, x ∈ items -> ordinary x ->
     exists w, label v = Some w /\ ordinary w /\ w ∈ items /\
       count v = Some (occurrences w items) /\
       forall x', x' ∈ items -> ordinary x' -> occurrences x' items <= occurrences w items).
Proof.
  intros v. unfold v, majorityVote. set (cs := fold_left tally items []).
  rewrite scan_skip. set (ks := filter (fun key => counted cs key = true) (keys cs)).
  assert (Hks : forall x, x ∈ ks <-> ordinary x /\ x ∈ items).
  { intros x. unfold ks. rewrite list_elem_of_filter, keys_elem. unfold cs.
    rewrite counted_spec. split; [tauto |]. intros H. split; [exact H |].
    destruct (decide (x ∈ fst <$> fold_left tally items [])) as [Hin | Hout]; [exact Hin |].
    apply own_names in Hout. apply counted_spec, counted_own in H. congruence. }
  assert (Hcnt : Forall (fun key => own cs key = Some (Count (occurrences key items))) ks).
  { apply Forall_forall. intros x Hx. apply list_elem_of_filter in Hx as [Hx _].
    apply counted_own, Hx. }
  destruct (scan_spec cs (fun x => occurrences x items) ks Hcnt None (-1))
    as [[Hall Hs] | (pre & w & post & Heq & Hs & _ & Hpre & Hpost)]; rewrite Hs;
    cbn [label count counts].
  - split; [exists cs; split; [reflexivity | apply tally_own] |].
    split; [intros _; split; reflexivity |].
    intros x Hx Hord. exfalso.
    assert (Hin : x ∈ ks) by (apply Hks; split; assumption).
    rewrite Forall_forall in Hall. specialize (Hall x Hin). cbn beta in Hall.
    pose proof (occurrences_pos x items Hx). lia.
  - assert (Hw : ordinary w /\ w ∈ items).
    { apply Hks. rewrite Heq. apply elem_of_app. right. left. }
    split; [exists cs; split; [reflexivity | apply tally_own] |]. split.
    + intros Hnone. exfalso. destruct Hw as [Hord Hin].
      rewrite Forall_forall in Hnone. exact (Hnone w Hin Hord).
    + intros x Hx Hord. exists w. destruct Hw as [Hword Hwin].
      split; [reflexivity |]. split; [exact Hword |]. split; [exact Hwin |].
      split; [reflexivity |]. intros x' Hx' Hord'.
      assert (Hin : x' ∈ ks) by (apply Hks; split; assumption).
      rewrite Heq in Hin. apply elem_of_app in Hin as [Hin | Hin].
      * rewrite Forall_forall in Hpre. specialize (Hpre x' Hin). cbn beta in Hpre. lia.
      * apply elem_of_cons in Hin as [-> | Hin]; [lia |].
        rewrite Forall_forall in Hpost. apply (Hpost x' Hin).
Qed.

End PredictorFacts.

(** ** Further properties of the configuration validator *)

Module ConfigFacts.
Import JS ConfigurationManager ConfigSpec.



End ConfigFacts.

(** ** Ranking metrics *)

Module RankingFacts.
Import JS Data Predictor ModelEvaluator EvaluatorHelpers.

Lemma reciprocal_unit (i : nat) :
  (0 < 1 / inject_Z (Z.of_nat i + 1) /\ 1 / inject_Z (Z.of_nat i + 1) <= 1)%Q.
Proof.
  assert (Hd : (0 < inject_Z (Z.of_nat i + 1))%Q) by (rewrite <- (Zlt_Qlt 0); lia).
  split.
  - apply Qlt_shift_div_l; [exact Hd |]. rewrite Qmult_0_l. reflexivity.
  - apply Qle_shift_div_r; [exact Hd |]. rewrite Qmult_1_l.
    rewrite <- (Zle_Qle 1). lia.
Qed.

(** X17.  [computeMRR] is the reciprocal of the 1-based rank of the first
    positive score: it lies between 0 and 1, is 0 exactly when no score is
    positive, and is 1 exactly when the first score is positive. *)
Theorem computeMRR_first_relevant (relevanceScores : list Z) :
  (0 <= computeMRR relevanceScores /\ computeMRR relevanceScores <= 1)%Q /\
  ((computeMRR relevanceScores == 0)%Q
   <-> Forall (fun score => score <= 0) relevanceScores) /\
  ((computeMRR relevanceScores == 1)%Q
   <-> exists score rest, relevanceScores = score :: rest /\ 0 < score) /\
  (forall (i : nat) score,
     relevanceScores !! i = Some score -> 0 < score ->
     (forall (j : nat) score', relevanceScores !! j = Some score' -> (j < i)%nat ->
                               score' <= 0) ->
     computeMRR relevanceScores = (1 / inject_Z (Z.of_nat i + 1))%Q).
Proof.
  unfold computeMRR.
  destruct (list_find (fun score => 0 < score) relevanceScores) as [[i x] |] eqn:Hfind.
  - apply list_find_Some in Hfind as (Hx & Hpos & Hfirst).
    destruct (reciprocal_unit i) as [H0 H1].
    split; [split; [apply Qlt_le_weak, H0 | exact H1] |]. split; [| split].
    + split.
      * intros Hz. rewrite Hz in H0. discriminate.
      * intros Hall. rewrite Forall_forall in Hall.
        apply list_elem_of_lookup_2 in Hx. specialize (Hall x Hx). cbn beta in Hall. lia.
    + split.
      * intros Hone. destruct i as [| i].
        -- destruct relevanceScores as [| s rest]; [discriminate |].
           injection Hx as ->. exists x, rest. split; [reflexivity | exact Hpos].
        -- exfalso. revert Hone. unfold Qeq, Qdiv, Qmult, Qinv. cbn.
           destruct (Z.of_nat (S i) + 1) eqn:Hd; cbn; lia.
      * intros (s & rest & -> & Hs). destruct i as [| i]; [reflexivity |].
        exfalso. apply (Hfirst 0%nat s eq_refl); [lia | exact Hs].
    + intros j s Hj Hs Hbefore. destruct (Nat.lt_trichotomy i j) as [Hlt | [-> | Hgt]].
      * specialize (Hbefore i x Hx Hlt). lia.
      * reflexivity.
      * exfalso. apply (Hfirst j s Hj Hgt). exact Hs.
  - apply list_find_None in Hfind.
    assert (Hall : Forall (fun score => score <= 0) relevanceScores).
    { eapply Forall_impl; [exact Hfind |]. intros s Hs. cbn beta in Hs. lia. }
    split; [split; discriminate |]. split; [| split].
    + split; [intros _; exact Hall | reflexivity].
    + split; [discriminate |]. intros (s & rest & -> & Hs).
      apply Forall_cons in Hall as [Hle _]. lia.
    + intros i s Hi Hs _. rewrite Forall_forall in Hall.
      apply list_elem_of_lookup_2 in Hi. specialize (Hall s Hi). cbn beta in Hall. lia.
Qed.

(** The precision added at a relevant position. *)
Lemma precision_term (i n : Z) :
  0 <= n <= i ->
  (0 < inject_Z (n + 1) / inject_Z (i + 1) /\ inject_Z (n + 1) / inject_Z (i + 1) <= 1)%Q.
Proof.
  intros H.
  assert (Hd : (0 < inject_Z (i + 1))%Q) by (rewrite <- (Zlt_Qlt 0); lia).
  split.
  - apply Qlt_shift_div_l; [exact Hd |]. rewrite Qmult_0_l, <- (Zlt_Qlt 0). lia.
  - apply Qle_shift_div_r; [exact Hd |]. rewrite Qmult_1_l, <- Zle_Qle. lia.
Qed.

Lemma map_loop_bounds (rels : list Z) :
  forall i n s,
    0 <= n <= i -> (0 <= s)%Q -> (s <= inject_Z n)%Q ->
    n <= fst (map_loop rels i n s) /\
    (s <= snd (map_loop rels i n s))%Q /\
    (snd (map_loop rels i n s) <= inject_Z (fst (map_loop rels i n s)))%Q.
Proof.
  induction rels as [| score rest IH]; intros i n s Hn Hs0 Hs1; cbn [map_loop].
  - cbn [fst snd]. split; [lia |]. split; [apply Qle_refl | exact Hs1].
  - destruct (precision_term i n Hn) as [Ht0 Ht1].
    destruct (0 <? score).
    + destruct (IH (i + 1) (n + 1) (s + inject_Z (n + 1) / inject_Z (i + 1))%Q)
        as (H1 & H2 & H3).
      * lia.
      * rewrite <- (Qplus_0_l 0). apply Qplus_le_compat; [exact Hs0 |].
        apply Qlt_le_weak, Ht0.
      * apply Qle_trans with (inject_Z n + 1)%Q; [apply Qplus_le_compat; assumption |].
        rewrite inject_Z_plus. apply Qle_refl.
      * split; [lia |]. split; [| exact H3].
        eapply Qle_trans; [| exact H2].
        rewrite <- (Qplus_0_r s) at 1. apply Qplus_le_compat; [apply Qle_refl |].
        apply Qlt_le_weak, Ht0.
    + destruct (IH (i + 1) n s) as (H1 & H2 & H3); try assumption; [lia |].
      split; [exact H1 |]. split; assumption.
Qed.

Lemma map_loop_none (rels : list Z) :
  Forall (fun score => score <= 0) rels ->
  forall i n s, map_loop rels i n s = (n, s).
Proof.
  induction 1 as [| score rest Hs _ IH]; intros i n s; cbn [map_loop]; [reflexivity |].
  destruct (Z.ltb_spec 0 score); [lia | apply IH].
Qed.

Lemma map_loop_some (rels : list Z) :
  Exists (fun score => 0 < score) rels ->
  forall i n s,
    0 <= n <= i -> (0 <= s)%Q -> (s <= inject_Z n)%Q ->
    n < fst (map_loop rels i n s) /\ (0 < snd (map_loop rels i n s))%Q.
Proof.
  induction 1 as [score rest Hpos | score rest _ IH]; intros i n s Hn Hs0 Hs1;
    cbn [map_loop].
  - destruct (Z.ltb_spec 0 score); [| lia].
    destruct (precision_term i n Hn) as [Ht0 Ht1].
    destruct (map_loop_bounds rest (i + 1) (n + 1)
                (s + inject_Z (n + 1) / inject_Z (i + 1))%Q) as (H1 & H2 & _).
    + lia.
    + rewrite <- (Qplus_0_l 0). apply Qplus_le_compat; [exact Hs0 |].
      apply Qlt_le_weak, Ht0.
    + apply Qle_trans with (inject_Z n + 1)%Q; [apply Qplus_le_compat; assumption |].
      rewrite inject_Z_plus. apply Qle_refl.
    + split; [lia |]. eapply Qlt_le_trans; [| exact H2].
      rewrite <- (Qplus_0_l 0), (Qplus_comm s). apply Qplus_lt_le_compat; assumption.
  - destruct (precision_term i n Hn) as [Ht0 Ht1].
    destruct (0 <? score).
    + destruct (IH (i + 1) (n + 1) (s + inject_Z (n + 1) / inject_Z (i + 1))%Q)
        as [H1 H2].
      * lia.
      * rewrite <- (Qplus_0_l 0). apply Qplus_le_compat; [exact Hs0 |].
        apply Qlt_le_weak, Ht0.
      * apply Qle_trans with (inject_Z n + 1)%Q; [apply Qplus_le_compat; assumption |].
        rewrite inject_Z_plus. apply Qle_refl.
      * split; [lia | exact H2].
    + apply IH; [lia | assumption | assumption].
Qed.

Lemma map_loop_ext (rels : list Z) :
  forall i n s s', (s == s')%Q ->
    fst (map_loop rels i n s) = fst (map_loop rels i n s') /\
    (snd (map_loop rels i n s) == snd (map_loop rels i n s'))%Q.
Proof.
  induction rels as [| score rest IH]; intros i n s s' Heq; cbn [map_loop].
  - split; [reflexivity | exact Heq].
  - destruct (0 <? score); apply IH; [rewrite Heq; reflexivity | exact Heq].
Qed.

(** Relevant items at the head of the list each add a precision of 1. *)
Lemma map_loop_head (pre post : list Z) :
  Forall (fun score => 0 < score) pre ->
  forall i s, 0 <= i ->
    let m := i + Z.of_nat (length pre) in
    fst (map_loop (pre ++ post) i i s)
    = fst (map_loop post m m (s + inject_Z (Z.of_nat (length pre)))%Q) /\
    (snd (map_loop (pre ++ post) i i s)
     == snd (map_loop post m m (s + inject_Z (Z.of_nat (length pre)))))%Q.
Proof.
  induction 1 as [| score pre Hpos _ IH]; intros i s Hi m.
  - cbn [app length] in *. unfold m. rewrite Z.add_0_r.
    apply map_loop_ext. cbn. ring.
  - cbn [app map_loop]. destruct (Z.ltb_spec 0 score); [| lia].
    destruct (IH (i + 1) (s + inject_Z (i + 1) / inject_Z (i + 1))%Q ltac:(lia))
      as [H1 H2]. cbv zeta in H1, H2.
    replace (i + 1 + Z.of_nat (length pre)) with m in H1, H2
      by (unfold m; cbn [length]; lia).
    assert (Hd : ~ (inject_Z (i + 1) == 0)%Q).
    { intros Hz. assert (Hlt : (0 < inject_Z (i + 1))%Q) by (rewrite <- (Zlt_Qlt 0); lia).
      rewrite Hz in Hlt. discriminate. }
    assert (Heq : (s + inject_Z (i + 1) / inject_Z (i + 1) + inject_Z (Z.of_nat (length pre))
                   == s + inject_Z (Z.of_nat (length (score :: pre))))%Q).
    { cbn [length]. rewrite Nat2Z.inj_succ. unfold Z.succ.
      rewrite (inject_Z_plus (Z.of_nat (length pre)) 1).
      set (a := inject_Z (i + 1)) in *. set (b := inject_Z (Z.of_nat (length pre))).
      change (inject_Z 1) with 1%Q. field. exact Hd. }
    destruct (map_loop_ext post m m _ _ Heq) as [H3 H4].
    split; [rewrite H1; exact H3 | rewrite H2; exact H4].
Qed.

(** X18.  [computeMAP] lies between 0 and 1; it is 0 exactly when no score
    is positive, and it is 1 when the positive scores are exactly the scores
    at the head of the list. *)
Theorem computeMAP_range (relevanceScores : list Z) :
  (0 <= computeMAP relevanceScores /\ computeMAP relevanceScores <= 1)%Q /\
  ((computeMAP relevanceScores == 0)%Q
   <-> Forall (fun score => score <= 0) relevanceScores) /\
  (forall pre post,
     relevanceScores = pre ++ post -> pre <> [] ->
     Forall (fun score => 0 < score) pre -> Forall (fun score => score <= 0) post ->
     (computeMAP relevanceScores == 1)%Q).
Proof.
  unfold computeMAP.
  pose proof (map_loop_bounds relevanceScores 0 0 0 ltac:(lia) ltac:(discriminate)
                ltac:(discriminate)) as (Hn & Hs0 & Hs1).
  split; [| split].
  - destruct (map_loop relevanceScores 0 0 0) as [n sum]. cbn [fst snd] in *.
    destruct (Z.ltb_spec 0 n) as [Hpos | _]; [| split; discriminate].
    assert (Hd : (0 < inject_Z n)%Q) by (rewrite <- (Zlt_Qlt 0); exact Hpos).
    split.
    + apply Qle_shift_div_l; [exact Hd |]. rewrite Qmult_0_l. exact Hs0.
    + apply Qle_shift_div_r; [exact Hd |]. rewrite Qmult_1_l. exact Hs1.
  - split.
    + intros Hz.
      destruct (decide (Forall (fun score => score <= 0) relevanceScores)) as [H | H];
        [exact H | exfalso].
      apply not_Forall_Exists in H; [| intros x; apply _].
      assert (Hex : Exists (fun score => 0 < score) relevanceScores).
      { eapply Exists_impl; [exact H |]. intros x Hx. unfold compose in Hx. lia. }
      destruct (map_loop_some relevanceScores Hex 0 0 0 ltac:(lia) ltac:(discriminate)
                  ltac:(discriminate)) as [Hpos Hsum].
      destruct (map_loop relevanceScores 0 0 0) as [n sum]. cbn [fst snd] in *.
      destruct (Z.ltb_spec 0 n); [| lia].
      assert (Hd : (0 < inject_Z n)%Q) by (rewrite <- (Zlt_Qlt 0); lia).
      assert (Hq : (0 < sum / inject_Z n)%Q).
      { apply Qlt_shift_div_l; [exact Hd |]. rewrite Qmult_0_l. exact Hsum. }
      rewrite Hz in Hq. discriminate.
    + intros Hall. rewrite (map_loop_none relevanceScores Hall). reflexivity.
  - intros pre post -> Hne Hpre Hpost.
    destruct (map_loop_head pre post Hpre 0 0 ltac:(lia)) as [H1 H2]. cbv zeta in H1, H2.
    rewrite (map_loop_none post Hpost) in H1, H2. cbn [fst snd] in H1, H2.
    destruct (map_loop (pre ++ post) 0 0 0) as [n sum]. cbn [fst snd] in *. subst n.
    rewrite Z.add_0_l in *.
    destruct (Z.ltb_spec 0 (Z.of_nat (length pre))) as [Hpos | Hz].
    + rewrite H2, Qplus_0_l. field. intros Hz.
      assert (Hd : (0 < inject_Z (Z.of_nat (length pre)))%Q)
        by (rewrite <- (Zlt_Qlt 0); exact Hpos).
      rewrite Hz in Hd. discriminate.
    + destruct pre; [contradiction | cbn [length] in Hz; lia].
Qed.

Lemma remove_dups_length {A} `{EqDecision A} (l : list A) :
  (length (remove_dups l) <= length l)%nat /\
  (length (remove_dups l) = length l <-> NoDup l).
Proof.
  induction l as [| x l [IHle IHeq]]; cbn [remove_dups length].
  - split; [lia | split; [constructor | reflexivity]].
  - destruct (decide_rel elem_of x l) as [Hin | Hout]; cbn [length].
    + split; [lia |]. split; [lia |]. intros Hnd. apply NoDup_cons in Hnd as [Hx _].
      contradiction.
    + split; [lia |]. split.
      * intros Heq. apply NoDup_cons. split; [exact Hout | apply IHeq; lia].
      * intros Hnd. apply NoDup_cons in Hnd as [_ Hnd]. f_equal. apply IHeq, Hnd.
Qed.

(** X19.  [computeIntraListDiversity] is NaN exactly for an empty list;
    otherwise it is the number of distinct field values (a missing field
    counting as one value) over the number of items: greater than 0, at most
    1, and 1 exactly when no two items share a value. *)
Theorem diversity_range (items : list neighbor) (field : string) :
  let categories := (fun item => n_metadata item !! field) <$> items in
  (computeIntraListDiversity items field = None <-> items = []) /\
  forall d, computeIntraListDiversity items field = Some d ->
    (0 < d /\ d <= 1)%Q /\
    ((d == 1)%Q <-> NoDup categories) /\
    exists unique,
      NoDup unique /\ (forall c, c ∈ unique <-> c ∈ categories) /\
      (d == inject_Z (Z.of_nat (length unique)) / inject_Z (Z.of_nat (length items)))%Q.
Proof.
  intros categories. unfold computeIntraListDiversity. fold categories.
  assert (Hlen : length categories = length items) by apply length_fmap.
  destruct (remove_dups_length categories) as [Hle Heq].
  set (u := remove_dups categories) in *. unfold ratio.
  destruct (decide (length items = 0%nat)) as [Hempty | Hsome].
  - rewrite Hlen, Hempty. change (Qeq_bool (inject_Z (Z.of_nat 0)) 0) with true.
    apply nil_length_inv in Hempty.
    split; [split; [intros _; exact Hempty | reflexivity] |]. intros d Hd. discriminate.
  - assert (Hn : (0 < length categories)%nat) by lia.
    assert (Hd : (0 < inject_Z (Z.of_nat (length categories)))%Q)
      by (rewrite <- (Zlt_Qlt 0); lia).
    assert (Hu : (0 < length u)%nat).
    { destruct categories as [| c cs] eqn:Hc; [cbn in Hn; lia |].
      assert (Hin : c ∈ u) by (unfold u; apply elem_of_remove_dups; left).
      destruct u; [inversion Hin | cbn; lia]. }
    destruct (Qeq_bool (inject_Z (Z.of_nat (length categories))) 0) eqn:Hz.
    { apply Qeq_bool_eq in Hz. rewrite Hz in Hd. discriminate. }
    split; [split; [discriminate | intros ->; contradiction] |].
    intros d [= <-]. split; [split |]; [| | split].
    + apply Qlt_shift_div_l; [exact Hd |]. rewrite Qmult_0_l, <- (Zlt_Qlt 0). lia.
    + apply Qle_shift_div_r; [exact Hd |]. rewrite Qmult_1_l, <- Zle_Qle. lia.
    + rewrite <- Heq. split.
      * intros H1.
        assert (E : (inject_Z (Z.of_nat (length u))
                     == inject_Z (Z.of_nat (length u)) / inject_Z (Z.of_nat (length categories))
                        * inject_Z (Z.of_nat (length categories)))%Q).
        { field. intros Hz'. rewrite Hz' in Hd. discriminate. }
        rewrite H1, Qmult_1_l in E. unfold Qeq in E. cbn in E. lia.
      * intros ->. field. intros Hz'. rewrite Hz' in Hd. discriminate.
    + exists u. split; [apply NoDup_remove_dups |].
      split; [intros c; apply elem_of_remove_dups |]. rewrite Hlen. reflexivity.
Qed.

End RankingFacts.

(** ** Common errors *)

Module CommonErrorFacts.
Import JS ModelEvaluator MetricsSpec ConfusionSpec EvaluatorHelpers HelperSpec
       ShuffleFacts ConfusionFacts PlainLabels MetricFacts PredictorFacts.

Lemma count_errors_snoc (errorCases : list error_case) (error : error_case) :
  count_errors (errorCases ++ [error])
  = set (count_errors errorCases) (error_key error)
        (default 0 (get (count_errors errorCases) (error_key error)) + 1).
Proof. unfold count_errors. rewrite fold_left_app. reflexivity. Qed.

Lemma count_errors_spec (errorCases : list error_case) :
  tidy (count_errors errorCases) /\
  forall key, default 0 (get (count_errors errorCases) key) = cases_with key errorCases.
Proof.
  induction errorCases as [| error errorCases [[Hnd Hpos] Hget]] using rev_ind.
  - split; [split; constructor |]. intros key. reflexivity.
  - rewrite count_errors_snoc. set (m := count_errors errorCases) in *.
    split; [split |].
    + rewrite keys_set. destruct (decide _) as [Hin | Hout]; [exact Hnd |].
      apply NoDup_app. split; [exact Hnd |]. split; [| apply NoDup_singleton].
      intros x Hx Hx'. apply list_elem_of_singleton in Hx'. subst x. contradiction.
    + apply set_bound; [| exact Hpos]. pose proof (get_bound m (error_key error) Hpos). lia.
    + intros key. rewrite get_set. unfold cases_with. rewrite filter_app, length_app.
      rewrite filter_cons, filter_nil. fold (cases_with key errorCases).
      destruct (String.eqb_spec (error_key error) key) as [-> | Hne].
      * rewrite decide_True by reflexivity. cbn. rewrite Hget. unfold cases_with. lia.
      * rewrite decide_False by exact Hne. cbn. rewrite Hget. unfold cases_with. lia.
Qed.

Lemma get_entry (m : smap) (key : string) (v : Z) :
  NoDup (keys m) -> ((key, v) ∈ m <-> get m key = Some v).
Proof.
  unfold keys. induction m as [| [k0 v0] rest IH]; cbn [fmap list_fmap fst get]; intros Hnd.
  - split; [intros H; inversion H | discriminate].
  - apply NoDup_cons in Hnd as [Hout Hnd]. rewrite elem_of_cons, (IH Hnd).
    destruct (String.eqb_spec k0 key) as [-> | Hne].
    + split.
      * intros [[= ->] | Hin]; [reflexivity |]. exfalso. apply Hout.
        apply (proj2 (IH Hnd)) in Hin. apply list_elem_of_fmap. exists (key, v).
        split; [reflexivity | exact Hin].
      * intros [= ->]. left. reflexivity.
    + split; [intros [[= -> ->] | Hin]; [congruence | exact Hin] | intros H; right; exact H].
Qed.

Lemma insert_by_count_perm x l : insert_by_count x l ≡ₚ x :: l.
Proof.
  induction l as [| y l IH]; cbn [insert_by_count]; [reflexivity |].
  destruct (snd x <? snd y); [| reflexivity].
  rewrite IH. apply Permutation_swap.
Qed.

Lemma sort_by_count_perm l : sort_by_count l ≡ₚ l.
Proof.
  unfold sort_by_count. induction l as [| x l IH]; cbn [foldr]; [reflexivity |].
  rewrite insert_by_count_perm, IH. reflexivity.
Qed.

Lemma insert_by_count_sorted x l : by_count l -> by_count (insert_by_count x l).
Proof.
  induction l as [| y l IH]; cbn [insert_by_count by_count]; intros Hl.
  - split; [constructor | exact I].
  - destruct Hl as [Hy Hl]. destruct (Z.ltb_spec (snd x) (snd y)) as [Hlt | Hle].
    + cbn [by_count]. split; [| apply IH, Hl].
      rewrite insert_by_count_perm. constructor; [lia | exact Hy].
    + cbn [by_count]. split; [| split; assumption].
      constructor; [exact Hle |].
      eapply Forall_impl; [exact Hy |]. intros z Hz. cbn beta in Hz. lia.
Qed.

Lemma sort_by_count_sorted l : by_count (sort_by_count l).
Proof.
  unfold sort_by_count. induction l as [| x l IH]; cbn [foldr]; [exact I |].
  apply insert_by_count_sorted, IH.
Qed.

Lemma by_count_app l1 l2 :
  by_count (l1 ++ l2) ->
  by_count l1 /\ forall x y, x ∈ l1 -> y ∈ l2 -> snd y <= snd x.
Proof.
  induction l1 as [| a l1 IH]; cbn [app by_count].
  - intros _. split; [exact I |]. intros x y Hx. inversion Hx.
  - intros [Ha Hrest]. destruct (IH Hrest) as [Hs Hcross].
    apply Forall_app in Ha as [Ha1 Ha2]. split; [split; assumption |].
    intros x y Hx Hy. apply elem_of_cons in Hx as [-> | Hx].
    + rewrite Forall_forall in Ha2. apply Ha2, Hy.
    + apply Hcross; assumption.
Qed.

(** X20.  [analyzeCommonErrors] returns at most 10 pairs with distinct
    keys, in descending order of count; the count of a pair is the number of
    error cases with its key, at least 1; and every error case is either
    listed under its key, or 10 pairs are listed and none of them has a lower
    count than the key of that case. *)
Theorem analyzeCommonErrors_top (errorCases : list error_case) :
  let result := analyzeCommonErrors errorCases in
  (length result <= 10)%nat /\
  NoDup (fst <$> result) /\
  by_count result /\
  Forall (fun p => 1 <= snd p /\ snd p = cases_with (fst p) errorCases) result /\
  forall error, error ∈ errorCases ->
    (error_key error, cases_with (error_key error) errorCases) ∈ result \/
    (length result = 10%nat /\
     Forall (fun p => cases_with (error_key error) errorCases <= snd p) result).
Proof.
  intros result. unfold result, analyzeCommonErrors.
  destruct (count_errors_spec errorCases) as [[Hnd Hpos] Hget].
  set (m := count_errors errorCases) in *.
  pose proof (sort_by_count_perm m) as Hperm.
  pose proof (sort_by_count_sorted m) as Hsorted.
  set (sorted := sort_by_count m) in *.
  destruct (slice_head sorted 10) as (n & -> & Hn). specialize (Hn ltac:(lia)). subst n.
  change (Z.to_nat 10) with 10%nat.
  rewrite <- (take_drop 10 sorted) in Hsorted.
  destruct (by_count_app _ _ Hsorted) as [Htop Hcross].
  assert (Hentry : forall p, p ∈ sorted -> get m (fst p) = Some (snd p)).
  { intros [key v] Hp. rewrite Hperm in Hp. apply (get_entry m key v Hnd), Hp. }
  split; [rewrite length_take; lia |]. split; [| split; [exact Htop |]]; [| split].
  - assert (Hkeys : NoDup (fst <$> sorted)) by (rewrite Hperm; exact Hnd).
    rewrite <- (take_drop 10 sorted), fmap_app in Hkeys.
    apply NoDup_app in Hkeys as [Hk _]. exact Hk.
  - apply Forall_forall. intros p Hp.
    assert (Hin : p ∈ sorted)
      by (rewrite <- (take_drop 10 sorted); apply elem_of_app; left; exact Hp).
    pose proof (Hentry p Hin) as Hg. pose proof (Hget (fst p)) as Hc.
    rewrite Hg in Hc. cbn in Hc. split; [| exact Hc].
    rewrite Hperm in Hin. rewrite Forall_forall in Hpos. apply (Hpos p Hin).
  - intros error Herr. set (key := error_key error).
    assert (Hc : 1 <= cases_with key errorCases).
    { unfold cases_with.
      assert (Hin : error ∈ filter (fun e => error_key e = key) errorCases)
        by (apply list_elem_of_filter; split; [reflexivity | exact Herr]).
      destruct (filter _ errorCases); [inversion Hin | cbn; lia]. }
    assert (Hin : (key, cases_with key errorCases) ∈ sorted).
    { rewrite Hperm. apply (get_entry m _ _ Hnd). pose proof (Hget key) as Hg.
      destruct (get m key) as [v |]; cbn in Hg; [congruence | lia]. }
    rewrite <- (take_drop 10 sorted) in Hin. apply elem_of_app in Hin as [Hin | Hin].
    + left. exact Hin.
    + right. split.
      * rewrite length_take. apply Nat.min_l.
        destruct (Nat.le_gt_cases 10 (length sorted)) as [H | H]; [exact H |].
        rewrite drop_ge in Hin by lia. inversion Hin.
      * apply Forall_forall. intros p Hp. apply (Hcross p _ Hp Hin).
Qed.

End CommonErrorFacts.

(** ** Histograms *)

Module HistogramFacts.
Import JS ModelEvaluator EvaluatorHelpers HelperSpec AggregationFacts.

Lemma sum_counts_alter (counts : list Z) (i : nat) :
  (i < length counts)%nat ->
  sum_counts (alter (fun count => count + 1) i counts) = sum_counts counts + 1.
Proof.
  revert i. induction counts as [| c counts IH]; intros i Hi; [cbn in Hi; lia |].
  destruct i as [| i]; cbn [alter list_alter sum_counts].
  - lia.
  - change (list_alter (fun count => count + 1) i counts)
      with (alter (fun count => count + 1) i counts).
    rewrite IH by (cbn in Hi; lia). lia.
Qed.

Lemma sum_counts_zero (n : nat) : sum_counts (replicate n 0) = 0.
Proof. induction n as [| n IH]; [reflexivity |]. cbn. exact IH. Qed.

Lemma increment_length (counts : list Z) (index : option Z) :
  length (increment counts index) = length counts.
Proof.
  unfold increment. destruct index as [i |]; [| reflexivity].
  destruct (0 <=? i); [apply length_alter | reflexivity].
Qed.

Lemma total_count_imap (f : nat -> Z -> bin) (counts : list Z) :
  (forall i c, bin_count (f i c) = c) ->
  total_count (imap f counts) = sum_counts counts /\
  length (imap f counts) = length counts /\
  (Forall (fun c => c = 0) counts -> Forall (fun b => bin_count b = 0) (imap f counts)).
Proof.
  revert f. induction counts as [| c counts IH]; intros f Hf.
  - split; [reflexivity |]. split; [reflexivity |]. intros _. constructor.
  - cbn [imap total_count sum_counts length].
    destruct (IH (f ∘ S)) as (H1 & H2 & H3); [intros i c'; apply Hf |].
    rewrite Hf, H1, H2. split; [reflexivity |]. split; [reflexivity |].
    intros Hall. apply Forall_cons in Hall as [Hc Hall].
    constructor; [rewrite Hf; exact Hc | apply H3, Hall].
Qed.

(** With a positive bin width every value at or above the minimum falls in
    one of the bins. *)
Lemma binIndex_range (value min binWidth : Q) (bins : nat) :
  (0 < binWidth)%Q -> (min <= value)%Q -> (0 < bins)%nat ->
  exists i, binIndex value min binWidth (Z.of_nat bins) = Some i /\
            0 <= i < Z.of_nat bins.
Proof.
  intros Hw Hv Hb. unfold binIndex.
  destruct (Qeq_bool binWidth 0) eqn:Hz.
  { apply Qeq_bool_eq in Hz. rewrite Hz in Hw. discriminate. }
  eexists. split; [reflexivity |].
  assert (H0 : 0 <= Qfloor ((value - min) / binWidth)).
  { rewrite <- (Qfloor_Z 0). apply Qfloor_resp_le.
    apply Qle_shift_div_l; [exact Hw |]. rewrite Qmult_0_l.
    unfold Qminus. rewrite <- (Qplus_opp_r min).
    apply Qplus_le_compat; [exact Hv | apply Qle_refl]. }
  lia.
Qed.

Lemma fill_counts (min binWidth : Q) (bins : nat) (l : list Q) :
  (0 < binWidth)%Q -> (0 < bins)%nat ->
  Forall (fun value => min <= value)%Q l ->
  forall counts, length counts = bins ->
    sum_counts (fold_left (fun h value =>
                             increment h (binIndex value min binWidth (Z.of_nat bins)))
                          l counts)
    = sum_counts counts + Z.of_nat (length l).
Proof.
  intros Hw Hb. induction 1 as [| value l Hv _ IH]; intros counts Hlen; cbn [fold_left].
  - cbn. lia.
  - destruct (binIndex_range value min binWidth bins Hw Hv Hb) as (i & -> & Hi).
    rewrite IH by (rewrite increment_length; exact Hlen).
    unfold increment. destruct (Z.leb_spec 0 i); [| lia].
    rewrite sum_counts_alter by lia. cbn [length]. lia.
Qed.

Lemma keep_counts (min binWidth : Q) (bins : Z) (l : list Q) (counts : list Z) :
  (binWidth == 0)%Q ->
  fold_left (fun h value => increment h (binIndex value min binWidth bins)) l counts
  = counts.
Proof.
  intros Hw. revert counts. induction l as [| value l IH]; intros counts; [reflexivity |].
  cbn [fold_left]. unfold binIndex at 2.
  rewrite (proj2 (Qeq_bool_iff binWidth 0) Hw). cbn [increment]. apply IH.
Qed.

Lemma fold_length (min binWidth : Q) (bins : Z) (l : list Q) :
  forall counts,
    length (fold_left (fun h value => increment h (binIndex value min binWidth bins))
                      l counts)
    = length counts.
Proof.
  induction l as [| value l IH]; intros counts; [reflexivity |].
  cbn [fold_left]. rewrite IH. apply increment_length.
Qed.

(** X21.  [histogram] returns no bin for an empty array and [bins] bins
    otherwise.  When the values are not all equal (and there is at least one
    bin) every value is counted in exactly one bin: the counts add up to the
    number of values.  When all values are equal the bin width is 0, the bin
    index is NaN, and no value is counted: every bin has count 0. *)
Theorem histogram_counts (arr : list Q) (bins : nat) :
  length (histogram arr bins) = (if decide (arr = []) then 0%nat else bins) /\
  ((exists x y, x ∈ arr /\ y ∈ arr /\ ~ (x == y)%Q) -> (0 < bins)%nat ->
   total_count (histogram arr bins) = Z.of_nat (length arr)) /\
  ((forall x y, x ∈ arr -> y ∈ arr -> (x == y)%Q) ->
   Forall (fun b => bin_count b = 0) (histogram arr bins)).
Proof.
  destruct arr as [| v vs]; [split; [reflexivity |]; split;
                             [intros (x & _ & Hx & _); inversion Hx | intros _; constructor] |].
  rewrite decide_False by discriminate. unfold histogram.
  destruct (Qmin_list_spec vs v) as [Hmin_in Hmin].
  destruct (Qmax_list_spec vs v) as [Hmax_in Hmax].
  set (min := CrossValidator.Qmin_list v vs) in *.
  set (max := CrossValidator.Qmax_list v vs) in *.
  set (binWidth := ((max - min) / inject_Z (Z.of_nat bins))%Q).
  set (counts := fold_left _ (v :: vs) (replicate bins 0)).
  assert (Hlen : length counts = bins).
  { unfold counts. rewrite fold_length. apply length_replicate. }
  match goal with |- context [imap ?f counts] => set (mk := f) end.
  destruct (total_count_imap mk counts ltac:(reflexivity)) as (Htotal & Hlength & Hzero).
  split; [rewrite Hlength; exact Hlen |]. split.
  - intros (x & y & Hx & Hy & Hne) Hb. rewrite Htotal. unfold counts.
    assert (Hw : (0 < binWidth)%Q).
    { unfold binWidth. apply Qlt_shift_div_l; [rewrite <- (Zlt_Qlt 0); lia |].
      rewrite Qmult_0_l. unfold Qminus. rewrite <- (Qplus_opp_r min).
      apply Qplus_lt_le_compat; [| apply Qle_refl].
      rewrite Forall_forall in Hmin, Hmax.
      destruct (Qlt_le_dec min max) as [Hlt | Hle]; [exact Hlt | exfalso].
      apply Hne. apply Qle_antisym.
      - eapply Qle_trans; [apply (Hmax x Hx) |]. eapply Qle_trans; [exact Hle |].
        apply (Hmin y Hy).
      - eapply Qle_trans; [apply (Hmax y Hy) |]. eapply Qle_trans; [exact Hle |].
        apply (Hmin x Hx). }
    rewrite (fill_counts min binWidth bins (v :: vs) Hw Hb Hmin)
      by apply length_replicate.
    rewrite sum_counts_zero. lia.
  - intros Hall. apply Hzero. unfold counts.
    rewrite keep_counts; [apply Forall_replicate; reflexivity |].
    unfold binWidth. rewrite (Hall max min Hmax_in Hmin_in).
    unfold Qminus. rewrite Qplus_opp_r. unfold Qdiv. apply Qmult_0_l.
Qed.

End HistogramFacts.

(** ** Ground truth store *)

Module GroundTruthFacts.
Import JS Data GroundTruthManager.

Lemma setGroundTruth_snoc (data : list record) (item : record) (old : gmap string record) :
  setGroundTruth (data ++ [item]) old
  = if truthy (Some (rec_id item)) then <[rec_id item := item]> (setGroundTruth data old)
    else setGroundTruth data old.
Proof. unfold setGroundTruth. rewrite fold_left_app. reflexivity. Qed.

Lemma truthy_id (id : string) : truthy (Some id) = true <-> id <> "".
Proof.
  cbn. destruct (String.eqb_spec id ""); split; try congruence; try discriminate; auto.
Qed.

Lemma getGroundTruth_last (data : list record) (old : gmap string record) (id : string) :
  getGroundTruth (setGroundTruth data old) id
  = if decide (id = "") then None else last (filter (fun r => rec_id r = id) data).
Proof.
  unfold getGroundTruth. induction data as [| item data IH] using rev_ind.
  - unfold setGroundTruth. cbn [fold_left filter list_filter last]. rewrite lookup_empty.
    destruct (decide (id = "")); reflexivity.
  - rewrite setGroundTruth_snoc, filter_app, filter_cons, filter_nil.
    destruct (truthy (Some (rec_id item))) eqn:Ht.
    + apply truthy_id in Ht. destruct (decide (rec_id item = id)) as [<- | Hne].
      * rewrite lookup_insert_eq, decide_False by exact Ht. rewrite last_snoc. reflexivity.
      * rewrite lookup_insert_ne by exact Hne. rewrite app_nil_r. exact IH.
    + assert (Hid : rec_id item = "").
      { destruct (decide (rec_id item = "")) as [H | H]; [exact H |].
        apply truthy_id in H. congruence. }
      rewrite IH. destruct (decide (id = "")) as [He | Hne]; [reflexivity |].
      rewrite decide_False by congruence. rewrite app_nil_r. reflexivity.
Qed.

(** X22.  After [setGroundTruth(data)] on an array, whatever the store held
    before, [getGroundTruth(id)] returns the last item of the array with that
    id, and undefined for an id that no item has and for the empty id; the
    number of stored items is the number of distinct non-empty ids, at most
    the length of the array. *)
Theorem setGroundTruth_lookup (data : list record) (old : gmap string record) :
  let groundTruthData := setGroundTruth data old in
  (forall id, getGroundTruth groundTruthData id
              = if decide (id = "") then None
                else last (filter (fun r => rec_id r = id) data)) /\
  (forall id, is_Some (getGroundTruth groundTruthData id)
              <-> id <> "" /\ id ∈ rec_id <$> data) /\
  (forall id item, getGroundTruth groundTruthData id = Some item ->
                   item ∈ data /\ rec_id item = id) /\
  (exists ids, NoDup ids /\
               (forall id, id ∈ ids <-> id <> "" /\ id ∈ rec_id <$> data) /\
               loaded groundTruthData = length ids) /\
  (loaded groundTruthData <= length data)%nat.
Proof.
  intros groundTruthData.
  assert (Hget := getGroundTruth_last data old). fold groundTruthData in Hget.
  assert (Hitem : forall id item, getGroundTruth groundTruthData id = Some item ->
                                  item ∈ data /\ rec_id item = id).
  { intros id item. rewrite Hget. destruct (decide (id = "")); [discriminate |].
    intros Hl. apply last_Some in Hl as [l' Hl].
    assert (Hin : item ∈ filter (fun r => rec_id r = id) data)
      by (rewrite Hl; apply elem_of_app; right; left).
    apply list_elem_of_filter in Hin as [Hid Hin]. split; assumption. }
  assert (Hsome : forall id, is_Some (getGroundTruth groundTruthData id)
                             <-> id <> "" /\ id ∈ rec_id <$> data).
  { intros id. split.
    - intros [item Hi]. destruct (Hitem id item Hi) as [Hin Hid]. split.
      + rewrite Hget in Hi. destruct (decide (id = "")); [discriminate | assumption].
      + apply list_elem_of_fmap. exists item. split; [symmetry; exact Hid | exact Hin].
    - intros [Hne Hin]. rewrite Hget, decide_False by exact Hne.
      apply list_elem_of_fmap in Hin as (r & -> & Hr).
      destruct (last (filter (fun r0 => rec_id r0 = rec_id r) data)) eqn:Hl;
        [eexists; reflexivity |].
      apply last_None in Hl.
      assert (Hf : r ∈ filter (fun r0 => rec_id r0 = rec_id r) data)
        by (apply list_elem_of_filter; split; [reflexivity | exact Hr]).
      rewrite Hl in Hf. inversion Hf. }
  split; [exact Hget |]. split; [exact Hsome |]. split; [exact Hitem |].
  assert (Hids : forall id, id ∈ (map_to_list groundTruthData).*1
                            <-> id <> "" /\ id ∈ rec_id <$> data).
  { intros id. rewrite <- Hsome. unfold getGroundTruth. rewrite list_elem_of_fmap. split.
    - intros ([k v] & -> & Hin). apply elem_of_map_to_list in Hin. exists v. exact Hin.
    - intros [v Hv]. exists (id, v). split; [reflexivity |].
      apply elem_of_map_to_list. exact Hv. }
  split.
  - exists ((map_to_list groundTruthData).*1).
    split; [apply NoDup_fst_map_to_list |]. split; [exact Hids |].
    unfold loaded. rewrite length_fmap, length_map_to_list. reflexivity.
  - unfold loaded. rewrite <- length_map_to_list, <- (length_fmap fst).
    rewrite <- (length_fmap rec_id data).
    apply submseteq_length, NoDup_submseteq; [apply NoDup_fst_map_to_list |].
    intros id Hid. apply Hids in Hid as [_ Hid]. exact Hid.
Qed.

End GroundTruthFacts.
